(** * crawlbase: the crawl frontier and the fetch / extract / resume pipeline

    A shallow embedding of [crawlbase.go].  Go values are modelled as the
    code has them: [map[string]bool] as a [gmap string bool], slices as
    lists, [int] fields as [Z], byte slices and strings as [string].
    The packages the file imports ([net/url], [net/http], [goquery], the
    file system) are interfaces: type classes or oracles whose instances
    stand for the library. *)

From Stdlib Require Import ZArith String Ascii SpecFloat.
From stdpp Require Import base option list gmap sets strings.

Set Warnings "-register-all".

Local Open Scope string_scope.

(** ** The fragment of Go's [strings] package used by the crawler *)

Module GoStrings.

(** [strings.Split(s, sep)] for a one-byte separator, which is what every
    call site passes (".", ";" and ":").  The result is never empty. *)
Fixpoint Split (s : string) (sep : ascii) : list string :=
  match s with
  | EmptyString => [EmptyString]
  | String c s' =>
      if decide (c = sep) then EmptyString :: Split s' sep
      else match Split s' sep with
           | [] => [String c EmptyString]
           | w :: ws => String c w :: ws
           end
  end.

(** [strings.Join(elems, sep)], used to state what [Split] computes. *)
Fixpoint Join (elems : list string) (sep : string) : string :=
  match elems with
  | [] => EmptyString
  | [w] => w
  | w :: ws => w ++ sep ++ Join ws sep
  end.

(** [strings.TrimSpace(s)]: the white space of [unicode.IsSpace] is cut off
    at both ends.  A Go string is a sequence of bytes; [TrimSpace] reads it
    as UTF-8.  In the ASCII range the white space is the table
    [asciiSpace]: tab, line feed, vertical tab, form feed, carriage return
    and space. *)
Definition isSpace (c : ascii) : bool :=
  let n := nat_of_ascii c in
  (n =? 32)%nat || ((9 <=? n)%nat && (n <=? 13)%nat).

(** Above the ASCII range [unicode.IsSpace] holds of U+0085 and U+00A0,
    which UTF-8 encodes in two bytes, and of U+1680, U+2000 to U+200A,
    U+2028, U+2029, U+202F, U+205F and U+3000, encoded in three.  A rune is
    decoded from its shortest encoding only, and bytes that are no valid
    encoding decode to [RuneError], which is no white space: so a rune is
    white space exactly when its bytes are one of these. *)
Definition isSpace2 (b0 b1 : ascii) : bool :=
  let n0 := nat_of_ascii b0 in
  let n1 := nat_of_ascii b1 in
  (n0 =? 194)%nat && ((n1 =? 133)%nat || (n1 =? 160)%nat).

Definition isSpace3 (b0 b1 b2 : ascii) : bool :=
  let n0 := nat_of_ascii b0 in
  let n1 := nat_of_ascii b1 in
  let n2 := nat_of_ascii b2 in
  ((n0 =? 225)%nat && (n1 =? 154)%nat && (n2 =? 128)%nat)
  || ((n0 =? 226)%nat && (n1 =? 128)%nat
      && (((128 <=? n2)%nat && (n2 <=? 138)%nat)
          || (n2 =? 168)%nat || (n2 =? 169)%nat || (n2 =? 175)%nat))
  || ((n0 =? 226)%nat && (n1 =? 129)%nat && (n2 =? 159)%nat)
  || ((n0 =? 227)%nat && (n1 =? 128)%nat && (n2 =? 128)%nat).

(** [TrimLeftFunc(s, unicode.IsSpace)]: runes are decoded from the front
    for as long as they are white space. *)
Fixpoint TrimLeft (s : string) : string :=
  match s with
  | EmptyString => EmptyString
  | String b0 s1 =>
      if isSpace b0 then TrimLeft s1
      else match s1 with
           | EmptyString => s
           | String b1 s2 =>
               if isSpace2 b0 b1 then TrimLeft s2
               else match s2 with
                    | EmptyString => s
                    | String b2 s3 => if isSpace3 b0 b1 b2 then TrimLeft s3 else s
                    end
           end
  end.

(** The bytes of a string from the last to the first. *)
Fixpoint reverse_onto (s acc : string) : string :=
  match s with
  | EmptyString => acc
  | String c s' => reverse_onto s' (String c acc)
  end.

Definition reverse (s : string) : string := reverse_onto s EmptyString.

(** [TrimRightFunc(s, unicode.IsSpace)] decodes the last rune
    ([utf8.DecodeLastRuneInString]) for as long as it is white space.
    [TrimRight_from_end] does so on the bytes from the last to the first:
    [b2] is the last byte of what is left, [b1] the one before it. *)
Fixpoint TrimRight_from_end (r : string) : string :=
  match r with
  | EmptyString => EmptyString
  | String b2 r1 =>
      if isSpace b2 then TrimRight_from_end r1
      else match r1 with
           | EmptyString => r
           | String b1 r2 =>
               if isSpace2 b1 b2 then TrimRight_from_end r2
               else match r2 with
                    | EmptyString => r
                    | String b0 r3 =>
                        if isSpace3 b0 b1 b2 then TrimRight_from_end r3 else r
                    end
           end
  end.

Definition TrimRight (s : string) : string :=
  reverse (TrimRight_from_end (reverse s)).

Definition TrimSpace (s : string) : string := TrimRight (TrimLeft s).

Definition HasSuffix (s suffix : string) : bool :=
  let n := String.length s in
  let k := String.length suffix in
  bool_decide (k ≤ n)%nat && bool_decide (substring (n - k) k s = suffix).

(** [strings.Replace(s, old, new, 1)]: the first occurrence only. *)
Fixpoint Replace1 (s old new : string) : string :=
  if String.prefix old s
  then new ++ substring (String.length old) (String.length s - String.length old) s
  else match s with
       | EmptyString => EmptyString
       | String c s' => String c (Replace1 s' old new)
       end.

(** Whether the byte [c] occurs in [s]: [strings.IndexByte(s, c) >= 0]. *)
Fixpoint hasByte (s : string) (c : ascii) : bool :=
  match s with
  | EmptyString => false
  | String a s' => if decide (a = c) then true else hasByte s' c
  end.

(** [strings.Trim(s, cutset)] for a cutset of ASCII bytes. *)
Fixpoint TrimLeftSet (s cutset : string) : string :=
  match s with
  | EmptyString => EmptyString
  | String c s' => if hasByte cutset c then TrimLeftSet s' cutset else s
  end.

Fixpoint TrimRightSet (s cutset : string) : string :=
  match s with
  | EmptyString => EmptyString
  | String c s' =>
      match TrimRightSet s' cutset with
      | EmptyString => if hasByte cutset c then EmptyString else String c EmptyString
      | t => String c t
      end
  end.

Definition Trim (s cutset : string) : string :=
  TrimRightSet (TrimLeftSet s cutset) cutset.

(** [strings.Contains(s, substr)] *)
Fixpoint Contains (s substr : string) : bool :=
  if String.prefix substr s then true
  else match s with
       | EmptyString => false
       | String _ s' => Contains s' substr
       end.

End GoStrings.

(** ** Durations and floating point *)

Module GoTime.

(** [float64] is IEEE 754 binary64: 53 bits of precision, and every
    operation rounds to the nearest value, ties to even. *)
Definition float64 : Type := spec_float.

(** [float64(n)] for an integer [n]. *)
Definition float64_of_int (n : Z) : float64 := binary_normalize 53 1024 n 0 false.

Definition float64_add (x y : float64) : float64 := SFadd 53 1024 x y.
Definition float64_mul (x y : float64) : float64 := SFmul 53 1024 x y.
Definition float64_div (x y : float64) : float64 := SFdiv 53 1024 x y.

(** [int(f)]: the fraction is discarded.  For a value that no [int] holds
    the language leaves the result to the implementation; it is the
    smallest [int] here, as on amd64. *)
Definition int_of_float64 (f : float64) : Z :=
  match f with
  | S754_zero _ => 0%Z
  | S754_finite s m e =>
      let v := if (0 <=? e)%Z then Z.shiftl (Zpos m) e else Z.shiftr (Zpos m) (- e) in
      if (v <? 2 ^ 63)%Z then (if s then - v else v)%Z else (- 2 ^ 63)%Z
  | _ => (- 2 ^ 63)%Z
  end.

(** A [time.Duration] is an [int64] count of nanoseconds. *)
Definition Second : Z := 1000000000.

(** [d.Seconds()]: [float64(sec) + float64(nsec)/1e9], with [sec] and
    [nsec] the quotient and the remainder of the division by [Second],
    which truncates. *)
Definition Duration_Seconds (d : Z) : float64 :=
  let sec := Z.quot d Second in
  let nsec := Z.rem d Second in
  float64_add (float64_of_int sec)
              (float64_div (float64_of_int nsec) (float64_of_int 1000000000)).

End GoTime.

(** ** Errors *)

(** Go's [error] values as the crawler meets them.  [ErrorCheckRedirect] is
    the package-level sentinel; the source compares against it by identity,
    so it is a constructor of its own and not an [errorString]. *)
Inductive error : Type :=
  | ErrorCheckRedirect
  | errorString (msg : string)
  | url_Error (Op URL : string) (Err : error).

(** ** Data model *)

Abbreviation Header := (gmap string (list string)).

(** [http.Header.Get] for a key already in canonical form. *)
Definition Header_Get (h : Header) (key : string) : string :=
  match h !! key with
  | Some (v :: _) => v
  | _ => ""
  end.

Record Cookie := mkCookie {
  Cookie_Name : string; Cookie_Value : string;
  Cookie_Domain : string; Cookie_Httponly : bool }.

Record FormInput := mkFormInput {
  FormInput_Name : string; FormInput_Type : string; FormInput_Value : string }.

Record Form := mkForm {
  Form_Url : string; Form_Method : string; Form_Inputs : list FormInput }.

Record Ressource := mkRessource {
  Ressource_Url : string; Ressource_Type : string;
  Ressource_Rel : string; Ressource_Tag : string }.

Record JSInfo := mkJSInfo { JSInfo_Source : string; JSInfo_Value : string }.

Record ResponseInfo := mkResponseInfo {
  Hrefs : list string;
  Forms : list Form;
  Ressources : list Ressource;
  JSInfos : list JSInfo;
  Requests : list Ressource }.

Record PageResponse := mkPageResponse {
  Response_Header : Header;
  Response_Proto : string;
  StatusCode : Z;
  Response_ContentLength : Z;
  ContentMIME : string;
  Response_Cookies : list Cookie }.

Record PageRequest := mkPageRequest {
  Request_Header : Header;
  Request_Proto : string;
  Request_ContentLength : Z;
  Request_Cookies : list Cookie }.

(** [Response] and [Request] are pointers in the source; every function
    that builds a [Page] allocates both, so they are plain fields here. *)
Record Page := mkPage {
  URL : string;
  CrawlTime : Z;
  RespDuration : Z;
  CrawlerId : Z;
  Uid : string;
  Response : PageResponse;
  Request : PageRequest;
  RespInfo : ResponseInfo;
  Error : string;
  ResponseBody : string;
  RequestBody : string }.

Definition empty_ResponseInfo : ResponseInfo := mkResponseInfo [] [] [] [] [].
Definition empty_PageResponse : PageResponse := mkPageResponse ∅ "" 0 0 "" [].
Definition empty_PageRequest : PageRequest := mkPageRequest ∅ "" 0 [].

(** [Page{}] followed by the allocation of the two sub-records. *)
Definition empty_Page : Page :=
  mkPage "" 0 0 0 "" empty_PageResponse empty_PageRequest empty_ResponseInfo "" "" "".

Definition set_RespInfo (p : Page) (ri : ResponseInfo) : Page :=
  mkPage (URL p) (CrawlTime p) (RespDuration p) (CrawlerId p) (Uid p)
         (Response p) (Request p) ri (Error p) (ResponseBody p) (RequestBody p).

Definition set_Hrefs (p : Page) (hs : list string) : Page :=
  let ri := RespInfo p in
  set_RespInfo p (mkResponseInfo hs (Forms ri) (Ressources ri) (JSInfos ri) (Requests ri)).

Definition set_Response (p : Page) (r : PageResponse) : Page :=
  mkPage (URL p) (CrawlTime p) (RespDuration p) (CrawlerId p) (Uid p)
         r (Request p) (RespInfo p) (Error p) (ResponseBody p) (RequestBody p).

Definition set_Error (p : Page) (e : string) : Page :=
  mkPage (URL p) (CrawlTime p) (RespDuration p) (CrawlerId p) (Uid p)
         (Response p) (Request p) (RespInfo p) e (ResponseBody p) (RequestBody p).

(** The crawler.  [Client] is the HTTP transport: it is not a value of the
    model but the oracle passed to [GetPage].  The two hooks are Go
    closures, modelled as functions of their arguments. *)
Record Crawler := mkCrawler {
  Crawler_Header : Header;
  IncludeHiddenLinks : bool;
  WaitBetweenRequests : Z;
  Links : gmap string bool;
  BeforeCrawlFn : option (string → string * option error);
  AfterCrawlFn : option (Page → option error → list string * option error);
  ValidSchemes : list string;
  PageCount : Z;
  StorageFolder : string;
  ScopeToDomain : bool }.

Definition set_Links (cw : Crawler) (m : gmap string bool) : Crawler :=
  mkCrawler (Crawler_Header cw) (IncludeHiddenLinks cw) (WaitBetweenRequests cw)
            m (BeforeCrawlFn cw) (AfterCrawlFn cw) (ValidSchemes cw)
            (PageCount cw) (StorageFolder cw) (ScopeToDomain cw).

Definition set_PageCount (cw : Crawler) (n : Z) : Crawler :=
  mkCrawler (Crawler_Header cw) (IncludeHiddenLinks cw) (WaitBetweenRequests cw)
            (Links cw) (BeforeCrawlFn cw) (AfterCrawlFn cw) (ValidSchemes cw)
            n (StorageFolder cw) (ScopeToDomain cw).

Definition set_ScopeToDomain (cw : Crawler) (b : bool) : Crawler :=
  mkCrawler (Crawler_Header cw) (IncludeHiddenLinks cw) (WaitBetweenRequests cw)
            (Links cw) (BeforeCrawlFn cw) (AfterCrawlFn cw) (ValidSchemes cw)
            (PageCount cw) (StorageFolder cw) b.

(** ** The frontier: [Crawler.Links] and the methods that update it *)

(** [cw.Links[k] = v] *)
Definition Links_store (k : string) (v : bool) (cw : Crawler) : Crawler :=
  set_Links cw (<[k := v]> (Links cw)).

Definition IsCrawled (cw : Crawler) (url : string) : bool :=
  match Links cw !! url with
  | Some val => if bool_decide (val = true) then true else false
  | None => false
  end.

Definition AddCrawledLinks (links : list string) (cw : Crawler) : Crawler :=
  fold_left (fun cw newLink => Links_store newLink true cw) links cw.

Definition AddAllLinks (links : list string) (cw : Crawler) : Crawler :=
  fold_left (fun cw newLink =>
               let isCrawled := IsCrawled cw newLink in
               Links_store newLink isCrawled cw) links cw.

Fixpoint ContainsString (arr : list string) (key : string) : bool :=
  match arr with
  | [] => false
  | x :: arr' => if bool_decide (x = key) then true else ContainsString arr' key
  end.

Fixpoint contains (s : list string) (e : string) : bool :=
  match s with
  | [] => false
  | a :: s' => if bool_decide (a = e) then true else contains s' e
  end.

Definition headerUserAgentChrome : string :=
  "Mozilla/5.0 (Windows NT 6.3; WOW64) AppleWebKit/537.36 (KHTML, like Gecko) Chrome/47.0.2526.106 Safari/537.36".

Definition NewCrawler : Crawler :=
  mkCrawler {[ "User-Agent" := [headerUserAgentChrome] ]} false (1 * 1000) ∅ None None
            ["http"; "https"] 0 "./storage" false.

(** ** Results of fallible calls and ways a call can end *)

(** A Go [(value, error)] pair of a call that yields one or the other. *)
Inductive result (A : Type) : Type :=
  | Ok (a : A)
  | Err (e : error).
Arguments Ok {A} a.
Arguments Err {A} e.

(** How a call ends: it returns, the process exits in [log.Fatal], or a nil
    pointer is dereferenced. *)
Inductive Exit (A : Type) : Type :=
  | Return (a : A)
  | LogFatal
  | Panic.
Arguments Return {A} a.
Arguments LogFatal {A}.
Arguments Panic {A}.

(** ** The libraries the crawler calls *)

(** [url.URL], with the fields the crawler or the resolver reads. *)
Record url_URL := mkURL {
  Scheme : string;
  Opaque : string;
  Host : string;
  Path : string;
  RawQuery : string;
  Fragment : string }.

(** A parsed HTML tree ([html.Node]): elements with their attributes in
    source order, and text. *)
Inductive Node : Type :=
  | Element (Data : string) (Attrs : list (string * string)) (children : list Node)
  | TextNode (Data : string).

Record http_Request := mkRequest {
  Req_Method : string;
  Req_URL : url_URL;
  Req_Header : Header;
  Req_Proto : string;
  Req_ContentLength : Z }.

(** [Res_Body] is what [ioutil.ReadAll(res.Body)] yields. *)
Record http_Response := mkResponse {
  Res_Body : result string;
  Res_Header : Header;
  Res_StatusCode : Z;
  Res_Proto : string }.

(** The pure library functions.  [http_NewRequest method url] is
    [http.NewRequest(method, url, nil)]; [strconv_Quote s] is what the verb
    [%q] prints for [s]. *)
Class Lib := {
  url_Parse : string → result url_URL;
  url_ResolveReference : url_URL → url_URL → url_URL;
  url_String : url_URL → string;
  http_NewRequest : string → string → result http_Request;
  goquery_NewDocumentFromReader : string → result Node;
  json_Unmarshal : string → result Page;
  path_Join : string → string → string;
  sha1_hex : string → string;
  strconv_Quote : string → string }.

(** [err.Error()].  A [url.Error] prints as [fmt.Sprintf] does with the
    format [%s %q: %s]: the URL is quoted (Go 1.14 and later). *)
Fixpoint error_Error `{L : Lib} (e : error) : string :=
  match e with
  | ErrorCheckRedirect => "dont redirect"
  | errorString msg => msg
  | url_Error op u e' => op ++ " " ++ strconv_Quote u ++ ": " ++ error_Error e'
  end.

(** One [range] over [Links]: every entry once, in an order Go leaves
    open.  A [RangeOrder] is one such order for every map. *)
Record RangeOrder := mkRangeOrder {
  range_of :> gmap string bool → list (string * bool);
  range_perm : ∀ m, range_of m ≡ₚ map_to_list m }.

(** The file system as [LoadPages] reads it. *)
Record FS := mkFS {
  ReadDir : string → result (list string);
  ReadFile : string → result string }.

(** What one iteration of the crawl loop gets from outside: the order of
    its [range] over [Links], the transport ([Client.Do]), the clock
    ([time.Now().Unix()] and the [time.Duration] the request took, in
    nanoseconds), and whether the writes of [SavePage] succeed. *)
Record World := mkWorld {
  range : RangeOrder;
  Client_Do : http_Request → option http_Response * option error;
  time_Unix : Z;
  request_duration : Z;
  storage_ok : bool }.

(** ** goquery selections *)

Fixpoint descendants (n : Node) : list Node :=
  match n with
  | Element _ _ cs => flat_map (fun c => c :: descendants c) cs
  | TextNode _ => []
  end.

Definition is_tag (tag : string) (n : Node) : bool :=
  match n with
  | Element d _ _ => bool_decide (d = tag)
  | TextNode _ => false
  end.

(** [s.Find(tag)] on a selection of one node: the descendant elements with
    that tag, in document order. *)
Definition Find (s : Node) (tag : string) : list Node :=
  List.filter (is_tag tag) (descendants s).

(** [s.Attr(name)]: the value of the first attribute of that name, with
    [None] for [exists = false]. *)
Definition Attr (s : Node) (name : string) : option string :=
  match s with
  | Element _ attrs _ =>
      snd <$> List.find (fun kv => bool_decide (fst kv = name)) attrs
  | TextNode _ => None
  end.

(** [sel.Each(f)], with the slice the closure appends to as accumulator. *)
Definition Each {A : Type} (sel : list Node) (f : A → Node → A) (acc : A) : A :=
  fold_left f sel acc.

(** ** The crawler's functions *)

Section Crawlbase.
Context `{L : Lib}.

(** *** URL resolution and registrable domains *)

Definition ToAbsUrl (baseurl : url_URL) (weburl : string) : string :=
  match url_Parse weburl with
  | Err _ => ""
  | Ok relurl =>
      let absurl := url_ResolveReference baseurl relurl in
      url_String absurl
  end.

Definition ToHash (message : string) : string := sha1_hex message.

Definition GetDomain (host : string) : string :=
  let splitted := GoStrings.Split host "."%char in
  let lenSplitted := length splitted in
  if decide (2 ≤ lenSplitted)%nat then
    nth (lenSplitted - 2) splitted "" ++ "." ++ nth (lenSplitted - 1) splitted ""
  else if decide (1 ≤ lenSplitted)%nat then nth 0 splitted ""
  else host.

Definition IsSameDomain (baseUrl testUrl : url_URL) : bool :=
  bool_decide (GetDomain (Host baseUrl) = GetDomain (Host testUrl)).

Definition IsValidScheme (cw : Crawler) (url : url_URL) : bool :=
  ContainsString (ValidSchemes cw) (Scheme url).

(** *** Frontier operations that parse their keys *)

Definition AddLinksMatchingDomain (links : list string) (startUrl : url_URL)
    (cw : Crawler) : Crawler :=
  fold_left (fun cw newLink =>
               match url_Parse newLink with
               | Err _ => cw
               | Ok newLinkUrl =>
                   if IsSameDomain startUrl newLinkUrl
                   then AddAllLinks [newLink] cw
                   else cw
               end) links cw.

(** [delete(cw.Links, k)] *)
Definition Links_delete (k : string) (cw : Crawler) : Crawler :=
  set_Links cw (delete k (Links cw)).

(** The loop deletes only the key it is at, so the [range] still reaches
    every entry the map had when it started. *)
Definition RemoveLinksNotSameHost (order : RangeOrder) (baseUrl : url_URL)
    (cw : Crawler) : Crawler :=
  fold_left (fun cw kv =>
               let k := fst kv in
               match url_Parse k with
               | Err _ => Links_delete k cw
               | Ok pUrl =>
                   if negb (IsSameDomain baseUrl pUrl)
                   then Links_delete k cw
                   else cw
               end) (order (Links cw)) cw.

Fixpoint GetNextLink_range (entries : list (string * bool)) : string * bool :=
  match entries with
  | [] => ("", false)
  | (i, l) :: rest => if bool_decide (l = false) then (i, true)
                      else GetNextLink_range rest
  end.

Definition GetNextLink (order : RangeOrder) (c : Crawler) : string * bool :=
  GetNextLink_range (order (Links c)).

(** *** The HTML extractor *)

Definition GetStylesCss (style : string) : gmap string string :=
  let splitted := GoStrings.Split style ";"%char in
  fold_left (fun attrs k =>
               let kv := GoStrings.Split k ":"%char in
               match kv with
               | kv0 :: kv1 :: _ =>
                   let key := GoStrings.TrimSpace kv0 in
                   let value := GoStrings.TrimSpace kv1 in
                   <[key := value]> attrs
               | _ => attrs
               end) splitted ∅.

Definition IsVisibleCss (style : string) : bool :=
  let styles := GetStylesCss style in
  let '(display, hasDisplay) :=
    match styles !! "display" with Some v => (v, true) | None => ("", false) end in
  let '(visibilty, hasVisibilty) :=
    match styles !! "visibility" with Some v => (v, true) | None => ("", false) end in
  if hasDisplay && bool_decide (display = "none") then false
  else if hasVisibilty && bool_decide (visibilty = "hidden") then false
  else true.

(** The closure passed to [Each] in [GetHrefs]; [hrefs] is the slice it
    captures. *)
Definition GetHrefs_each (baseUrl : url_URL) (removeInvisibles : bool)
    (hrefs : list string) (s : Node) : list string :=
  match Attr s "href" with
  | None => hrefs
  | Some href =>
      let skip :=
        match Attr s "style" with
        | Some style => if removeInvisibles then IsVisibleCss style else false
        | None => false
        end in
      if skip then hrefs
      else
        let fullUrl := ToAbsUrl baseUrl href in
        if negb (contains hrefs fullUrl) then hrefs ++ [fullUrl] else hrefs
  end.

Definition GetHrefs (doc : Node) (baseUrl : url_URL) (removeInvisibles : bool)
    : list string :=
  Each (Find doc "a") (GetHrefs_each baseUrl removeInvisibles) [].

Definition attr_or_empty (s : Node) (name : string) : string :=
  default "" (Attr s name).

Definition GetFormUrls_input (inputs : list FormInput) (s : Node) : list FormInput :=
  inputs ++ [mkFormInput (attr_or_empty s "name") (attr_or_empty s "type")
                         (attr_or_empty s "value")].

Definition GetFormUrls_each (baseUrl : url_URL) (forms : list Form) (s : Node)
    : list Form :=
  let url := match Attr s "action" with
             | Some href => ToAbsUrl baseUrl href
             | None => ""
             end in
  let method := attr_or_empty s "method" in
  let inputs := Each (Find s "input") GetFormUrls_input [] in
  forms ++ [mkForm url method inputs].

Definition GetFormUrls (doc : Node) (baseUrl : url_URL) : list Form :=
  Each (Find doc "form") (GetFormUrls_each baseUrl) [].

(** The four closures of [GetRessources], in the order of the source. *)
Definition GetRessources_link (baseUrl : url_URL) (ressources : list Ressource)
    (s : Node) : list Ressource :=
  let url := match Attr s "href" with
             | Some href => ToAbsUrl baseUrl href
             | None => ""
             end in
  ressources ++ [mkRessource url (attr_or_empty s "type") (attr_or_empty s "rel") "link"].

Definition GetRessources_img (baseUrl : url_URL) (ressources : list Ressource)
    (s : Node) : list Ressource :=
  let url := match Attr s "src" with
             | Some href => ToAbsUrl baseUrl href
             | None => ""
             end in
  ressources ++ [mkRessource url "" "" "img"].

Definition GetRessources_script (baseUrl : url_URL) (ressources : list Ressource)
    (s : Node) : list Ressource :=
  match Attr s "src" with
  | Some href =>
      ressources ++ [mkRessource (ToAbsUrl baseUrl href) (attr_or_empty s "type") "" "script"]
  | None => ressources
  end.

Definition GetRessources_style (baseUrl : url_URL) (ressources : list Ressource)
    (s : Node) : list Ressource :=
  match Attr s "src" with
  | Some href =>
      ressources ++ [mkRessource (ToAbsUrl baseUrl href) (attr_or_empty s "type") "" "style"]
  | None => ressources
  end.

Definition GetRessources (doc : Node) (baseUrl : url_URL) : list Ressource :=
  let ressources := [] in
  let ressources := Each (Find doc "link") (GetRessources_link baseUrl) ressources in
  let ressources := Each (Find doc "img") (GetRessources_img baseUrl) ressources in
  let ressources := Each (Find doc "script") (GetRessources_script baseUrl) ressources in
  Each (Find doc "style") (GetRessources_style baseUrl) ressources.

(** *** Page assembly *)

Definition GetContentMime (header : Header) : string :=
  let contentMIME := nth 0 (GoStrings.Split (Header_Get header "Content-Type") ";"%char) "" in
  if bool_decide (contentMIME = "") then "text/html" else contentMIME.

Definition LocationFromPage (page : Page) (baseUrl : url_URL) : bool * string :=
  if bool_decide (300 ≤ StatusCode (Response page))%Z
     && bool_decide (StatusCode (Response page) < 308)%Z
  then
    let loc := Header_Get (Response_Header (Response page)) "Location" in
    let loc := ToAbsUrl baseUrl loc in
    (true, loc)
  else (false, "").

Definition PageFromData (data : string) (url : url_URL) (includeHiddenLinks : bool)
    : Page :=
  let page := empty_Page in
  let respInfo :=
    match goquery_NewDocumentFromReader data with
    | Err _ => RespInfo page
    | Ok doc =>
        let hrefs := GetHrefs doc url (negb includeHiddenLinks) in
        mkResponseInfo hrefs (GetFormUrls doc url) (GetRessources doc url)
                       (JSInfos (RespInfo page)) (Requests (RespInfo page))
    end in
  mkPage (URL page) (CrawlTime page) (RespDuration page) (CrawlerId page) (Uid page)
         empty_PageResponse empty_PageRequest respInfo (Error page) data
         (RequestBody page).

(** The block of [PageFromResponse] under [res != nil]. *)
Definition PageFromResponse_res (c : Crawler) (req : http_Request)
    (res : http_Response) (page : Page) : Page :=
  let page :=
    match Res_Body res with
    | Ok body => PageFromData body (Req_URL req) (IncludeHiddenLinks c)
    | Err _ => page
    end in
  let r := Response page in
  let page :=
    set_Response page
      (mkPageResponse (Res_Header res) (Res_Proto res) (Res_StatusCode res)
                      (Response_ContentLength r) (GetContentMime (Res_Header res))
                      (Response_Cookies r)) in
  let '(isRedirect, location) := LocationFromPage page (Req_URL req) in
  if isRedirect then
    let hasLocation := ContainsString (Hrefs (RespInfo page)) location in
    if negb hasLocation
    then set_Hrefs page (Hrefs (RespInfo page) ++ [location])
    else page
  else page.

(** [now] is [time.Now().Unix()] and [timeDur] the [time.Duration] of the
    request, in nanoseconds; [RespDuration] is
    [int(timeDur.Seconds() * 1000)]. *)
Definition PageFromResponse (c : Crawler) (now : Z) (req : http_Request)
    (res : option http_Response) (timeDur : Z) : Page :=
  let page := empty_Page in
  let page :=
    match res with
    | Some res => PageFromResponse_res c req res page
    | None => page
    end in
  let url := url_String (Req_URL req) in
  let respDuration :=
    GoTime.int_of_float64
      (GoTime.float64_mul (GoTime.Duration_Seconds timeDur) (GoTime.float64_of_int 1000)) in
  mkPage url now respDuration (CrawlerId page) (ToHash url) (Response page)
         (mkPageRequest (Req_Header req) (Req_Proto req) (Req_ContentLength req)
                        (Request_Cookies (Request page)))
         (RespInfo page) (Error page) (ResponseBody page) (RequestBody page).

(** *** The page fetcher *)

(** The test of [GetPage] on a non-nil [err]: it is not a [url.Error], or
    the error it wraps is not [ErrorCheckRedirect]. *)
Definition is_transport_failure (err : error) : bool :=
  match err with
  | url_Error _ _ ErrorCheckRedirect => false
  | _ => true
  end.

(** The loop [req.Header.Set(k, v[0])] reads [v[0]] of every configured
    header: an empty value list is an index out of range.  The configured
    keys are taken to be in canonical form, as [NewCrawler] sets them. *)
Definition GetPage (c : Crawler) (w : World) (crawlUrl method : string)
    : Exit (option Page * option error) :=
  match http_NewRequest method crawlUrl with
  | Err err => Return (None, Some err)
  | Ok req =>
      if bool_decide (map_Forall (fun _ v => v ≠ []) (Crawler_Header c)) then
        let req := mkRequest (Req_Method req) (Req_URL req)
                             ((take 1 <$> Crawler_Header c) ∪ Req_Header req)
                             (Req_Proto req) (Req_ContentLength req) in
        let '(res, err) := Client_Do w req in
        let page := PageFromResponse c (time_Unix w) req res (request_duration w) in
        match err with
        | Some err =>
            if is_transport_failure err
            then Return (Some (set_Error page (error_Error err)), Some err)
            else Return (Some page, None)
        | None => Return (Some page, None)
        end
      else Panic
  end.

(** *** Persistence and resume *)

(** The writes of [SavePage] go to the file system, which the crawl loop
    never reads back: what is kept is how the call ends. *)
Definition SavePage (w : World) (c : Crawler) (page : option Page) : Exit unit :=
  if bool_decide (StorageFolder c = "") then Return tt
  else match page with
       | None => LogFatal
       | Some _ => if storage_ok w then Return tt else LogFatal
       end.

Definition GetPageInfoFiles (fs : FS) (folder : string) : result (list string) :=
  match ReadDir fs folder with
  | Err err => Err err
  | Ok files =>
      Ok (fold_left (fun paths name =>
                       if negb (GoStrings.HasSuffix name ".httpi") then paths
                       else (paths ++ [path_Join folder name])%list) files [])
  end.

Definition LoadPage (fs : FS) (filepath : string) (withContent : bool) : result Page :=
  match ReadFile fs filepath with
  | Err err => Err err
  | Ok content =>
      match json_Unmarshal content with
      | Err err => Err err
      | Ok page =>
          if withContent then
            let respbinfile := GoStrings.Replace1 filepath ".httpi" ".respbin" in
            let respbinContent :=
              match ReadFile fs respbinfile with Ok c => c | Err _ => "" end in
            Ok (mkPage (URL page) (CrawlTime page) (RespDuration page) (CrawlerId page)
                       (Uid page) (Response page) (Request page) (RespInfo page)
                       (Error page) respbinContent (RequestBody page))
          else Ok page
      end
  end.

(** The body of the loop of [LoadPages] for a record that loaded. *)
Definition LoadPages_record (p : Page) (cw : Crawler) : Crawler :=
  let url := URL p in
  let url := match BeforeCrawlFn cw with
             | Some fn => fst (fn url)
             | None => url
             end in
  let links := Hrefs (RespInfo p) in
  let links := match AfterCrawlFn cw with
               | Some fn => fst (fn p None)
               | None => links
               end in
  let cw := AddCrawledLinks [url] cw in
  AddAllLinks links cw.

Fixpoint LoadPages_loop (fs : FS) (files : list string) (readCount : Z)
    (cw : Crawler) : Z * option error * Crawler :=
  match files with
  | [] => (readCount, None, cw)
  | file :: rest =>
      match LoadPage fs file false with
      | Err err => (readCount, Some err, cw)
      | Ok p => LoadPages_loop fs rest (readCount + 1) (LoadPages_record p cw)
      end
  end.

Definition LoadPages (fs : FS) (folderpath : string) (cw : Crawler)
    : Exit (Z * option error) * Crawler :=
  if bool_decide (folderpath = "") then (Return (0%Z, None), cw)
  else match GetPageInfoFiles fs folderpath with
       | Err _ => (LogFatal, cw)
       | Ok files =>
           let '(readCount, err, cw) := LoadPages_loop fs files 0 cw in
           (Return (readCount, err), cw)
       end.

(** *** The crawl loop *)

(** The last step of an iteration: which discovered links enter the
    frontier. *)
Definition FetchSites_expand (startUrl : option url_URL) (userLinks : list string)
    (cw : Crawler) : Crawler :=
  match startUrl with
  | Some su =>
      if ScopeToDomain cw
      then AddLinksMatchingDomain userLinks su cw
      else AddAllLinks userLinks cw
  | None => AddAllLinks userLinks cw
  end.

(** One pass through the body of the [for] loop.  [inl] goes round again,
    with the crawler and [crawlStartUrlFirst]; [inr] leaves the loop.
    A nil page from [GetPage] is dereferenced by the log line that
    follows the call.  [time.Sleep] is left out. *)
Definition FetchSites_body (w : World) (startUrl : option url_URL)
    (crawlStartUrlFirst : bool) (cw : Crawler)
    : (Crawler * bool) + (Exit (option error) * Crawler) :=
  let '(urlStr, found, crawlStartUrlFirst) :=
    match startUrl with
    | Some su =>
        if negb crawlStartUrlFirst
        then let '(u, f) := GetNextLink (range w) cw in (u, f, crawlStartUrlFirst)
        else (url_String su, true, false)
    | None =>
        let '(u, f) := GetNextLink (range w) cw in (u, f, crawlStartUrlFirst)
    end in
  if negb found then inr (Return None, cw)
  else
    let before := match BeforeCrawlFn cw with
                  | Some fn => fn urlStr
                  | None => (urlStr, None)
                  end in
    match before with
    | (_, Some err) => inr (Return (Some err), cw)
    | (urlStr, None) =>
        let cw := Links_store urlStr true cw in
        match url_Parse urlStr with
        | Err _ => inl (cw, crawlStartUrlFirst)
        | Ok nextUrl =>
            if negb (IsValidScheme cw nextUrl) then inl (cw, crawlStartUrlFirst)
            else
              match GetPage cw w urlStr "GET" with
              | Panic => inr (Panic, cw)
              | LogFatal => inr (LogFatal, cw)
              | Return (None, _) => inr (Panic, cw)
              | Return (Some page, err) =>
                  let userLinks := Hrefs (RespInfo page) in
                  let userLinks := match AfterCrawlFn cw with
                                   | Some fn => fst (fn page err)
                                   | None => userLinks
                                   end in
                  match SavePage w cw (Some page) with
                  | Return _ =>
                      let cw := set_PageCount cw ((PageCount cw + 1) mod 2 ^ 64) in
                      inl (FetchSites_expand startUrl userLinks cw, crawlStartUrlFirst)
                  | _ => inr (LogFatal, cw)
                  end
              end
        end
    end.

(** The loop, for at most [fuel] iterations; iteration [i] runs in the
    world [env i].  [None] is: still running. *)
Fixpoint FetchSites_loop (fuel : nat) (env : nat → World) (i : nat)
    (startUrl : option url_URL) (crawlStartUrlFirst : bool) (cw : Crawler)
    : option (Exit (option error) * Crawler) :=
  match fuel with
  | O => None
  | S fuel' =>
      match FetchSites_body (env i) startUrl crawlStartUrlFirst cw with
      | inl (cw', first') => FetchSites_loop fuel' env (S i) startUrl first' cw'
      | inr r => Some r
      end
  end.

Definition FetchSites (fuel : nat) (env : nat → World) (startUrl : option url_URL)
    (cw : Crawler) : option (Exit (option error) * Crawler) :=
  let '(cw, crawlStartUrlFirst) :=
    match startUrl with
    | Some su =>
        let cw := AddAllLinks [url_String su] cw in
        if negb (IsCrawled cw (url_String su)) then (cw, true) else (cw, false)
    | None => (cw, false)
    end in
  FetchSites_loop fuel env 0 startUrl crawlStartUrlFirst cw.

End Crawlbase.

(** ** Word lists and the DNS scanner *)

Definition SplitByLines (text : string) : list string :=
  let lines := GoStrings.Split text "010"%char in
  fold_left (fun cleanLines k =>
               let line := GoStrings.Trim k (String "010"%char (String "013"%char "")) in
               if bool_decide (GoStrings.TrimSpace line = "") then cleanLines
               else (cleanLines ++ [line])%list) lines [].

Definition ReadWordlist (fs : FS) (filePath : string) : result (list string) :=
  match ReadFile fs filePath with
  | Err err => Err err
  | Ok data => Ok (SplitByLines data)
  end.

(** The host [ScanDNS] asks for, for one subdomain. *)
Definition ScanDNS_host (name subdomain : string) : string :=
  let interpolate := GoStrings.Contains name "{w}" in
  let host :=
    if interpolate
    then GoStrings.Replace1 (GoStrings.TrimSpace name) "{w}" subdomain
    else subdomain ++ "." ++ GoStrings.TrimSpace name in
  GoStrings.TrimSpace host.

(** The configuration of the resolver ([dns.ClientConfig]) and the scanner
    that points to it; the pointer is nil until [LoadConfigFromFile] has
    set it. *)
Record dns_ClientConfig := mkClientConfig {
  Servers : list string;
  Port : string }.

Record DNSScanner := mkDNSScanner { config : option dns_ClientConfig }.

(** The [dns] and [net] packages as the scanner uses them: [dns.Fqdn],
    [net.JoinHostPort], and the exchange with a name server, which yields
    the answers of the reply, each printed by [String()], or an error. *)
Record DNSWorld := mkDNSWorld {
  dns_Fqdn : string → string;
  net_JoinHostPort : string → string → string;
  dns_Exchange : string → Z → string → result (list string) }.

(** [ds.config.Servers[0]] is evaluated before the exchange: a nil
    configuration or an empty server list is a panic. *)
Definition ResolveDNS (ds : DNSScanner) (net : DNSWorld) (name : string) (dnsType : Z)
    : Exit (list string * option error) :=
  match config ds with
  | None => Panic
  | Some cfg =>
      match Servers cfg with
      | [] => Panic
      | server :: _ =>
          match dns_Exchange net (dns_Fqdn net name) dnsType
                  (net_JoinHostPort net server (Port cfg)) with
          | Err err => Return ([], Some err)
          | Ok answers => Return (answers, None)
          end
      end
  end.

(** The error of a resolution is dropped and its answers are stored under
    the subdomain, a nil slice when it failed. *)
Definition ScanDNS (ds : DNSScanner) (net : DNSWorld) (subdomains : list string)
    (name : string) (dnsType : Z) : Exit (gmap string (list string)) :=
  fold_left (fun dnsResult subdomain =>
               match dnsResult with
               | Return dnsResult =>
                   match ResolveDNS ds net (ScanDNS_host name subdomain) dnsType with
                   | Return (answers, _) => Return (<[subdomain := answers]> dnsResult)
                   | LogFatal => LogFatal
                   | Panic => Panic
                   end
               | stopped => stopped
               end) subdomains (Return ∅).

(** ** A reference instance of the libraries

    Enough of [net/url], [net/http], the HTML parser and the JSON decoder
    to run the crawler on the inputs of the examples below: URLs of the
    shape [scheme://host/path?query#fragment] and references to them
    (no user info, no percent-escapes, no dot segments, no control bytes),
    bodies without markup, and the records [{}] and the empty file.  The
    theorems hold for every instance of [Lib]; this one serves to evaluate
    them. *)

Module Sample.

(** [strings.Cut(s, c)] *)
Fixpoint Cut (s : string) (c : ascii) : string * string * bool :=
  match s with
  | EmptyString => (EmptyString, EmptyString, false)
  | String a s' =>
      if decide (a = c) then (EmptyString, s', true)
      else let '(before, after, found) := Cut s' c in
           if found then (String a before, after, true)
           else (String a s', EmptyString, false)
  end.

Definition isLetter (c : ascii) : bool :=
  let n := nat_of_ascii c in
  ((97 <=? n)%nat && (n <=? 122)%nat) || ((65 <=? n)%nat && (n <=? 90)%nat).

Definition isSchemeSign (c : ascii) : bool :=
  let n := nat_of_ascii c in
  ((48 <=? n)%nat && (n <=? 57)%nat) || (n =? 43)%nat || (n =? 45)%nat || (n =? 46)%nat.

(** [getScheme]: [Err] for a colon at index 0, [Ok (scheme, rest)]
    otherwise, with an empty scheme when there is none. *)
Fixpoint getScheme_at (first : bool) (rawURL : string) : result (option (string * string)) :=
  match rawURL with
  | EmptyString => Ok None
  | String c rest =>
      let continue :=
        match getScheme_at false rest with
        | Ok (Some (scheme, path)) => Ok (Some (String c scheme, path))
        | r => r
        end in
      if isLetter c then continue
      else if isSchemeSign c then (if first then Ok None else continue)
      else if decide (c = ":"%char)
           then (if first then Err (errorString "missing protocol scheme")
                 else Ok (Some (EmptyString, rest)))
           else Ok None
  end.

Definition getScheme (rawURL : string) : result (string * string) :=
  match getScheme_at true rawURL with
  | Err e => Err e
  | Ok None => Ok ("", rawURL)
  | Ok (Some r) => Ok r
  end.

Definition Parse (rawURL : string) : result url_URL :=
  let '(u, frag, _) := Cut rawURL "#"%char in
  match getScheme u with
  | Err e => Err (url_Error "parse" u e)
  | Ok (scheme, rest) =>
      let '(rest, query, _) := Cut rest "?"%char in
      if negb (String.prefix "/" rest) && negb (bool_decide (scheme = ""))
      then Ok (mkURL scheme rest "" "" query frag)
      else if negb (String.prefix "/" rest)
              && (let '(segment, _, _) := Cut rest "/"%char in
                  snd (Cut segment ":"%char))
      then Err (url_Error "parse" u
                  (errorString "first path segment in URL cannot contain colon"))
      else if String.prefix "//" rest then
        let authority := substring 2 (String.length rest - 2) rest in
        let '(host, path, found) := Cut authority "/"%char in
        Ok (mkURL scheme "" host (if found then String "/"%char path else "") query frag)
      else Ok (mkURL scheme "" "" rest query frag)
  end.

Definition String_ (u : url_URL) : string :=
  (if bool_decide (Scheme u = "") then "" else Scheme u ++ ":")
  ++ (if bool_decide (Opaque u = "") then
        (if negb (bool_decide (Scheme u = "")) || negb (bool_decide (Host u = ""))
         then (if negb (bool_decide (Host u = "")) || negb (bool_decide (Path u = ""))
               then "//" else "") ++ Host u
         else "")
        ++ (if negb (bool_decide (Path u = "")) && negb (String.prefix "/" (Path u))
               && negb (bool_decide (Host u = ""))
            then "/" else "")
        ++ Path u
      else Opaque u)
  ++ (if bool_decide (RawQuery u = "") then "" else "?" ++ RawQuery u)
  ++ (if bool_decide (Fragment u = "") then "" else "#" ++ Fragment u).

(** [base[:strings.LastIndex(base, "/")+1]] *)
Fixpoint upToLastSlash (base : string) : string :=
  match base with
  | EmptyString => EmptyString
  | String c base' =>
      match upToLastSlash base' with
      | EmptyString => if decide (c = "/"%char) then "/" else ""
      | d => String c d
      end
  end.

Definition resolvePath (base ref : string) : string :=
  let full :=
    if bool_decide (ref = "") then base
    else if negb (String.prefix "/" ref) then upToLastSlash base ++ ref
    else ref in
  if bool_decide (full = "") then ""
  else if String.prefix "/" full then full else "/" ++ full.

Definition ResolveReference (u ref : url_URL) : url_URL :=
  let scheme := if bool_decide (Scheme ref = "") then Scheme u else Scheme ref in
  if negb (bool_decide (Scheme ref = "")) || negb (bool_decide (Host ref = "")) then
    mkURL scheme (Opaque ref) (Host ref) (resolvePath (Path ref) "")
          (RawQuery ref) (Fragment ref)
  else if negb (bool_decide (Opaque ref = "")) then
    mkURL scheme (Opaque ref) "" "" (RawQuery ref) (Fragment ref)
  else
    let inherit := bool_decide (Path ref = "") && bool_decide (RawQuery ref = "") in
    let query := if inherit then RawQuery u else RawQuery ref in
    let frag := if inherit && bool_decide (Fragment ref = "")
                then Fragment u else Fragment ref in
    if bool_decide (Path ref = "") && negb (bool_decide (Opaque u = "")) then
      mkURL scheme (Opaque u) "" "" query frag
    else
      mkURL scheme "" (Host u) (resolvePath (Path u) (Path ref)) query frag.

Fixpoint allLetters (s : string) : bool :=
  match s with
  | EmptyString => true
  | String c s' => isLetter c && allLetters s'
  end.

Definition NewRequest (method url : string) : result http_Request :=
  let method := if bool_decide (method = "") then "GET" else method in
  if negb (allLetters method)
  then Err (errorString ("net/http: invalid method " ++ method))
  else match Parse url with
       | Err e => Err e
       | Ok u => Ok (mkRequest method u ∅ "HTTP/1.1" 0)
       end.

(** The tree of a body without markup: the text, in [body]. *)
Definition NewDocumentFromReader (data : string) : result Node :=
  if snd (Cut data "<"%char)
  then Err (errorString "markup is outside the fragment of this instance")
  else Ok (Element "" []
             [Element "html" []
                [Element "head" [] [];
                 Element "body" [] (if bool_decide (data = "") then [] else [TextNode data])]]).

Definition Unmarshal (content : string) : result Page :=
  if bool_decide (content = "{}") then Ok empty_Page
  else if bool_decide (content = "") then Err (errorString "unexpected end of JSON input")
  else Err (errorString "record outside the fragment of this instance").

Definition Join (folder name : string) : string := folder ++ "/" ++ name.

(** [Uid] is read by no function of the crawler: the digest is a
    stand-in. *)
Definition digest (message : string) : string := message.

(** [strconv.Quote] on a string of ASCII bytes: the double quote and the
    backslash are escaped, the control characters are written as [\a],
    [\b], [\f], [\n], [\r], [\t], [\v] or [\x] and two hexadecimal
    digits, and the string is put in double quotes. *)
Definition hex_digit (n : nat) : ascii :=
  match get n "0123456789abcdef" with
  | Some c => c
  | None => "0"%char
  end.

Definition Quote_byte (c : ascii) : string :=
  let n := nat_of_ascii c in
  let escaped (e : ascii) := String "\"%char (String e "") in
  if (n =? 34)%nat then escaped c
  else if (n =? 92)%nat then escaped c
  else if (n =? 7)%nat then escaped "a"%char
  else if (n =? 8)%nat then escaped "b"%char
  else if (n =? 12)%nat then escaped "f"%char
  else if (n =? 10)%nat then escaped "n"%char
  else if (n =? 13)%nat then escaped "r"%char
  else if (n =? 9)%nat then escaped "t"%char
  else if (n =? 11)%nat then escaped "v"%char
  else if ((32 <=? n)%nat && (n <=? 126)%nat)%bool then String c ""
  else String "\"%char (String "x"%char
         (String (hex_digit (n / 16)) (String (hex_digit (n mod 16)) ""))).

Fixpoint Quote_bytes (s : string) : string :=
  match s with
  | EmptyString => EmptyString
  | String c s' => Quote_byte c ++ Quote_bytes s'
  end.

Definition Quote (s : string) : string :=
  String "034"%char (Quote_bytes s ++ String "034"%char "").

Definition lib : Lib := {|
  url_Parse := Parse;
  url_ResolveReference := ResolveReference;
  url_String := String_;
  http_NewRequest := NewRequest;
  goquery_NewDocumentFromReader := NewDocumentFromReader;
  json_Unmarshal := Unmarshal;
  path_Join := Join;
  sha1_hex := digest;
  strconv_Quote := Quote |}.

(** A [range] that runs in the order of [map_to_list]. *)
Definition in_order : RangeOrder :=
  mkRangeOrder map_to_list (fun m => reflexivity (map_to_list m)).

End Sample.

(** ** Vocabulary of the statements *)

(** The flag a key has after [AddAllLinks]: the one it had, or [false]
    for a key that is new. *)
Definition discovered (links : list string) (m : gmap string bool) (k : string)
    : option bool :=
  match m !! k with
  | Some v => Some v
  | None => if bool_decide (k ∈ links) then Some false else None
  end.

(** The registrable domain in the words of the specification: the last two
    dot-separated labels of the host, or the whole host if it has fewer. *)
Definition registrable_domain (host : string) : string :=
  let labels := GoStrings.Split host "."%char in
  if decide (length labels < 2) then host
  else GoStrings.Join (drop (length labels - 2) labels) ".".

(** A key is in the scope of a URL when it parses and the registrable
    domain of its host is that of the URL's host. *)
Definition in_scope `{L : Lib} (scope : url_URL) (k : string) : bool :=
  match url_Parse k with
  | Ok p => bool_decide (registrable_domain (Host p) = registrable_domain (Host scope))
  | Err _ => false
  end.

(** What one pass of the loop of [RemoveLinksNotSameHost] comes to. *)
Definition prune_step `{L : Lib} (baseUrl : url_URL) (cw : Crawler)
    (kv : string * bool) : Crawler :=
  if in_scope baseUrl (fst kv) then cw else Links_delete (fst kv) cw.

(** The resources of a list that carry a given tag, in order. *)
Definition with_tag (tag : string) (rs : list Ressource) : list Ressource :=
  List.filter (fun r => bool_decide (Ressource_Tag r = tag)) rs.

(** Whether an element has an attribute of that name. *)
Definition has_attr (name : string) (s : Node) : bool :=
  match Attr s name with
  | Some _ => true
  | None => false
  end.

(** A document whose body is the given nodes. *)
Definition html_body (nodes : list Node) : Node :=
  Element "" [] [Element "html" [] [Element "head" [] []; Element "body" [] nodes]].

(** The resource each closure of [GetRessources] records for an element
    it does not skip. *)
Definition link_ressource `{L : Lib} (baseUrl : url_URL) (s : Node) : Ressource :=
  mkRessource (match Attr s "href" with Some href => ToAbsUrl baseUrl href | None => "" end)
              (attr_or_empty s "type") (attr_or_empty s "rel") "link".

Definition img_ressource `{L : Lib} (baseUrl : url_URL) (s : Node) : Ressource :=
  mkRessource (match Attr s "src" with Some href => ToAbsUrl baseUrl href | None => "" end)
              "" "" "img".

Definition src_ressource `{L : Lib} (tag : string) (baseUrl : url_URL) (s : Node) : Ressource :=
  mkRessource (ToAbsUrl baseUrl (attr_or_empty s "src")) (attr_or_empty s "type") "" tag.

(** The descriptor [GetFormUrls] records for a [form] element. *)
Definition form_descriptor `{L : Lib} (baseUrl : url_URL) (s : Node) : Form :=
  mkForm (match Attr s "action" with Some href => ToAbsUrl baseUrl href | None => "" end)
         (attr_or_empty s "method")
         (Each (Find s "input") GetFormUrls_input []).

(** A document whose body is one anchor with an [href] and a [style]. *)
Definition styled_anchor (href style : string) : Node :=
  html_body [Element "a" [("href", href); ("style", style)] []].

(** The hyperlinks of the body of a response: those [PageFromData] extracts
    if the body could be read, none otherwise. *)
Definition body_Hrefs `{L : Lib} (c : Crawler) (req : http_Request) (res : http_Response)
    : list string :=
  match Res_Body res with
  | Ok body => Hrefs (RespInfo (PageFromData body (Req_URL req) (IncludeHiddenLinks c)))
  | Err _ => []
  end.

(** The URL and the links [LoadPages] recomputes for a record: what the
    hooks return for it, or what the record holds where no hook is set. *)
Definition recomputed_url (cw : Crawler) (p : Page) : string :=
  match BeforeCrawlFn cw with
  | Some fn => fst (fn (URL p))
  | None => URL p
  end.

Definition recomputed_links (cw : Crawler) (p : Page) : list string :=
  match AfterCrawlFn cw with
  | Some fn => fst (fn p None)
  | None => Hrefs (RespInfo p)
  end.

(** The files load to the records, one by one. *)
Definition loaded `{L : Lib} (fs : FS) (files : list string) (pages : list Page) : Prop :=
  Forall2 (fun file p => LoadPage fs file false = Ok p) files pages.

(** The links an iteration of the crawl loop hands to the expansion step:
    what [AfterCrawlFn] returns, or the hyperlinks of the page where no hook
    is set. *)
Definition expansion_links (cw : Crawler) (page : Page) (err : option error)
    : list string :=
  match AfterCrawlFn cw with
  | Some fn => fst (fn page err)
  | None => Hrefs (RespInfo page)
  end.

(** A set of URLs closed under the links of its pages: when a URL of [U]
    is fetched, in whatever iteration, the links handed to the expansion
    step are in [U].  Pages of URLs outside [U] are not looked at. *)
Definition links_within `{L : Lib} (env : nat → World) (cw : Crawler)
    (U : gset string) : Prop :=
  ∀ i u page err,
    u ∈ U →
    GetPage cw (env i) u "GET" = Return (Some page, err) →
    ∀ link, link ∈ expansion_links cw page err → link ∈ U.

(** The crawler and the flag [crawlStartUrlFirst] with which [FetchSites]
    enters its loop. *)
Definition FetchSites_start `{L : Lib} (startUrl : option url_URL) (cw : Crawler)
    : Crawler * bool :=
  match startUrl with
  | Some su =>
      let cw := AddAllLinks [url_String su] cw in
      if negb (IsCrawled cw (url_String su)) then (cw, true) else (cw, false)
  | None => (cw, false)
  end.

(** The run of the crawl: the loop enters iteration [i] with the crawler
    [c] and the flag [first]. *)
Inductive crawl_at `{L : Lib} (env : nat → World) (startUrl : option url_URL)
    (cw : Crawler) : nat → Crawler → bool → Prop :=
  | crawl_at_start :
      crawl_at env startUrl cw 0 (fst (FetchSites_start startUrl cw))
               (snd (FetchSites_start startUrl cw))
  | crawl_at_next i c first c' first' :
      crawl_at env startUrl cw i c first →
      FetchSites_body (env i) startUrl first c = inl (c', first') →
      crawl_at env startUrl cw (S i) c' first'.

(** The discoverable URLs are in the finite set [U]: every URL the frontier
    holds in the course of the crawl, from the initial frontier and the
    seed on, is in [U]. *)
Definition discoverable_within `{L : Lib} (env : nat → World)
    (startUrl : option url_URL) (cw : Crawler) (U : gset string) : Prop :=
  ∀ i c first, crawl_at env startUrl cw i c first → dom (Links c) ⊆ U.

(** The pre-fetch hook, where set, hands back the URL it is given whenever
    it does not fail. *)
Definition hook_keeps_url (cw : Crawler) : Prop :=
  ∀ fn u u', BeforeCrawlFn cw = Some fn → fn u = (u', None) → u' = u.

(** The URLs of [U] the frontier does not hold as visited. *)
Definition not_visited (U : gset string) (m : gmap string bool) : gset string :=
  filter (fun k => m !! k ≠ Some true) U.

(** The crawlers the loop passes through from [cw]: only [Links] and
    [PageCount] change, and every key is in [U]. *)
Definition reachable_from (cw : Crawler) (U : gset string) (c : Crawler) : Prop :=
  ∃ m n, c = set_PageCount (set_Links cw m) n ∧ dom m ⊆ U.

(** [crawlStartUrlFirst] is only set for a seed that is in [U] and not yet
    visited. *)
Definition seed_pending `{L : Lib} (startUrl : option url_URL) (U : gset string)
    (first : bool) (c : Crawler) : Prop :=
  first = true →
  ∃ su, startUrl = Some su ∧ url_String su ∈ U
        ∧ Links c !! url_String su ≠ Some true.

(** Nothing but an exhausted frontier ends the crawl: the pre-fetch hook
    does not fail, every configured header has a value, a URL that parses
    gives a request, and the writes of [SavePage] succeed where a storage
    folder is set. *)
Definition runs_clean `{L : Lib} (env : nat → World) (cw : Crawler) : Prop :=
  (∀ fn u u' e, BeforeCrawlFn cw = Some fn → fn u ≠ (u', Some e))
  ∧ map_Forall (fun _ v => v ≠ []) (Crawler_Header cw)
  ∧ (∀ u nextUrl, url_Parse u = Ok nextUrl → ∃ req, http_NewRequest "GET" u = Ok req)
  ∧ (∀ i, StorageFolder cw = "" ∨ storage_ok (env i) = true).

(** ** Worlds and hooks of the examples *)

(** A site of one page without links: every request is answered 200 with
    an empty body, and every write succeeds. *)
Definition quiet_site : World :=
  mkWorld Sample.in_order
          (fun _ => (Some (mkResponse (Ok "") ∅ 200 "HTTP/1.1"), None))
          0 0 true.

(** A post-fetch hook for a site whose every page links to the home page
    and to one other page. *)
Definition site_menu (page : Page) (err : option error) : list string * option error :=
  (["http://ex.com/a"; "http://ex.com/"], None).

Definition set_AfterCrawlFn (cw : Crawler)
    (fn : option (Page → option error → list string * option error)) : Crawler :=
  mkCrawler (Crawler_Header cw) (IncludeHiddenLinks cw) (WaitBetweenRequests cw)
            (Links cw) (BeforeCrawlFn cw) fn (ValidSchemes cw)
            (PageCount cw) (StorageFolder cw) (ScopeToDomain cw).

(** A pre-fetch hook that normalises a URL by cutting its fragment. *)
Definition strip_fragment (u : string) : string * option error :=
  (fst (fst (Sample.Cut u "#"%char)), None).

Definition set_BeforeCrawlFn (cw : Crawler)
    (fn : option (string → string * option error)) : Crawler :=
  mkCrawler (Crawler_Header cw) (IncludeHiddenLinks cw) (WaitBetweenRequests cw)
            (Links cw) fn (AfterCrawlFn cw) (ValidSchemes cw)
            (PageCount cw) (StorageFolder cw) (ScopeToDomain cw).

(** The crawler of the example below after its first iteration: the seed
    is still unvisited, its rewritten form is visited, [n] pages are
    counted. *)
Definition stuck_crawler (n : Z) : Crawler :=
  set_PageCount
    (AddCrawledLinks ["http://ex.com/"]
       (AddAllLinks ["http://ex.com/#top"]
          (set_BeforeCrawlFn NewCrawler (Some strip_fragment))))
    n.

(** The URL the closure of [GetHrefs] records for an element, if any: the
    resolved [href] of an anchor on which it does not return early. *)
Definition recorded_href `{L : Lib} (baseUrl : url_URL) (removeInvisibles : bool)
    (s : Node) : option string :=
  match Attr s "href" with
  | None => None
  | Some href =>
      if match Attr s "style" with
         | Some style => if removeInvisibles then IsVisibleCss style else false
         | None => false
         end
      then None
      else Some (ToAbsUrl baseUrl href)
  end.

(** The request [GetPage] hands to the transport: the one [http.NewRequest]
    built, with the first value of every configured header set. *)
Definition request_sent (c : Crawler) (req : http_Request) : http_Request :=
  mkRequest (Req_Method req) (Req_URL req)
            ((take 1 <$> Crawler_Header c) ∪ Req_Header req)
            (Req_Proto req) (Req_ContentLength req).

(** A frontier that has only grown: every key is still there, and a
    visited key is still visited. *)
Definition frontier_grows (m m' : gmap string bool) : Prop :=
  ∀ k v, m !! k = Some v → ∃ v', m' !! k = Some v' ∧ (v = true → v' = true).

(** Two crawlers that differ in [Links] and [PageCount] at most. *)
Definition same_settings (cw c : Crawler) : Prop :=
  c = set_PageCount (set_Links cw (Links c)) (PageCount c).

(** The cutset of [SplitByLines]: line feed and carriage return. *)
Definition line_ends : string := String "010"%char (String "013"%char "").

(** A string that is empty or begins with a byte outside the cutset. *)
Definition head_outside (cutset s : string) : Prop :=
  match s with
  | EmptyString => True
  | String c _ => GoStrings.hasByte cutset c = false
  end.

(** The string of the bytes with the given values. *)
Fixpoint utf8 (bytes : list nat) : string :=
  match bytes with
  | [] => EmptyString
  | n :: bytes' => String (ascii_of_nat n) (utf8 bytes')
  end.

(** The white space of [unicode.IsSpace], each rune in its UTF-8 encoding:
    the six of the ASCII range, U+0085, U+00A0, U+1680, U+2000 to U+200A,
    U+2028, U+2029, U+202F, U+205F and U+3000. *)
Definition white_space : list string :=
  (utf8 <$> [[9]; [10]; [11]; [12]; [13]; [32];
             [194; 133]; [194; 160]; [225; 154; 128]])
  ++ ((fun n => utf8 [226; 128; n]) <$> seq 128 11)
  ++ (utf8 <$> [[226; 128; 168]; [226; 128; 169]; [226; 128; 175];
                [226; 129; 159]; [227; 128; 128]]).

(** A string of white space and nothing else. *)
Inductive blank : string → Prop :=
  | blank_empty : blank ""
  | blank_rune r s : r ∈ white_space → blank s → blank (r ++ s).

(** The integer [P], with the sign [s], as a binary64 number: for an
    integer of at most 53 bits the mantissa is [P] shifted to 53 bits. *)
Definition exact_float64 (s : bool) (P : positive) (f : GoTime.float64) : Prop :=
  ∃ M, f = S754_finite s M (Z.log2 (Zpos P) + 1 - 53)
       ∧ Zpos M = (Zpos P * 2 ^ (53 - (Z.log2 (Zpos P) + 1)))%Z.

(** * Properties *)

Local Open Scope nat_scope.
Local Open Scope list_scope.

(** ** The frontier *)

Section Frontier.

Implicit Types (cw : Crawler) (links : list string) (u k : string).

Lemma IsCrawled_lookup cw u :
  IsCrawled cw u = default false (Links cw !! u).
Proof.
  unfold IsCrawled. destruct (Links cw !! u) as [[]|]; reflexivity.
Qed.

Lemma IsCrawled_true cw u : IsCrawled cw u = true ↔ Links cw !! u = Some true.
Proof.
  rewrite IsCrawled_lookup. destruct (Links cw !! u) as [[]|]; simpl; split; congruence.
Qed.

Lemma AddAllLinks_cons cw u links :
  AddAllLinks (u :: links) cw = AddAllLinks links (Links_store u (IsCrawled cw u) cw).
Proof. reflexivity. Qed.

Lemma AddAllLinks_lookup links cw k :
  Links (AddAllLinks links cw) !! k = discovered links (Links cw) k.
Proof.
  revert cw. induction links as [|u links IH]; intros cw.
  - unfold discovered. simpl. destruct (Links cw !! k); reflexivity.
  - rewrite AddAllLinks_cons, IH. unfold discovered, Links_store.
    cbn [Links set_Links].
    rewrite lookup_insert, IsCrawled_lookup.
    destruct (decide (u = k)) as [->|Hne].
    + rewrite (bool_decide_eq_true_2 (k ∈ k :: links)) by apply list_elem_of_here.
      destruct (Links cw !! k); reflexivity.
    + destruct (Links cw !! k); [reflexivity|].
      apply (f_equal (fun b : bool => if b then Some false else None)).
      apply bool_decide_ext. rewrite elem_of_cons. intuition congruence.
Qed.

Lemma set_Links_twice cw (m m' : gmap string bool) :
  set_Links (set_Links cw m) m' = set_Links cw m'.
Proof. reflexivity. Qed.

(** [AddAllLinks] writes to [Links] and to nothing else. *)
Lemma AddAllLinks_frame cw links :
  AddAllLinks links cw = set_Links cw (Links (AddAllLinks links cw)).
Proof.
  revert cw. induction links as [|u links IH]; intros cw.
  - destruct cw; reflexivity.
  - rewrite AddAllLinks_cons, IH at 1. unfold Links_store.
    rewrite set_Links_twice. reflexivity.
Qed.

Lemma AddAllLinks_app cw l1 l2 :
  AddAllLinks (l1 ++ l2) cw = AddAllLinks l2 (AddAllLinks l1 cw).
Proof. unfold AddAllLinks. apply fold_left_app. Qed.

Lemma discovered_ext l1 l2 (m : gmap string bool) k :
  (k ∈ l1 ↔ k ∈ l2) → discovered l1 m k = discovered l2 m k.
Proof.
  intros H. unfold discovered. destruct (m !! k); [reflexivity|].
  rewrite (bool_decide_ext _ _ H). reflexivity.
Qed.

Lemma elem_of_concat {A} (ls : list (list A)) (x : A) :
  x ∈ concat ls ↔ ∃ l, l ∈ ls ∧ x ∈ l.
Proof.
  rewrite list_elem_of_In, in_concat. split; intros (l & Hl & Hx); exists l.
  - rewrite !list_elem_of_In. tauto.
  - rewrite !list_elem_of_In in *. tauto.
Qed.

Lemma AddAllLinks_calls (calls : list (list string)) cw :
  fold_left (fun cw l => AddAllLinks l cw) calls cw = AddAllLinks (concat calls) cw.
Proof.
  revert cw. induction calls as [|l calls IH]; intros cw; simpl.
  - reflexivity.
  - rewrite IH, AddAllLinks_app. reflexivity.
Qed.

End Frontier.

(** ** Go strings and registrable domains *)

Section Domains.

Lemma Split_nonempty s c : GoStrings.Split s c ≠ [].
Proof.
  destruct s as [|a s]; simpl; [discriminate|].
  destruct (decide (a = c)); [discriminate|].
  destruct (GoStrings.Split s c); discriminate.
Qed.

Lemma Join_cons w w' ws sep :
  GoStrings.Join (w :: w' :: ws) sep = (w ++ sep ++ GoStrings.Join (w' :: ws) sep)%string.
Proof. reflexivity. Qed.

Lemma Join_cons_char a w ws sep :
  GoStrings.Join (String a w :: ws) sep = String a (GoStrings.Join (w :: ws) sep).
Proof. destruct ws; reflexivity. Qed.

(** Joining what [Split] returns gives the string back. *)
Lemma Join_Split s c : GoStrings.Join (GoStrings.Split s c) (String c "") = s.
Proof.
  induction s as [|a s IH]; simpl; [reflexivity|].
  destruct (decide (a = c)) as [->|Hne].
  - pose proof (Split_nonempty s c) as Hs.
    destruct (GoStrings.Split s c) as [|w ws]; [congruence|].
    rewrite Join_cons, IH. reflexivity.
  - pose proof (Split_nonempty s c) as Hs.
    destruct (GoStrings.Split s c) as [|w ws]; [congruence|].
    rewrite Join_cons_char, IH. reflexivity.
Qed.

Lemma drop_last_two {A} (d : A) k (l : list A) :
  length l = S (S k) → drop k l = [nth k l d; nth (S k) l d].
Proof.
  revert l. induction k as [|k IH]; intros l Hl.
  - destruct l as [|a [|b [|? ?]]]; simpl in Hl; try discriminate. reflexivity.
  - destruct l as [|a l]; simpl in Hl; [discriminate|].
    simpl. apply IH. congruence.
Qed.

(** [GetDomain] computes the registrable domain of the specification. *)
Lemma GetDomain_registrable_domain host : GetDomain host = registrable_domain host.
Proof.
  unfold GetDomain, registrable_domain. cbv zeta.
  pose proof (Split_nonempty host ".") as Hne.
  pose proof (Join_Split host ".") as Hjoin.
  set (splitted := GoStrings.Split host ".") in *. clearbody splitted.
  destruct (decide (2 ≤ length splitted)) as [H2|H2].
  - destruct (decide (length splitted < 2)) as [Hlt|_]; [lia|].
    rewrite (drop_last_two "" (length splitted - 2)) by lia.
    replace (S (length splitted - 2)) with (length splitted - 1) by lia.
    reflexivity.
  - destruct (decide (length splitted < 2)) as [_|Hge]; [|lia].
    destruct splitted as [|w [|? ?]]; simpl in *; [congruence| |lia].
    exact Hjoin.
Qed.

Lemma IsSameDomain_registrable_domain (baseUrl testUrl : url_URL) :
  IsSameDomain baseUrl testUrl
  = bool_decide (registrable_domain (Host testUrl) = registrable_domain (Host baseUrl)).
Proof.
  unfold IsSameDomain. rewrite !GetDomain_registrable_domain.
  apply bool_decide_ext. split; congruence.
Qed.

End Domains.

(** C3.  [AddAllLinks] inserts every URL of the list that the frontier does
    not hold yet with the flag [false], leaves the flag of every URL the
    frontier holds as it is, and adds no other key.  So a URL for which
    [IsCrawled] is true stays so; and any number of calls, with lists that
    may overlap, leave the frontier that one call with a list of their
    union leaves: the same entries, hence the same key set. *)
Theorem AddAllLinks_inserts_unvisited_keeps_flags (cw : Crawler) (links : list string) :
  (∀ u v, Links cw !! u = Some v → Links (AddAllLinks links cw) !! u = Some v)
  ∧ (∀ u, Links cw !! u = None → u ∈ links →
          Links (AddAllLinks links cw) !! u = Some false)
  ∧ (∀ u, Links cw !! u = None → u ∉ links →
          Links (AddAllLinks links cw) !! u = None)
  ∧ (∀ u, IsCrawled cw u = true → IsCrawled (AddAllLinks links cw) u = true)
  ∧ (∀ (calls : list (list string)) (union : list string),
        (∀ u, u ∈ union ↔ ∃ l, l ∈ calls ∧ u ∈ l) →
        Links (fold_left (fun cw l => AddAllLinks l cw) calls cw)
          = Links (AddAllLinks union cw)
        ∧ dom (Links (fold_left (fun cw l => AddAllLinks l cw) calls cw))
          = dom (Links (AddAllLinks union cw))).
Proof.
  repeat split.
  - intros u v Hu. rewrite AddAllLinks_lookup. unfold discovered. rewrite Hu. reflexivity.
  - intros u Hu Hin. rewrite AddAllLinks_lookup. unfold discovered. rewrite Hu.
    rewrite bool_decide_eq_true_2 by assumption. reflexivity.
  - intros u Hu Hin. rewrite AddAllLinks_lookup. unfold discovered. rewrite Hu.
    rewrite bool_decide_eq_false_2 by assumption. reflexivity.
  - intros u. rewrite !IsCrawled_true. intros Hu.
    rewrite AddAllLinks_lookup. unfold discovered. rewrite Hu. reflexivity.
  - rewrite AddAllLinks_calls. apply map_eq. intros k.
    rewrite !AddAllLinks_lookup. apply discovered_ext.
    rewrite H, elem_of_concat. reflexivity.
  - rewrite AddAllLinks_calls. f_equal. apply map_eq. intros k.
    rewrite !AddAllLinks_lookup. apply discovered_ext.
    rewrite H, elem_of_concat. reflexivity.
Qed.

Lemma AddAllLinks_inserts_unvisited_keeps_flags_witness :
  let cw := AddCrawledLinks ["http://ex.com/a"] NewCrawler in
  let links := ["http://ex.com/a"; "http://ex.com/b"] in
  IsCrawled (AddAllLinks links cw) "http://ex.com/a" = true
  ∧ Links (AddAllLinks links cw) !! "http://ex.com/b" = Some false
  ∧ Links (AddAllLinks links cw) !! "http://ex.com/c" = None
  ∧ dom (Links (AddAllLinks ["http://ex.com/b"] (AddAllLinks links cw)))
    = dom (Links (AddAllLinks links cw)).
Proof.
  intros cw links.
  destruct (AddAllLinks_inserts_unvisited_keeps_flags cw links)
    as (_ & Hnew & Hnone & Hkeep & Hunion).
  split; [|split; [|split]].
  - apply Hkeep. reflexivity.
  - apply Hnew; [reflexivity|]. apply list_elem_of_In. simpl. tauto.
  - apply Hnone; [reflexivity|]. rewrite list_elem_of_In. simpl.
    intros [H|[H|[]]]; discriminate H.
  - apply (Hunion [links; ["http://ex.com/b"]] links).
    intros u. split.
    + intros Hu. exists links. split; [apply list_elem_of_here | exact Hu].
    + intros (l & Hl & Hu).
      apply elem_of_cons in Hl as [->|Hl]; [exact Hu|].
      apply list_elem_of_singleton in Hl as ->.
      apply list_elem_of_singleton in Hu as ->.
      apply list_elem_of_In. simpl. tauto.
Defined.

(** ** Domain scoping of the frontier *)

Section Scoping.
Context `{L : Lib}.

Implicit Types (cw : Crawler) (links : list string) (k u : string).

Lemma in_scope_spec (scope : url_URL) k :
  in_scope scope k = true
  ↔ ∃ p, url_Parse k = Ok p
         ∧ registrable_domain (Host p) = registrable_domain (Host scope).
Proof.
  unfold in_scope. destruct (url_Parse k) as [p|e].
  - rewrite bool_decide_eq_true. split.
    + intros Hp. exists p. split; [reflexivity | exact Hp].
    + intros (p' & Hp' & Hd). congruence.
  - split; [discriminate|]. intros (p' & Hp' & _). discriminate.
Qed.

Lemma AddLinksMatchingDomain_cons u links (startUrl : url_URL) cw :
  AddLinksMatchingDomain (u :: links) startUrl cw
  = AddLinksMatchingDomain links startUrl
      (if in_scope startUrl u then AddAllLinks [u] cw else cw).
Proof.
  unfold AddLinksMatchingDomain at 1. simpl. unfold in_scope.
  destruct (url_Parse u) as [p|e]; [|reflexivity].
  rewrite IsSameDomain_registrable_domain. reflexivity.
Qed.

(** Scoped expansion is [AddAllLinks] on the links in scope. *)
Lemma AddLinksMatchingDomain_filter links (startUrl : url_URL) cw :
  AddLinksMatchingDomain links startUrl cw
  = AddAllLinks (List.filter (in_scope startUrl) links) cw.
Proof.
  revert cw. induction links as [|u links IH]; intros cw; [reflexivity|].
  rewrite AddLinksMatchingDomain_cons, IH. simpl.
  destruct (in_scope startUrl u); reflexivity.
Qed.

Lemma Links_delete_frame k cw : Links_delete k cw = set_Links cw (delete k (Links cw)).
Proof. reflexivity. Qed.

Lemma prune_step_eq (baseUrl : url_URL) cw (kv : string * bool) :
  match url_Parse (fst kv) with
  | Err _ => Links_delete (fst kv) cw
  | Ok pUrl => if negb (IsSameDomain baseUrl pUrl) then Links_delete (fst kv) cw else cw
  end = prune_step baseUrl cw kv.
Proof.
  unfold prune_step, in_scope. destruct (url_Parse (fst kv)) as [p|e]; [|reflexivity].
  rewrite IsSameDomain_registrable_domain.
  destruct (bool_decide _); reflexivity.
Qed.

Lemma prune_fold_lookup (baseUrl : url_URL) (entries : list (string * bool)) cw k :
  Links (fold_left (prune_step baseUrl) entries cw) !! k
  = if bool_decide (k ∈ entries.*1) && negb (in_scope baseUrl k)
    then None else Links cw !! k.
Proof.
  revert cw. induction entries as [|[k' v] entries IH]; intros cw.
  - reflexivity.
  - cbn [fold_left]. rewrite IH. unfold prune_step. cbn [fst fmap list_fmap].
    destruct (decide (k' = k)) as [->|Hne].
    + rewrite (bool_decide_eq_true_2 (k ∈ k :: entries.*1)) by apply list_elem_of_here.
      destruct (in_scope baseUrl k) eqn:Hs; cbn [negb andb].
      * rewrite andb_false_r. reflexivity.
      * cbn [Links Links_delete set_Links]. rewrite lookup_delete_eq.
        destruct (bool_decide _ && true); reflexivity.
    + assert (bool_decide (k ∈ k' :: entries.*1) = bool_decide (k ∈ entries.*1)) as ->.
      { apply bool_decide_ext. rewrite elem_of_cons. intuition congruence. }
      destruct (in_scope baseUrl k'); [reflexivity|].
      cbn [Links Links_delete set_Links]. rewrite lookup_delete_ne by exact Hne.
      reflexivity.
Qed.

Lemma RemoveLinksNotSameHost_fold (order : RangeOrder) (baseUrl : url_URL) cw :
  RemoveLinksNotSameHost order baseUrl cw
  = fold_left (prune_step baseUrl) (order (Links cw)) cw.
Proof.
  unfold RemoveLinksNotSameHost.
  generalize (order (Links cw)). intros entries. revert cw.
  induction entries as [|kv entries IH]; intros cw; [reflexivity|].
  cbn [fold_left]. rewrite prune_step_eq. apply IH.
Qed.

Lemma range_keys (order : RangeOrder) (m : gmap string bool) k :
  k ∈ (order m).*1 ↔ is_Some (m !! k).
Proof.
  rewrite (range_perm order m). rewrite list_elem_of_fmap. split.
  - intros ([k' v] & -> & Hin). apply elem_of_map_to_list in Hin. eauto.
  - intros [v Hv]. exists (k, v). split; [reflexivity|].
    apply elem_of_map_to_list. exact Hv.
Qed.

(** Pruning keeps the entries in scope and no other, whatever the order
    of the [range]. *)
Lemma RemoveLinksNotSameHost_lookup (order : RangeOrder) (baseUrl : url_URL) cw k :
  Links (RemoveLinksNotSameHost order baseUrl cw) !! k
  = if in_scope baseUrl k then Links cw !! k else None.
Proof.
  rewrite RemoveLinksNotSameHost_fold, prune_fold_lookup.
  destruct (in_scope baseUrl k); cbn [negb].
  - rewrite andb_false_r. reflexivity.
  - rewrite andb_true_r. case_bool_decide as Hk; [reflexivity|].
    rewrite range_keys in Hk. destruct (Links cw !! k) eqn:E; [|reflexivity].
    exfalso. apply Hk. eauto.
Qed.

End Scoping.

(** C5.  With domain scoping enabled and a seed URL, the expansion step of
    the crawl loop is [AddLinksMatchingDomain]: it adds, with the flag
    [false], exactly the discovered links that parse to a URL whose host
    has the registrable domain of the seed's host, and leaves the entries
    the frontier holds as they are.  [GetDomain] is the registrable domain
    of the specification: the last two dot-separated labels, or the whole
    host if there are fewer.  With the seed [http://a.example.com/x], the
    links [.../y] and [http://sub.example.com/w] are added and
    [http://b.other.com/z] is not. *)
Theorem expansion_adds_links_of_seed_domain :
  (∀ (L : Lib) (cw : Crawler) (seed : url_URL) (links : list string),
      ScopeToDomain cw = true →
      let cw' := FetchSites_expand (Some seed) links cw in
      cw' = AddLinksMatchingDomain links seed cw
      ∧ (∀ u v, Links cw !! u = Some v → Links cw' !! u = Some v)
      ∧ (∀ u, Links cw !! u = None →
           (Links cw' !! u = Some false
            ↔ u ∈ links
              ∧ ∃ p, url_Parse u = Ok p
                     ∧ GetDomain (Host p) = GetDomain (Host seed))
           ∧ (Links cw' !! u = None
              ↔ ¬ (u ∈ links
                   ∧ ∃ p, url_Parse u = Ok p
                          ∧ GetDomain (Host p) = GetDomain (Host seed)))))
  ∧ (∀ host, GetDomain host = registrable_domain host)
  ∧ (let seed := mkURL "http" "" "a.example.com" "/x" "" "" in
     let cw := set_ScopeToDomain (AddAllLinks [url_String (Lib := Sample.lib) seed] NewCrawler) true in
     let links := ["http://a.example.com/y"; "http://b.other.com/z";
                   "http://sub.example.com/w"] in
     url_Parse (Lib := Sample.lib) "http://a.example.com/x" = Ok seed
     ∧ Links (FetchSites_expand (L := Sample.lib) (Some seed) links cw)
       = {[ "http://a.example.com/x" := false;
            "http://a.example.com/y" := false;
            "http://sub.example.com/w" := false ]}).
Proof.
  split; [|split].
  - intros L cw seed links Hscope cw'.
    assert (cw' = AddLinksMatchingDomain links seed cw) as Hcw'.
    { unfold cw', FetchSites_expand. rewrite Hscope. reflexivity. }
    split; [exact Hcw'|].
    assert (∀ u, (u ∈ links ∧ ∃ p, url_Parse u = Ok p
                                   ∧ GetDomain (Host p) = GetDomain (Host seed))
                 ↔ u ∈ List.filter (in_scope seed) links) as Hin.
    { intros u. split.
      - intros (Hu & p & Hp & Hd). apply list_elem_of_In, filter_In.
        split; [apply list_elem_of_In; exact Hu|].
        apply in_scope_spec. exists p. rewrite <- !GetDomain_registrable_domain. tauto.
      - intros Hf. apply list_elem_of_In, filter_In in Hf as [Hu Hs].
        split; [apply list_elem_of_In; exact Hu|].
        apply in_scope_spec in Hs as (p & Hp & Hd). exists p.
        rewrite !GetDomain_registrable_domain. tauto. }
    rewrite Hcw', AddLinksMatchingDomain_filter.
    split.
    + intros u v Hu. rewrite AddAllLinks_lookup. unfold discovered. rewrite Hu. reflexivity.
    + intros u Hu. rewrite Hin, AddAllLinks_lookup. unfold discovered. rewrite Hu.
      case_bool_decide as Hf; split; split; try congruence; try tauto.
  - exact GetDomain_registrable_domain.
  - split; [reflexivity|]. vm_compute. reflexivity.
Qed.

Lemma expansion_adds_links_of_seed_domain_witness :
  let seed := mkURL "http" "" "a.example.com" "/x" "" "" in
  let cw := set_ScopeToDomain (AddAllLinks ["http://a.example.com/x"] NewCrawler) true in
  let links := ["http://a.example.com/y"; "http://b.other.com/z";
                "http://sub.example.com/w"] in
  FetchSites_expand (L := Sample.lib) (Some seed) links cw
  = AddLinksMatchingDomain (L := Sample.lib) links seed cw.
Proof.
  intros seed cw links.
  apply (proj1 expansion_adds_links_of_seed_domain Sample.lib cw seed links).
  reflexivity.
Defined.

(** C6, as the code has it.  [RemoveLinksNotSameHost] removes exactly the
    entries whose key does not parse as a URL or parses to a URL whose
    host has a registrable domain other than that of the scope URL's host;
    every entry whose key parses with an equal registrable domain stays,
    with its flag.  The domains are compared as strings, so
    [EXAMPLE.com] is not [example.com].  This holds for every order in
    which the [range] runs. *)
Theorem RemoveLinksNotSameHost_keeps_scope :
  (∀ (L : Lib) (order : RangeOrder) (baseUrl : url_URL) (cw : Crawler) (k : string),
      let cw' := RemoveLinksNotSameHost order baseUrl cw in
      (∀ v, Links cw !! k = Some v →
         (Links cw' !! k = None
          ↔ (∃ e, url_Parse k = Err e)
            ∨ (∃ p, url_Parse k = Ok p
                    ∧ GetDomain (Host p) ≠ GetDomain (Host baseUrl)))
         ∧ (Links cw' !! k = Some v
            ↔ ∃ p, url_Parse k = Ok p
                   ∧ GetDomain (Host p) = GetDomain (Host baseUrl)))
      ∧ (Links cw !! k = None → Links cw' !! k = None))
  ∧ (∀ host, GetDomain host = registrable_domain host)
  ∧ (let scope := mkURL "http" "" "example.com" "/" "" "" in
     let cw := AddCrawledLinks ["http://a.example.com/seen"]
                 (AddAllLinks ["http://EXAMPLE.com/a"; "://bad"; "http://example.com/b"]
                    NewCrawler) in
     Links (RemoveLinksNotSameHost (L := Sample.lib) Sample.in_order scope cw)
     = {[ "http://a.example.com/seen" := true; "http://example.com/b" := false ]}).
Proof.
  split; [|split].
  - intros L order baseUrl cw k cw'. unfold cw'.
    rewrite RemoveLinksNotSameHost_lookup.
    pose proof (in_scope_spec baseUrl k) as Hs.
    setoid_rewrite <- GetDomain_registrable_domain in Hs.
    split.
    + intros v Hv. rewrite Hv.
      destruct (in_scope baseUrl k) eqn:E.
      * destruct (proj1 Hs eq_refl) as (p & Hp & Hd). split; split.
        -- discriminate.
        -- intros [[e He]|(p' & Hp' & Hd')]; congruence.
        -- intros _. eauto.
        -- reflexivity.
      * split; split.
        -- intros _. destruct (url_Parse k) as [p|e] eqn:Hp; [right|left; eauto].
           exists p. split; [reflexivity|]. intros Hd.
           assert (false = true) by (apply Hs; eauto). discriminate.
        -- reflexivity.
        -- discriminate.
        -- intros Hex. apply Hs in Hex. discriminate.
    + intros Hk. rewrite Hk. destruct (in_scope baseUrl k); reflexivity.
  - exact GetDomain_registrable_domain.
  - vm_compute. reflexivity.
Qed.

Lemma RemoveLinksNotSameHost_keeps_scope_witness :
  let scope := mkURL "http" "" "example.com" "/" "" "" in
  let cw := AddAllLinks ["http://EXAMPLE.com/a"; "://bad"; "http://example.com/b"] NewCrawler in
  Links (RemoveLinksNotSameHost (L := Sample.lib) Sample.in_order scope cw) !! "://bad" = None
  ∧ Links (RemoveLinksNotSameHost (L := Sample.lib) Sample.in_order scope cw)
      !! "http://example.com/b" = Some false.
Proof.
  intros scope cw.
  destruct (proj1 RemoveLinksNotSameHost_keeps_scope Sample.lib Sample.in_order scope cw
              "://bad") as [Hbad _].
  destruct (proj1 RemoveLinksNotSameHost_keeps_scope Sample.lib Sample.in_order scope cw
              "http://example.com/b") as [Hb _].
  split.
  - apply (Hbad false); [reflexivity|]. left. eexists. reflexivity.
  - apply (Hb false); [reflexivity|]. eexists. split; reflexivity.
Defined.

(** C6 as the specification states it fails on a key that does not parse: the entry
    [://bad] is in the frontier and is removed, and it has no host whose
    registrable domain differs from the scope's. *)
Lemma unparsable_key_is_pruned :
  let scope := mkURL "http" "" "example.com" "/" "" "" in
  let cw := AddAllLinks ["://bad"; "http://example.com/b"] NewCrawler in
  Links cw !! "://bad" = Some false
  ∧ Links (RemoveLinksNotSameHost (L := Sample.lib) Sample.in_order scope cw) !! "://bad"
    = None
  ∧ ¬ (∃ p, url_Parse (Lib := Sample.lib) "://bad" = Ok p
            ∧ GetDomain (Host p) ≠ GetDomain (Host scope)).
Proof.
  split; [reflexivity|]. split; [reflexivity|].
  intros (p & Hp & _). discriminate Hp.
Qed.

(** ** The HTML extractor *)

Section Extractor.
Context `{L : Lib}.

Implicit Types (s : Node) (sel : list Node) (hrefs : list string).
Implicit Types (baseUrl : url_URL) (removeInvisibles : bool).

Lemma Each_cons {A} (f : A → Node → A) s sel (acc : A) :
  Each (s :: sel) f acc = Each sel f (f acc s).
Proof. reflexivity. Qed.

Lemma contains_elem_of hrefs x : contains hrefs x = true ↔ x ∈ hrefs.
Proof.
  induction hrefs as [|a hrefs IH]; simpl.
  - rewrite elem_of_nil. split; [discriminate | tauto].
  - rewrite elem_of_cons. case_bool_decide as Ha.
    + split; [intros _; left; congruence | reflexivity].
    + rewrite IH. split; [tauto|]. intros [Hx|Hx]; [congruence | exact Hx].
Qed.

Lemma ContainsString_elem_of hrefs x : ContainsString hrefs x = true ↔ x ∈ hrefs.
Proof.
  induction hrefs as [|a hrefs IH]; simpl.
  - rewrite elem_of_nil. split; [discriminate | tauto].
  - rewrite elem_of_cons. case_bool_decide as Ha.
    + split; [intros _; left; congruence | reflexivity].
    + rewrite IH. split; [tauto|]. intros [Hx|Hx]; [congruence | exact Hx].
Qed.

(** Whether the closure of [GetHrefs] returns early on an anchor that has
    an [href]. *)
Lemma GetHrefs_each_href baseUrl removeInvisibles hrefs s href :
  Attr s "href" = Some href →
  GetHrefs_each baseUrl removeInvisibles hrefs s
  = if match Attr s "style" with
       | Some style => if removeInvisibles then IsVisibleCss style else false
       | None => false
       end
    then hrefs
    else if negb (contains hrefs (ToAbsUrl baseUrl href))
         then (hrefs ++ [ToAbsUrl baseUrl href])%list else hrefs.
Proof. intros H. unfold GetHrefs_each. rewrite H. reflexivity. Qed.

Lemma GetHrefs_each_mono baseUrl removeInvisibles hrefs s x :
  x ∈ hrefs → x ∈ GetHrefs_each baseUrl removeInvisibles hrefs s.
Proof.
  intros Hx. unfold GetHrefs_each.
  destruct (Attr s "href"); [|exact Hx].
  destruct (match Attr s "style" with Some _ => _ | None => _ end); [exact Hx|].
  destruct (negb _); [|exact Hx]. apply elem_of_app. left. exact Hx.
Qed.

Lemma Each_GetHrefs_mono baseUrl removeInvisibles sel hrefs x :
  x ∈ hrefs → x ∈ Each sel (GetHrefs_each baseUrl removeInvisibles) hrefs.
Proof.
  revert hrefs. induction sel as [|s sel IH]; intros hrefs Hx; [exact Hx|].
  rewrite Each_cons. apply IH, GetHrefs_each_mono, Hx.
Qed.

Lemma GetHrefs_each_adds baseUrl removeInvisibles hrefs s href :
  Attr s "href" = Some href →
  match Attr s "style" with
  | Some style => if removeInvisibles then IsVisibleCss style else false
  | None => false
  end = false →
  ToAbsUrl baseUrl href ∈ GetHrefs_each baseUrl removeInvisibles hrefs s.
Proof.
  intros Hh Hs. rewrite (GetHrefs_each_href _ _ _ _ _ Hh), Hs.
  destruct (contains hrefs (ToAbsUrl baseUrl href)) eqn:Hc; cbn [negb].
  - apply contains_elem_of. exact Hc.
  - apply elem_of_app. right. apply list_elem_of_here.
Qed.

(** An anchor of the selection that has an [href] and on which the
    closure does not return early has its resolved URL in the result. *)
Lemma Each_GetHrefs_adds baseUrl removeInvisibles sel hrefs s href :
  s ∈ sel →
  Attr s "href" = Some href →
  match Attr s "style" with
  | Some style => if removeInvisibles then IsVisibleCss style else false
  | None => false
  end = false →
  ToAbsUrl baseUrl href ∈ Each sel (GetHrefs_each baseUrl removeInvisibles) hrefs.
Proof.
  revert hrefs. induction sel as [|s' sel IH]; intros hrefs Hin Hh Hs.
  - apply elem_of_nil in Hin. destruct Hin.
  - rewrite Each_cons. apply elem_of_cons in Hin as [<-|Hin].
    + apply Each_GetHrefs_mono. apply GetHrefs_each_adds; assumption.
    + apply IH; assumption.
Qed.

(** A closure that appends what [g] returns for each node. *)
Lemma Each_append {A} (g : Node → list A) sel (acc : list A) :
  Each sel (fun acc s => (acc ++ g s)%list) acc = (acc ++ flat_map g sel)%list.
Proof.
  revert acc. induction sel as [|s sel IH]; intros acc.
  - simpl. rewrite app_nil_r. reflexivity.
  - rewrite Each_cons, IH. simpl. rewrite <- app_assoc. reflexivity.
Qed.

Lemma Each_ext {A} (f g : A → Node → A) sel (acc : A) :
  (∀ a s, f a s = g a s) → Each sel f acc = Each sel g acc.
Proof.
  intros H. revert acc. induction sel as [|s sel IH]; intros acc; [reflexivity|].
  rewrite !Each_cons, H. apply IH.
Qed.

End Extractor.

Section Resources.
Context `{L : Lib}.

Implicit Types (s : Node) (sel : list Node) (baseUrl : url_URL).

Lemma with_tag_app tag (rs1 rs2 : list Ressource) :
  with_tag tag (rs1 ++ rs2) = with_tag tag rs1 ++ with_tag tag rs2.
Proof. apply List.filter_app. Qed.

Lemma with_tag_all tag (rs : list Ressource) :
  (∀ r, r ∈ rs → Ressource_Tag r = tag) → with_tag tag rs = rs.
Proof.
  induction rs as [|r rs IH]; intros H; [reflexivity|].
  unfold with_tag in *. simpl.
  rewrite bool_decide_eq_true_2 by (apply H, list_elem_of_here).
  rewrite IH; [reflexivity|]. intros r' Hr'. apply H, list_elem_of_further, Hr'.
Qed.

Lemma with_tag_none tag tag' (rs : list Ressource) :
  tag' ≠ tag → (∀ r, r ∈ rs → Ressource_Tag r = tag') → with_tag tag rs = [].
Proof.
  intros Hne. induction rs as [|r rs IH]; intros H; [reflexivity|].
  unfold with_tag in *. simpl.
  assert (Ressource_Tag r ≠ tag) as Hr.
  { rewrite (H r) by apply list_elem_of_here. exact Hne. }
  rewrite (bool_decide_eq_false_2 _ Hr).
  apply IH. intros r' Hr'. apply H, list_elem_of_further, Hr'.
Qed.

Lemma Each_map {A} (f : Node → A) sel (acc : list A) :
  Each sel (fun acc s => acc ++ [f s]) acc = acc ++ (f <$> sel).
Proof.
  rewrite (Each_append (fun s => [f s])). apply (f_equal (app acc)).
  induction sel as [|s sel IH]; simpl; [reflexivity|]. rewrite IH. reflexivity.
Qed.

Lemma Each_src (tag : string) baseUrl sel (acc : list Ressource) :
  Each sel (fun acc s =>
              match Attr s "src" with
              | Some href =>
                  acc ++ [mkRessource (ToAbsUrl baseUrl href) (attr_or_empty s "type") "" tag]
              | None => acc
              end) acc
  = acc ++ (src_ressource tag baseUrl <$> List.filter (has_attr "src") sel).
Proof.
  revert acc. induction sel as [|s sel IH]; intros acc.
  - simpl. rewrite app_nil_r. reflexivity.
  - rewrite Each_cons, IH. cbn [List.filter].
    destruct (Attr s "src") as [href|] eqn:E.
    + assert (has_attr "src" s = true) as -> by (unfold has_attr; rewrite E; reflexivity).
      rewrite fmap_cons, <- app_assoc.
      assert (src_ressource tag baseUrl s
              = mkRessource (ToAbsUrl baseUrl href) (attr_or_empty s "type") "" tag) as ->.
      { unfold src_ressource. unfold attr_or_empty at 1. rewrite E. reflexivity. }
      reflexivity.
    + assert (has_attr "src" s = false) as -> by (unfold has_attr; rewrite E; reflexivity).
      reflexivity.
Qed.

(** [GetRessources] as four lists, one for each tag. *)
Lemma GetRessources_eq doc baseUrl :
  GetRessources doc baseUrl
  = (link_ressource baseUrl <$> Find doc "link")
    ++ (img_ressource baseUrl <$> Find doc "img")
    ++ (src_ressource "script" baseUrl <$> List.filter (has_attr "src") (Find doc "script"))
    ++ (src_ressource "style" baseUrl <$> List.filter (has_attr "src") (Find doc "style")).
Proof.
  unfold GetRessources. cbv zeta.
  change (GetRessources_link baseUrl)
    with (fun acc s => acc ++ [link_ressource baseUrl s]).
  change (GetRessources_img baseUrl)
    with (fun acc s => acc ++ [img_ressource baseUrl s]).
  rewrite !Each_map.
  unfold GetRessources_script, GetRessources_style.
  rewrite (Each_src "script"), (Each_src "style").
  simpl. rewrite <- !app_assoc. reflexivity.
Qed.

Lemma fmap_tag (f : Node → Ressource) (tag : string) sel :
  (∀ s, Ressource_Tag (f s) = tag) →
  ∀ r, r ∈ f <$> sel → Ressource_Tag r = tag.
Proof. intros H r Hr. apply list_elem_of_fmap in Hr as (s & -> & _). apply H. Qed.

End Resources.

(** C2, as the code has it.  [GetRessources] records one resource for every
    [link] element and one for every [img] element, with an empty [Url]
    when the [href] (for [link]) or the [src] (for [img]) is absent; it
    records a resource for a [script] or a [style] element only when the
    element has a [src].  No other resource is recorded. *)
Theorem GetRessources_records (L : Lib) (doc : Node) (baseUrl : url_URL) :
  let rs := GetRessources doc baseUrl in
  with_tag "link" rs
  = (fun s => mkRessource
                (match Attr s "href" with Some href => ToAbsUrl baseUrl href | None => "" end)
                (attr_or_empty s "type") (attr_or_empty s "rel") "link")
      <$> Find doc "link"
  ∧ with_tag "img" rs
    = (fun s => mkRessource
                  (match Attr s "src" with Some href => ToAbsUrl baseUrl href | None => "" end)
                  "" "" "img")
        <$> Find doc "img"
  ∧ with_tag "script" rs
    = (fun s => mkRessource (ToAbsUrl baseUrl (attr_or_empty s "src"))
                            (attr_or_empty s "type") "" "script")
        <$> List.filter (has_attr "src") (Find doc "script")
  ∧ with_tag "style" rs
    = (fun s => mkRessource (ToAbsUrl baseUrl (attr_or_empty s "src"))
                            (attr_or_empty s "type") "" "style")
        <$> List.filter (has_attr "src") (Find doc "style")
  ∧ length rs
    = length (Find doc "link") + length (Find doc "img")
      + length (List.filter (has_attr "src") (Find doc "script"))
      + length (List.filter (has_attr "src") (Find doc "style")).
Proof.
  intros rs. unfold rs. rewrite GetRessources_eq.
  set (A := link_ressource baseUrl <$> Find doc "link").
  set (B := img_ressource baseUrl <$> Find doc "img").
  set (C := src_ressource "script" baseUrl <$> _).
  set (D := src_ressource "style" baseUrl <$> _).
  assert (∀ r, r ∈ A → Ressource_Tag r = "link") as HA by (apply fmap_tag; reflexivity).
  assert (∀ r, r ∈ B → Ressource_Tag r = "img") as HB by (apply fmap_tag; reflexivity).
  assert (∀ r, r ∈ C → Ressource_Tag r = "script") as HC by (apply fmap_tag; reflexivity).
  assert (∀ r, r ∈ D → Ressource_Tag r = "style") as HD by (apply fmap_tag; reflexivity).
  rewrite !with_tag_app.
  repeat split.
  - rewrite (with_tag_all _ A HA), (with_tag_none "link" "img" B), (with_tag_none "link" "script" C),
      (with_tag_none "link" "style" D), !app_nil_r by (discriminate || assumption). reflexivity.
  - rewrite (with_tag_none "img" "link" A), (with_tag_all _ B HB), (with_tag_none "img" "script" C),
      (with_tag_none "img" "style" D), !app_nil_r by (discriminate || assumption). reflexivity.
  - rewrite (with_tag_none "script" "link" A), (with_tag_none "script" "img" B), (with_tag_all _ C HC),
      (with_tag_none "script" "style" D), !app_nil_r by (discriminate || assumption). reflexivity.
  - rewrite (with_tag_none "style" "link" A), (with_tag_none "style" "img" B),
      (with_tag_none "style" "script" C), (with_tag_all _ D HD) by (discriminate || assumption).
    reflexivity.
  - unfold A, B, C, D. rewrite !length_app, !length_fmap. lia.
Qed.

(** C2 as the specification states it fails on an [img] element without [src]: it is
    recorded, with an empty [Url]. *)
Lemma img_without_src_is_recorded :
  let img := Element "img" [("alt", "logo")] [] in
  let baseUrl := mkURL "http" "" "ex.com" "/old" "" "" in
  Attr img "src" = None
  ∧ GetRessources (L := Sample.lib) (html_body [img]) baseUrl = [mkRessource "" "" "" "img"].
Proof. split; reflexivity. Qed.

(** C1, what the code does.  With [removeInvisibles] set, [GetHrefs] returns
    early on an anchor whose style [IsVisibleCss] finds visible, and goes on
    to record the anchor whose style hides it: an anchor with
    [display:none] or [visibility:hidden] is in the result and one with
    [display:block] is not.  An anchor without a style is recorded, and
    with [removeInvisibles] unset every anchor with an [href] is. *)
Theorem GetHrefs_drops_visible_keeps_hidden :
  (∀ (L : Lib) (baseUrl : url_URL) (href style : string),
      GetHrefs (styled_anchor href style) baseUrl true
      = (if IsVisibleCss style then [] else [ToAbsUrl baseUrl href])
      ∧ GetHrefs (styled_anchor href style) baseUrl false = [ToAbsUrl baseUrl href]
      ∧ GetHrefs (html_body [Element "a" [("href", href)] []]) baseUrl true
        = [ToAbsUrl baseUrl href])
  ∧ IsVisibleCss "display:none" = false
  ∧ IsVisibleCss "visibility:hidden" = false
  ∧ IsVisibleCss "display:block" = true
  ∧ (let baseUrl := mkURL "http" "" "ex.com" "/old" "" "" in
     GetHrefs (L := Sample.lib) (styled_anchor "/h" "display:none") baseUrl true
     = ["http://ex.com/h"]
     ∧ GetHrefs (L := Sample.lib) (styled_anchor "/v" "display:block") baseUrl true = []).
Proof.
  split; [|repeat split; vm_compute; reflexivity].
  intros L baseUrl href style. unfold GetHrefs, styled_anchor.
  change (Find (html_body [Element "a" [("href", href); ("style", style)] []]) "a")
    with [Element "a" [("href", href); ("style", style)] []].
  change (Find (html_body [Element "a" [("href", href)] []]) "a")
    with [Element "a" [("href", href)] []].
  rewrite !Each_cons. unfold Each. cbn [fold_left].
  rewrite !(GetHrefs_each_href _ _ _ _ href) by reflexivity.
  change (Attr (Element "a" [("href", href); ("style", style)] []) "style") with (Some style).
  change (Attr (Element "a" [("href", href)] []) "style") with (@None string).
  cbn [contains negb app].
  split; [reflexivity | split; reflexivity].
Qed.
Section Resolution.
Context `{L : Lib}.

Implicit Types (s doc : Node) (baseUrl : url_URL).

Lemma GetFormUrls_eq doc baseUrl :
  GetFormUrls doc baseUrl = form_descriptor baseUrl <$> Find doc "form".
Proof.
  unfold GetFormUrls.
  change (GetFormUrls_each baseUrl) with (fun acc s => acc ++ [form_descriptor baseUrl s]).
  rewrite Each_map. reflexivity.
Qed.

Lemma ToAbsUrl_Err baseUrl weburl e : url_Parse weburl = Err e → ToAbsUrl baseUrl weburl = "".
Proof. intros H. unfold ToAbsUrl. rewrite H. reflexivity. Qed.

Lemma ToAbsUrl_Ok baseUrl weburl relurl :
  url_Parse weburl = Ok relurl →
  ToAbsUrl baseUrl weburl = url_String (url_ResolveReference baseUrl relurl).
Proof. intros H. unfold ToAbsUrl. rewrite H. reflexivity. Qed.

Lemma src_ressource_in doc baseUrl s (tag : string) :
  s ∈ Find doc tag → has_attr "src" s = true →
  src_ressource tag baseUrl s ∈ src_ressource tag baseUrl <$> List.filter (has_attr "src") (Find doc tag).
Proof.
  intros Hs Hsrc. apply list_elem_of_fmap. exists s. split; [reflexivity|].
  apply list_elem_of_In, filter_In. split; [apply list_elem_of_In, Hs | exact Hsrc].
Qed.

End Resolution.

(** C10.  [ToAbsUrl] returns the empty string when the reference does not
    parse and the reference resolved against the base otherwise.  So the
    extractor's output holds an empty string for a malformed attribute: in
    the hyperlinks for an anchor that is not filtered out, as the [Url] of
    the form for an [action], and as the [Url] of the resource for the
    [href] of a [link] or the [src] of an [img], [script] or [style]. *)
Theorem ToAbsUrl_empty_when_unparsable (L : Lib) (baseurl : url_URL) (weburl : string) :
  (∀ relurl, url_Parse weburl = Ok relurl →
     ToAbsUrl baseurl weburl = url_String (url_ResolveReference baseurl relurl))
  ∧ (∀ e, url_Parse weburl = Err e →
       ToAbsUrl baseurl weburl = ""
       ∧ (∀ doc s removeInvisibles,
            s ∈ Find doc "a" → Attr s "href" = Some weburl →
            removeInvisibles = false ∨ Attr s "style" = None →
            "" ∈ GetHrefs doc baseurl removeInvisibles)
       ∧ (∀ doc s,
            s ∈ Find doc "form" → Attr s "action" = Some weburl →
            ∃ f, f ∈ GetFormUrls doc baseurl ∧ Form_Url f = "")
       ∧ (∀ doc s,
            s ∈ Find doc "link" → Attr s "href" = Some weburl →
            ∃ r, r ∈ GetRessources doc baseurl
                 ∧ Ressource_Tag r = "link" ∧ Ressource_Url r = "")
       ∧ (∀ doc s tag,
            tag ∈ ["img"; "script"; "style"] →
            s ∈ Find doc tag → Attr s "src" = Some weburl →
            ∃ r, r ∈ GetRessources doc baseurl
                 ∧ Ressource_Tag r = tag ∧ Ressource_Url r = "")).
Proof.
  split; [intros relurl; apply ToAbsUrl_Ok|].
  intros e He. pose proof (ToAbsUrl_Err baseurl weburl e He) as Hempty.
  split; [exact Hempty|]. split; [|split; [|split]].
  - intros doc s removeInvisibles Hs Hhref Hvis.
    rewrite <- Hempty. unfold GetHrefs.
    apply (Each_GetHrefs_adds _ _ _ _ s); [exact Hs | exact Hhref |].
    destruct Hvis as [->| ->]; [destruct (Attr s "style")|]; reflexivity.
  - intros doc s Hs Haction. exists (form_descriptor baseurl s). split.
    + rewrite GetFormUrls_eq. apply list_elem_of_fmap. eauto.
    + unfold form_descriptor. cbn [Form_Url]. rewrite Haction. exact Hempty.
  - intros doc s Hs Hhref. exists (link_ressource baseurl s). split; [|split].
    + rewrite GetRessources_eq. apply elem_of_app. left. apply list_elem_of_fmap. eauto.
    + reflexivity.
    + unfold link_ressource. cbn [Ressource_Url]. rewrite Hhref. exact Hempty.
  - intros doc s tag Htag Hs Hsrc.
    assert (has_attr "src" s = true) as Hhas by (unfold has_attr; rewrite Hsrc; reflexivity).
    rewrite GetRessources_eq.
    apply elem_of_cons in Htag as [->|Htag]; [|apply elem_of_cons in Htag as [->|Htag]].
    + exists (img_ressource baseurl s). split; [|split].
      * apply elem_of_app. right. apply elem_of_app. left. apply list_elem_of_fmap. eauto.
      * reflexivity.
      * unfold img_ressource. cbn [Ressource_Url]. rewrite Hsrc. exact Hempty.
    + exists (src_ressource "script" baseurl s). split; [|split].
      * apply elem_of_app. right. apply elem_of_app. right. apply elem_of_app. left.
        apply src_ressource_in; assumption.
      * reflexivity.
      * unfold src_ressource, attr_or_empty. cbn [Ressource_Url]. rewrite Hsrc. exact Hempty.
    + apply list_elem_of_singleton in Htag as ->.
      exists (src_ressource "style" baseurl s). split; [|split].
      * apply elem_of_app. right. apply elem_of_app. right. apply elem_of_app. right.
        apply src_ressource_in; assumption.
      * reflexivity.
      * unfold src_ressource, attr_or_empty. cbn [Ressource_Url]. rewrite Hsrc. exact Hempty.
Qed.

Lemma ToAbsUrl_empty_when_unparsable_witness :
  let baseurl := mkURL "http" "" "ex.com" "/old" "" "" in
  let doc := html_body [Element "a" [("href", "://bad")] [];
                        Element "form" [("action", "://bad")] [];
                        Element "img" [("src", "://bad")] []] in
  ToAbsUrl (L := Sample.lib) baseurl "/new" = "http://ex.com/new"
  ∧ ToAbsUrl (L := Sample.lib) baseurl "://bad" = ""
  ∧ "" ∈ GetHrefs (L := Sample.lib) doc baseurl true
  ∧ (∃ f, f ∈ GetFormUrls (L := Sample.lib) doc baseurl ∧ Form_Url f = "")
  ∧ (∃ r, r ∈ GetRessources (L := Sample.lib) doc baseurl
          ∧ Ressource_Tag r = "img" ∧ Ressource_Url r = "").
Proof.
  intros baseurl doc.
  destruct (ToAbsUrl_empty_when_unparsable Sample.lib baseurl "/new") as [Hok _].
  destruct (ToAbsUrl_empty_when_unparsable Sample.lib baseurl "://bad") as [_ Herr].
  destruct (Herr _ eq_refl) as (Hempty & Hhrefs & Hforms & _ & Hsrc).
  split; [|split; [|split; [|split]]].
  - apply (Hok (mkURL "" "" "" "/new" "" "")). reflexivity.
  - exact Hempty.
  - apply (Hhrefs doc (Element "a" [("href", "://bad")] []) true).
    + apply list_elem_of_here.
    + reflexivity.
    + right. reflexivity.
  - apply (Hforms doc (Element "form" [("action", "://bad")] [])).
    + apply list_elem_of_here.
    + reflexivity.
  - apply (Hsrc doc (Element "img" [("src", "://bad")] []) "img").
    + apply list_elem_of_here.
    + apply list_elem_of_here.
    + reflexivity.
Defined.

Section Assembly.
Context `{L : Lib}.

Lemma LocationFromPage_redirect (page : Page) (baseUrl : url_URL) :
  (300 ≤ StatusCode (Response page) < 308)%Z →
  LocationFromPage page baseUrl
  = (true, ToAbsUrl baseUrl (Header_Get (Response_Header (Response page)) "Location")).
Proof.
  intros [Hlo Hhi]. unfold LocationFromPage.
  rewrite !bool_decide_eq_true_2 by assumption. reflexivity.
Qed.

Lemma LocationFromPage_other (page : Page) (baseUrl : url_URL) :
  ¬ (300 ≤ StatusCode (Response page) < 308)%Z →
  LocationFromPage page baseUrl = (false, "").
Proof.
  intros Hs. unfold LocationFromPage.
  destruct (bool_decide (300 ≤ _)%Z) eqn:Hlo; [|reflexivity].
  destruct (bool_decide (_ < 308)%Z) eqn:Hhi; [|reflexivity].
  apply bool_decide_eq_true in Hlo, Hhi. exfalso. apply Hs. split; assumption.
Qed.

(** The hyperlinks [PageFromResponse] holds before it looks at the status:
    those of the body if it could be read, none otherwise. *)
Lemma PageFromResponse_Hrefs (c : Crawler) (now : Z) (req : http_Request)
    (res : http_Response) (timeDur : Z) :
  Hrefs (RespInfo (PageFromResponse c now req (Some res) timeDur))
  = Hrefs (RespInfo (PageFromResponse_res c req res empty_Page)).
Proof. reflexivity. Qed.

End Assembly.

(** C4.  For a response with a status [s], [300 <= s < 308], the page
    [PageFromResponse] assembles has the [Location] header, resolved
    against the request URL by [ToAbsUrl], as last hyperlink unless the
    hyperlinks of the body already hold it; for any other status the
    hyperlinks are those of the body and nothing is added. *)
Theorem PageFromResponse_adds_Location
    (L : Lib) (c : Crawler) (now : Z) (req : http_Request) (res : http_Response)
    (timeDur : Z) :
  let body_hrefs := body_Hrefs c req res in
  let location := ToAbsUrl (Req_URL req) (Header_Get (Res_Header res) "Location") in
  let page := PageFromResponse c now req (Some res) timeDur in
  StatusCode (Response page) = Res_StatusCode res
  ∧ ((300 ≤ Res_StatusCode res < 308)%Z →
       location ∈ Hrefs (RespInfo page)
       ∧ (location ∈ body_hrefs → Hrefs (RespInfo page) = body_hrefs)
       ∧ (location ∉ body_hrefs → Hrefs (RespInfo page) = body_hrefs ++ [location]))
  ∧ (¬ (300 ≤ Res_StatusCode res < 308)%Z → Hrefs (RespInfo page) = body_hrefs).
Proof.
  intros body_hrefs location page.
  unfold page. rewrite PageFromResponse_Hrefs.
  unfold PageFromResponse, PageFromResponse_res.
  set (page0 := match Res_Body res with
                | Ok body => PageFromData body (Req_URL req) (IncludeHiddenLinks c)
                | Err _ => empty_Page
                end).
  assert (Hrefs (RespInfo page0) = body_hrefs) as Hbody.
  { unfold page0, body_hrefs, body_Hrefs. destruct (Res_Body res); reflexivity. }
  set (page1 := set_Response page0 _).
  assert (StatusCode (Response page1) = Res_StatusCode res) as Hstatus by reflexivity.
  assert (Response_Header (Response page1) = Res_Header res) as Hheader by reflexivity.
  assert (Hrefs (RespInfo page1) = body_hrefs) as Hbody1 by exact Hbody.
  split; [|split].
  - destruct (LocationFromPage page1 (Req_URL req)) as [[] loc];
      [destruct (negb _)|]; reflexivity.
  - intros Hs. rewrite (LocationFromPage_redirect page1) by (rewrite Hstatus; exact Hs).
    rewrite Hheader. fold location. rewrite Hbody1.
    destruct (ContainsString body_hrefs location) eqn:Hc; cbn [negb].
    + apply ContainsString_elem_of in Hc. rewrite Hbody1.
      split; [exact Hc|]. split; [reflexivity|]. intros Hn. contradiction.
    + assert (location ∉ body_hrefs) as Hn.
      { intros Hin. apply ContainsString_elem_of in Hin. congruence. }
      cbn [set_Hrefs set_RespInfo RespInfo Hrefs].
      split; [apply elem_of_app; right; apply list_elem_of_here|].
      split; [intros Hin; contradiction | reflexivity].
  - intros Hs. rewrite (LocationFromPage_other page1) by (rewrite Hstatus; exact Hs).
    exact Hbody1.
Qed.

Lemma PageFromResponse_adds_Location_witness :
  let c := NewCrawler in
  let req := mkRequest "GET" (mkURL "http" "" "ex.com" "/old" "" "") ∅ "HTTP/1.1" 0 in
  let res := mkResponse (Ok "") {[ "Location" := ["/new"] ]} 302 "HTTP/1.1" in
  Hrefs (RespInfo (PageFromResponse (L := Sample.lib) c 0 req (Some res) 0))
  = ["http://ex.com/new"]
  ∧ Hrefs (RespInfo (PageFromResponse (L := Sample.lib) c 0 req
                       (Some (mkResponse (Ok "") {[ "Location" := ["/new"] ]} 200 "HTTP/1.1")) 0))
    = [].
Proof.
  intros c req res. split.
  - destruct (PageFromResponse_adds_Location Sample.lib c 0 req res 0) as (_ & Hredirect & _).
    destruct Hredirect as (_ & _ & Hnew); [cbn; lia|].
    apply Hnew. vm_compute. apply not_elem_of_nil.
  - destruct (PageFromResponse_adds_Location Sample.lib c 0 req
                (mkResponse (Ok "") {[ "Location" := ["/new"] ]} 200 "HTTP/1.1") 0)
      as (_ & _ & Hother).
    apply Hother. cbn. lia.
Defined.

Section Fetcher.
Context `{L : Lib}.

Lemma PageFromResponse_Error (c : Crawler) (now : Z) (req : http_Request)
    (res : option http_Response) (timeDur : Z) :
  Error (PageFromResponse c now req res timeDur) = "".
Proof.
  unfold PageFromResponse. cbn [Error].
  destruct res as [res|]; [|reflexivity].
  unfold PageFromResponse_res.
  destruct (LocationFromPage _ _) as [[] loc]; [destruct (negb _)|];
    destruct (Res_Body res); reflexivity.
Qed.

End Fetcher.

(** C9.  When [http.NewRequest] fails, [GetPage] returns a nil page and that
    error.  Once the request is built (and its headers are set), the page
    is never nil: it comes with the error of the transport and carries its
    message in [Error], or it comes with a nil error and an empty [Error]
    (no error, or the redirect that [CheckRedirect] blocked). *)
Theorem GetPage_nil_page_when_request_fails
    (L : Lib) (c : Crawler) (w : World) (crawlUrl method : string) :
  (∀ e, http_NewRequest method crawlUrl = Err e →
        GetPage c w crawlUrl method = Return (None, Some e))
  ∧ (∀ req, http_NewRequest method crawlUrl = Ok req →
        map_Forall (fun _ v => v ≠ []) (Crawler_Header c) →
        ∃ page,
          (GetPage c w crawlUrl method = Return (Some page, None) ∧ Error page = "")
          ∨ (∃ e, GetPage c w crawlUrl method = Return (Some page, Some e)
                  ∧ Error page = error_Error e
                  ∧ is_transport_failure e = true)).
Proof.
  split.
  - intros e He. unfold GetPage. rewrite He. reflexivity.
  - intros req Hreq Hheader. unfold GetPage. rewrite Hreq.
    rewrite bool_decide_eq_true_2 by exact Hheader.
    destruct (Client_Do w _) as [res [e|]].
    + destruct (is_transport_failure e) eqn:Ht.
      * eexists. right. exists e. split; [reflexivity|]. split; [reflexivity | exact Ht].
      * eexists. left. split; [reflexivity | apply PageFromResponse_Error].
    + eexists. left. split; [reflexivity | apply PageFromResponse_Error].
Qed.

Lemma GetPage_nil_page_when_request_fails_witness :
  let w := mkWorld Sample.in_order
             (fun _ => (None, Some (url_Error "Get" "http://ex.com/" (errorString "connection refused"))))
             0 0 true in
  GetPage (L := Sample.lib) NewCrawler w "://bad" "GET"
  = Return (None, Some (url_Error "parse" "://bad" (errorString "missing protocol scheme")))
  ∧ ∃ page,
      GetPage (L := Sample.lib) NewCrawler w "http://ex.com/" "GET"
      = Return (Some page,
                Some (url_Error "Get" "http://ex.com/" (errorString "connection refused")))
      ∧ Error page
        = error_Error (L := Sample.lib)
            (url_Error "Get" "http://ex.com/" (errorString "connection refused")).
Proof.
  intros w. split.
  - apply (proj1 (GetPage_nil_page_when_request_fails Sample.lib NewCrawler w "://bad" "GET")).
    reflexivity.
  - destruct (proj2 (GetPage_nil_page_when_request_fails Sample.lib NewCrawler w
                       "http://ex.com/" "GET")
                (mkRequest "GET" (mkURL "http" "" "ex.com" "/" "" "") ∅ "HTTP/1.1" 0)
                eq_refl)
      as [page [[Hnil _]|(e & Hpage & Herror & _)]].
    + apply map_Forall_singleton. discriminate.
    + exfalso. vm_compute in Hnil. discriminate Hnil.
    + exists page. assert (e = url_Error "Get" "http://ex.com/" (errorString "connection refused")) as ->.
      { vm_compute in Hpage. congruence. }
      split; [exact Hpage | exact Herror].
Defined.

Section Resume.
Context `{L : Lib}.

Implicit Types (cw : Crawler) (p : Page) (fs : FS).

Lemma AddCrawledLinks_one cw u :
  AddCrawledLinks [u] cw = set_Links cw (<[u := true]> (Links cw)).
Proof. reflexivity. Qed.

Lemma LoadPages_record_eq p cw :
  LoadPages_record p cw
  = AddAllLinks (recomputed_links cw p) (AddCrawledLinks [recomputed_url cw p] cw).
Proof. reflexivity. Qed.

(** A record leaves the hooks and the other settings as they are. *)
Lemma LoadPages_record_frame p cw :
  LoadPages_record p cw = set_Links cw (Links (LoadPages_record p cw)).
Proof.
  rewrite LoadPages_record_eq, AddAllLinks_frame at 1.
  rewrite AddCrawledLinks_one, set_Links_twice. reflexivity.
Qed.

Lemma LoadPages_record_lookup p cw k :
  Links (LoadPages_record p cw) !! k
  = if decide (k = recomputed_url cw p) then Some true
    else discovered (recomputed_links cw p) (Links cw) k.
Proof.
  rewrite LoadPages_record_eq, AddAllLinks_lookup, AddCrawledLinks_one.
  unfold discovered. cbn [Links set_Links]. rewrite lookup_insert.
  destruct (decide (recomputed_url cw p = k)) as [->|Hne].
  - rewrite decide_True by reflexivity. reflexivity.
  - rewrite decide_False by congruence. reflexivity.
Qed.

Lemma LoadPages_loop_all fs files pages readCount cw :
  loaded fs files pages →
  LoadPages_loop fs files readCount cw
  = ((readCount + Z.of_nat (length files))%Z, None,
     fold_left (fun cw p => LoadPages_record p cw) pages cw).
Proof.
  intros H. revert readCount cw.
  induction H as [|file p files pages Hp _ IH]; intros readCount cw.
  - simpl. rewrite Z.add_0_r. reflexivity.
  - cbn [LoadPages_loop]. rewrite Hp, IH. cbn [fold_left length].
    rewrite Nat2Z.inj_succ. do 2 f_equal. lia.
Qed.

Lemma LoadPages_loop_fails fs done pages bad rest e readCount cw :
  loaded fs done pages →
  LoadPage fs bad false = Err e →
  LoadPages_loop fs (done ++ bad :: rest) readCount cw
  = ((readCount + Z.of_nat (length done))%Z, Some e,
     fold_left (fun cw p => LoadPages_record p cw) pages cw).
Proof.
  intros H Hbad. revert readCount cw.
  induction H as [|file p files pages Hp _ IH]; intros readCount cw.
  - simpl. rewrite Hbad, Z.add_0_r. reflexivity.
  - cbn [LoadPages_loop app]. rewrite Hp, IH. cbn [fold_left length].
    rewrite Nat2Z.inj_succ. do 2 f_equal. lia.
Qed.

End Resume.

(** C7.  [LoadPages] takes the metadata files of the folder in their order.
    For each record it recomputes the URL with [BeforeCrawlFn] and the links
    with [AfterCrawlFn] (where set), marks the URL visited and adds every
    recomputed link that is new as unvisited: [ScopeToDomain] is not
    consulted.  When all files load it returns their number and no error;
    when a file fails to load it returns at once, with that error, the
    number of files processed before it, and the frontier they left. *)
Theorem LoadPages_replays_records
    (L : Lib) (fs : FS) (folderpath : string) (cw : Crawler) (files : list string) :
  folderpath ≠ "" →
  GetPageInfoFiles fs folderpath = Ok files →
  (∀ pages, loaded fs files pages →
     LoadPages fs folderpath cw
     = (Return (Z.of_nat (length files), None),
        fold_left (fun cw p => LoadPages_record p cw) pages cw))
  ∧ (∀ done pages bad rest e,
       files = done ++ bad :: rest →
       loaded fs done pages →
       LoadPage fs bad false = Err e →
       LoadPages fs folderpath cw
       = (Return (Z.of_nat (length done), Some e),
          fold_left (fun cw p => LoadPages_record p cw) pages cw))
  ∧ (∀ p cw,
       let cw' := LoadPages_record p cw in
       IsCrawled cw' (recomputed_url cw p) = true
       ∧ (∀ link, link ∈ recomputed_links cw p → is_Some (Links cw' !! link))
       ∧ (∀ k, k ≠ recomputed_url cw p →
            Links cw' !! k = discovered (recomputed_links cw p) (Links cw) k)
       ∧ (∀ b, Links (LoadPages_record p (set_ScopeToDomain cw b)) = Links cw')
       ∧ BeforeCrawlFn cw' = BeforeCrawlFn cw
       ∧ AfterCrawlFn cw' = AfterCrawlFn cw).
Proof.
  intros Hfolder Hfiles. split; [|split].
  - intros pages Hpages. unfold LoadPages.
    rewrite bool_decide_eq_false_2 by exact Hfolder. rewrite Hfiles.
    rewrite (LoadPages_loop_all fs files pages) by exact Hpages. reflexivity.
  - intros done pages bad rest e -> Hpages Hbad. unfold LoadPages.
    rewrite bool_decide_eq_false_2 by exact Hfolder. rewrite Hfiles.
    rewrite (LoadPages_loop_fails fs done pages bad rest e) by assumption. reflexivity.
  - intros p cw0 cw'. unfold cw'. split; [|split; [|split; [|split]]].
    + apply IsCrawled_true. rewrite LoadPages_record_lookup.
      rewrite decide_True by reflexivity. reflexivity.
    + intros link Hlink. rewrite LoadPages_record_lookup.
      destruct (decide _); [eauto|]. unfold discovered.
      destruct (Links cw0 !! link); [eauto|].
      rewrite bool_decide_eq_true_2 by exact Hlink. eauto.
    + intros k Hk. rewrite LoadPages_record_lookup, decide_False by exact Hk. reflexivity.
    + intros b. apply map_eq. intros k. rewrite !LoadPages_record_lookup. reflexivity.
    + rewrite LoadPages_record_frame. split; reflexivity.
Qed.

Lemma LoadPages_replays_records_witness :
  let fs := mkFS (fun _ => Ok ["1.httpi"; "1.respbin"; "2.httpi"; "3.httpi"])
                 (fun path => if bool_decide (path = "store/1.httpi") then Ok "{}"
                              else Err (errorString "permission denied")) in
  LoadPages (L := Sample.lib) fs "store" NewCrawler
  = (Return (1%Z, Some (errorString "permission denied")),
     LoadPages_record empty_Page NewCrawler).
Proof.
  intros fs.
  apply (proj1 (proj2 (LoadPages_replays_records Sample.lib fs "store" NewCrawler
                         ["store/1.httpi"; "store/2.httpi"; "store/3.httpi"]
                         ltac:(discriminate) eq_refl))
           ["store/1.httpi"] [empty_Page] "store/2.httpi" ["store/3.httpi"]
           (errorString "permission denied")).
  - reflexivity.
  - constructor; [reflexivity | constructor].
  - reflexivity.
Defined.

Section CrawlLoop.
Context `{L : Lib}.

Implicit Types (cw c : Crawler) (w : World) (m : gmap string bool) (U : gset string).

Lemma GetNextLink_range_found (entries : list (string * bool)) u :
  GetNextLink_range entries = (u, true) → (u, false) ∈ entries.
Proof.
  induction entries as [|[i l] entries IH]; simpl; [discriminate|].
  case_bool_decide as Hl.
  - intros [= <-]. subst l. apply list_elem_of_here.
  - intros H. apply list_elem_of_further, IH, H.
Qed.

Lemma GetNextLink_range_none (entries : list (string * bool)) u :
  GetNextLink_range entries = (u, false) → ∀ k, (k, false) ∉ entries.
Proof.
  induction entries as [|[i l] entries IH]; simpl; intros H k.
  - apply not_elem_of_nil.
  - case_bool_decide as Hl; [discriminate|].
    intros Hin. apply elem_of_cons in Hin as [Heq|Hin].
    + injection Heq as _ Hf. apply Hl. symmetry. exact Hf.
    + exact (IH H k Hin).
Qed.

Lemma GetNextLink_range_exhausted (entries : list (string * bool)) :
  (∀ k, (k, false) ∉ entries) → GetNextLink_range entries = ("", false).
Proof.
  induction entries as [|[i l] entries IH]; simpl; intros H; [reflexivity|].
  case_bool_decide as Hl.
  - subst l. exfalso. apply (H i), list_elem_of_here.
  - apply IH. intros k Hk. apply (H k), list_elem_of_further, Hk.
Qed.

Lemma range_entries (order : RangeOrder) m k v :
  (k, v) ∈ order m ↔ m !! k = Some v.
Proof. rewrite (range_perm order m). apply elem_of_map_to_list. Qed.

(** [GetNextLink] finds an unvisited entry, in any order. *)
Lemma GetNextLink_found (order : RangeOrder) c u :
  GetNextLink order c = (u, true) → Links c !! u = Some false.
Proof. intros H. apply (range_entries order), GetNextLink_range_found, H. Qed.

(** [GetNextLink] returns [ok = false] only on a frontier without an
    unvisited entry, and then it does so in every order. *)
Lemma GetNextLink_none (order : RangeOrder) c u :
  GetNextLink order c = (u, false) → ∀ k, Links c !! k ≠ Some false.
Proof.
  intros H k Hk. apply (range_entries order) in Hk.
  exact (GetNextLink_range_none _ _ H k Hk).
Qed.

Lemma GetNextLink_exhausted (order : RangeOrder) c :
  (∀ k, Links c !! k ≠ Some false) → GetNextLink order c = ("", false).
Proof.
  intros H. apply GetNextLink_range_exhausted. intros k Hk.
  apply (range_entries order) in Hk. exact (H k Hk).
Qed.

(** The expansion step is [AddAllLinks] on some of the links. *)
Lemma FetchSites_expand_lookup (startUrl : option url_URL) (userLinks : list string) c :
  ∃ added, (∀ link, link ∈ added → link ∈ userLinks)
           ∧ FetchSites_expand startUrl userLinks c = AddAllLinks added c.
Proof.
  unfold FetchSites_expand.
  destruct startUrl as [su|]; [destruct (ScopeToDomain c)|].
  - exists (List.filter (in_scope su) userLinks). split.
    + intros link Hl. apply list_elem_of_In, filter_In in Hl as [Hl _].
      apply list_elem_of_In, Hl.
    + apply AddLinksMatchingDomain_filter.
  - exists userLinks. split; [tauto | reflexivity].
  - exists userLinks. split; [tauto | reflexivity].
Qed.

(** What an iteration that goes round again has done: it selected the seed
    (once) or an unvisited entry, the hook let the URL through, the URL
    was stored as visited, and the iteration either skipped the fetch or
    expanded the frontier with the links of the page. *)
Lemma FetchSites_body_continues w (startUrl : option url_URL) (first : bool) c c' first' :
  FetchSites_body w startUrl first c = inl (c', first') →
  ∃ selected url,
    ((first = true ∧ ∃ su, startUrl = Some su ∧ selected = url_String su ∧ first' = false)
     ∨ (Links c !! selected = Some false ∧ first' = first
        ∧ (first = false ∨ startUrl = None)))
    ∧ ((BeforeCrawlFn c = None ∧ url = selected)
       ∨ (∃ fn, BeforeCrawlFn c = Some fn ∧ fn selected = (url, None)))
    ∧ (c' = Links_store url true c
       ∨ ∃ page err added,
           GetPage (Links_store url true c) w url "GET" = Return (Some page, err)
           ∧ (∀ link, link ∈ added → link ∈ expansion_links c page err)
           ∧ c' = AddAllLinks added
                    (set_PageCount (Links_store url true c)
                       ((PageCount c + 1) mod 2 ^ 64)%Z)).
Proof.
  unfold FetchSites_body.
  set (pick := match startUrl with
               | Some su => if negb first then _ else _
               | None => _
               end).
  assert (∀ selected found first0, pick = (selected, found, first0) → found = true →
            (first = true ∧ ∃ su, startUrl = Some su ∧ selected = url_String su ∧ first0 = false)
            ∨ (Links c !! selected = Some false ∧ first0 = first
               ∧ (first = false ∨ startUrl = None))) as Hpick.
  { unfold pick. intros selected found first0.
    destruct startUrl as [su|]; [destruct first; cbn [negb]|].
    - intros [= <- <- <-] _. left. eauto.
    - destruct (GetNextLink (range w) c) as [u f] eqn:Hn. intros [= <- <- <-] ->.
      right. split; [exact (GetNextLink_found _ _ _ Hn) | split; [reflexivity | tauto]].
    - destruct (GetNextLink (range w) c) as [u f] eqn:Hn. intros [= <- <- <-] ->.
      right. split; [exact (GetNextLink_found _ _ _ Hn) | split; [reflexivity | tauto]]. }
  destruct pick as [[selected found] first0]. specialize (Hpick _ _ _ eq_refl).
  destruct found; cbn [negb]; [|discriminate]. specialize (Hpick eq_refl).
  set (before := match BeforeCrawlFn c with Some fn => fn selected | None => _ end).
  assert (∀ url, before = (url, None) →
            (BeforeCrawlFn c = None ∧ url = selected)
            ∨ (∃ fn, BeforeCrawlFn c = Some fn ∧ fn selected = (url, None))) as Hbefore.
  { unfold before. intros url. destruct (BeforeCrawlFn c) as [fn|].
    - intros H. right. eauto.
    - intros [= <-]. left. split; reflexivity. }
  destruct before as [url [err|]]; [discriminate|]. specialize (Hbefore _ eq_refl).
  intros H. exists selected, url. split; [|split; [exact Hbefore|]].
  - destruct (url_Parse url) as [nextUrl|e]; [|injection H as <- <-; exact Hpick].
    destruct (negb (IsValidScheme _ nextUrl)); [injection H as <- <-; exact Hpick|].
    destruct (GetPage _ w url "GET") as [[[page|] err]| |]; try discriminate.
    destruct (SavePage _ _ _); try discriminate.
    injection H as <- <-. exact Hpick.
  - destruct (url_Parse url) as [nextUrl|e]; [|injection H as <- <-; left; reflexivity].
    destruct (negb (IsValidScheme _ nextUrl)); [injection H as <- <-; left; reflexivity|].
    destruct (GetPage _ w url "GET") as [[[page|] err]| |] eqn:Hpage; try discriminate.
    destruct (SavePage _ _ _); try discriminate.
    injection H as <- <-. right.
    destruct (FetchSites_expand_lookup startUrl
                (match AfterCrawlFn (Links_store url true c) with
                 | Some fn => fst (fn page err)
                 | None => Hrefs (RespInfo page)
                 end)
                (set_PageCount (Links_store url true c) ((PageCount (Links_store url true c) + 1) mod 2 ^ 64)%Z))
      as (added & Hadded & Heq).
    exists page, err, added. split; [reflexivity|]. split; [exact Hadded | exact Heq].
Qed.

(** The loop returns nil only when [GetNextLink] found no entry: the
    frontier then has no unvisited entry and is left as it was. *)
Lemma FetchSites_body_done w (startUrl : option url_URL) (first : bool) c c' :
  FetchSites_body w startUrl first c = inr (Return None, c') →
  c' = c ∧ ∀ k, Links c !! k ≠ Some false.
Proof.
  unfold FetchSites_body.
  set (pick := match startUrl with
               | Some su => if negb first then _ else _
               | None => _
               end).
  assert (∀ selected first0, pick = (selected, false, first0) →
            ∀ k, Links c !! k ≠ Some false) as Hpick.
  { unfold pick. intros selected first0.
    destruct startUrl as [su|]; [destruct first; cbn [negb]|].
    - discriminate.
    - destruct (GetNextLink (range w) c) as [u f] eqn:Hn. intros [= -> -> _].
      exact (GetNextLink_none _ _ _ Hn).
    - destruct (GetNextLink (range w) c) as [u f] eqn:Hn. intros [= -> -> _].
      exact (GetNextLink_none _ _ _ Hn). }
  destruct pick as [[selected found] first0]. specialize (Hpick selected first0).
  destruct found; cbn [negb].
  - destruct (match BeforeCrawlFn c with Some fn => fn selected | None => _ end)
      as [url [err|]]; [discriminate|].
    destruct (url_Parse url) as [nextUrl|e]; [|discriminate].
    destruct (negb (IsValidScheme _ nextUrl)); [discriminate|].
    destruct (GetPage _ w url "GET") as [[[page|] err]| |]; try discriminate.
    destruct (SavePage _ _ _); discriminate.
  - intros [= <-]. split; [reflexivity | exact (Hpick eq_refl)].
Qed.

End CrawlLoop.

Section CleanRun.
Context `{L : Lib}.

(** On a clean run an iteration leaves the loop only by returning nil. *)
Lemma FetchSites_body_clean (env : nat → World) (cw : Crawler) (U : gset string) i
    (startUrl : option url_URL) (first : bool) (c c' : Crawler) (exit : Exit (option error)) :
  runs_clean env cw →
  reachable_from cw U c →
  FetchSites_body (env i) startUrl first c = inr (exit, c') →
  exit = Return None.
Proof.
  intros (Hhook & Hheader & Hrequest & Hstorage) (m & n & -> & _).
  unfold FetchSites_body.
  destruct (match startUrl with Some su => _ | None => _ end) as [[selected found] first0].
  destruct found; cbn [negb]; [|intros [= <- _]; reflexivity].
  change (BeforeCrawlFn (set_PageCount (set_Links cw m) n)) with (BeforeCrawlFn cw).
  destruct (BeforeCrawlFn cw) as [fn|] eqn:Hfn.
  - destruct (fn selected) as [url [e|]] eqn:Hres.
    + exfalso. exact (Hhook fn selected url e eq_refl Hres).
    + revert url Hres. intros url _.
      destruct (url_Parse url) as [nextUrl|e] eqn:Hparse; [|discriminate].
      destruct (negb (IsValidScheme _ nextUrl)); [discriminate|].
      unfold GetPage, SavePage.
      destruct (Hrequest url nextUrl Hparse) as [req ->].
      change (Crawler_Header (Links_store url true (set_PageCount (set_Links cw m) n)))
        with (Crawler_Header cw).
      rewrite bool_decide_eq_true_2 by exact Hheader.
      destruct (Client_Do (env i) _) as [res [err|]];
        [destruct (is_transport_failure err)|];
        change (StorageFolder (Links_store url true (set_PageCount (set_Links cw m) n)))
          with (StorageFolder cw);
        (destruct (Hstorage i) as [-> | ->];
         [rewrite bool_decide_eq_true_2 by reflexivity; discriminate
         |destruct (bool_decide (StorageFolder cw = "")); discriminate]).
  - destruct (url_Parse selected) as [nextUrl|e] eqn:Hparse; [|discriminate].
    destruct (negb (IsValidScheme _ nextUrl)); [discriminate|].
    unfold GetPage, SavePage.
    destruct (Hrequest selected nextUrl Hparse) as [req ->].
    change (Crawler_Header (Links_store selected true (set_PageCount (set_Links cw m) n)))
      with (Crawler_Header cw).
    rewrite bool_decide_eq_true_2 by exact Hheader.
    destruct (Client_Do (env i) _) as [res [err|]];
      [destruct (is_transport_failure err)|];
      change (StorageFolder (Links_store selected true (set_PageCount (set_Links cw m) n)))
        with (StorageFolder cw);
      (destruct (Hstorage i) as [-> | ->];
       [rewrite bool_decide_eq_true_2 by reflexivity; discriminate
       |destruct (bool_decide (StorageFolder cw = "")); discriminate]).
Qed.

End CleanRun.


Section Termination.
Context `{L : Lib}.
Variables (env : nat → World) (startUrl : option url_URL) (cw : Crawler)
          (U : gset string).
Hypothesis Hhook : hook_keeps_url cw.

Implicit Types (c : Crawler) (m : gmap string bool).

Lemma not_visited_elem m k :
  k ∈ not_visited U m ↔ m !! k ≠ Some true ∧ k ∈ U.
Proof. unfold not_visited. rewrite elem_of_filter. reflexivity. Qed.

(** Storing a key of [U] that was not visited as visited, and then adding
    links, leaves strictly fewer keys of [U] that are not visited. *)
Lemma not_visited_shrinks m m' k :
  k ∈ U → m !! k ≠ Some true → m' !! k = Some true →
  (∀ j, m !! j = Some true → m' !! j = Some true) →
  size (not_visited U m') < size (not_visited U m).
Proof.
  intros HkU Hk Hk' Hmono. apply subset_size. split.
  - intros j. rewrite !not_visited_elem. intros [Hj HjU]. split; [|exact HjU].
    intros Hm. apply Hj, Hmono, Hm.
  - intros Hsub. assert (k ∈ not_visited U m') as Hin.
    { apply Hsub, not_visited_elem. split; assumption. }
    apply not_visited_elem in Hin as [Hin _]. contradiction.
Qed.

Lemma reachable_from_hooks c :
  reachable_from cw U c →
  BeforeCrawlFn c = BeforeCrawlFn cw ∧ AfterCrawlFn c = AfterCrawlFn cw.
Proof. intros (m & n & -> & _). split; reflexivity. Qed.

(** What an iteration that goes round again has done, when the hook hands
    back the URL it is given: the URL it selected, a key of [U] that was
    not visited, is visited now; no visited key has lost its mark; and
    nothing but [Links] and [PageCount] has changed.  A key that is new is
    one of the links handed to the expansion step for the page fetched. *)
Lemma FetchSites_body_marks i (first : bool) c c' first' :
  reachable_from cw U c →
  seed_pending startUrl U first c →
  FetchSites_body (env i) startUrl first c = inl (c', first') →
  first' = false
  ∧ c' = set_PageCount (set_Links cw (Links c')) (PageCount c')
  ∧ (∃ selected,
       selected ∈ U ∧ Links c !! selected ≠ Some true
       ∧ Links c' !! selected = Some true
       ∧ (∀ j, Links c !! j = Some true → Links c' !! j = Some true)
       ∧ (∀ j, is_Some (Links c' !! j) →
            is_Some (Links c !! j) ∨ j = selected
            ∨ ∃ page err,
                GetPage cw (env i) selected "GET" = Return (Some page, err)
                ∧ j ∈ expansion_links cw page err)).
Proof.
  intros Hreach Hseed Hbody.
  destruct (reachable_from_hooks c Hreach) as [Hbefore Hafter].
  destruct Hreach as (m & n & -> & Hdom).
  apply FetchSites_body_continues in Hbody
    as (selected & url & Hsel & Hurl & Hc').
  assert (url = selected) as ->.
  { destruct Hurl as [[_ ->]|(fn & Hfn & Hres)]; [reflexivity|].
    rewrite Hbefore in Hfn. exact (Hhook fn selected url Hfn Hres). }
  assert (selected ∈ U ∧ m !! selected ≠ Some true ∧ first' = false)
    as (HselU & Hsel' & ->).
  { destruct Hsel as [(Hfirst & su & Hsu & -> & ->)|(Hfalse & -> & Hfirst)].
    - destruct (Hseed Hfirst) as (su' & Hsu' & HU & Hnot).
      assert (su' = su) as -> by congruence. split; [exact HU|]. split; [exact Hnot | reflexivity].
    - cbn [Links set_PageCount set_Links] in Hfalse.
      split; [apply Hdom, (elem_of_dom_2 _ _ _ Hfalse)|]. split; [congruence|].
      destruct Hfirst as [Hfirst| ->]; [exact Hfirst|].
      destruct first; [|reflexivity].
      destruct (Hseed eq_refl) as (su & Hsu & _). discriminate Hsu. }
  split; [reflexivity|].
  cbn [Links set_PageCount set_Links].
  destruct Hc' as [->|(page & err & added & Hpage & Hadded & ->)].
  - split; [reflexivity|]. exists selected.
    cbn [Links Links_store set_PageCount set_Links].
    split; [exact HselU|]. split; [exact Hsel'|]. split; [apply lookup_insert_eq|]. split.
    + intros j Hj. rewrite lookup_insert. destruct (decide (selected = j)); congruence.
    + intros j Hj. rewrite lookup_insert in Hj.
      destruct (decide (selected = j)) as [<-|_]; [right; left; reflexivity | left; exact Hj].
  - set (n' := ((PageCount (set_PageCount (set_Links cw m) n) + 1) mod 2 ^ 64)%Z).
    set (c1 := set_PageCount (Links_store selected true (set_PageCount (set_Links cw m) n)) n').
    assert (∀ j, Links (AddAllLinks added c1) !! j
                 = discovered added (<[selected := true]> m) j) as Hlookup.
    { intros j. rewrite AddAllLinks_lookup. reflexivity. }
    split.
    + rewrite (AddAllLinks_frame c1 added). reflexivity.
    + exists selected. split; [exact HselU|]. split; [exact Hsel'|]. split; [|split].
      * rewrite Hlookup. unfold discovered. rewrite lookup_insert_eq. reflexivity.
      * intros j Hj. rewrite Hlookup. unfold discovered. rewrite lookup_insert.
        destruct (decide (selected = j)); [reflexivity|]. rewrite Hj. reflexivity.
      * intros j Hj. rewrite Hlookup in Hj. unfold discovered in Hj.
        rewrite lookup_insert in Hj.
        destruct (decide (selected = j)) as [<-|_]; [right; left; reflexivity|].
        destruct (m !! j) eqn:Hmj; [left; eauto|].
        case_bool_decide as Hin; [|destruct Hj as [v Hv]; discriminate Hv].
        right. right. exists page, err. split; [exact Hpage | apply Hadded, Hin].
Qed.

(** An iteration that goes round again and leaves the frontier within [U]
    leaves strictly fewer keys of [U] not visited. *)
Lemma FetchSites_body_progress i (first : bool) c c' first' :
  reachable_from cw U c →
  seed_pending startUrl U first c →
  FetchSites_body (env i) startUrl first c = inl (c', first') →
  dom (Links c') ⊆ U →
  reachable_from cw U c'
  ∧ first' = false
  ∧ size (not_visited U (Links c')) < size (not_visited U (Links c)).
Proof.
  intros Hreach Hseed Hbody Hdom'.
  destruct (FetchSites_body_marks i first c c' first' Hreach Hseed Hbody)
    as (-> & Hc' & selected & HselU & Hsel & Hsel' & Hmono & _).
  split; [|split; [reflexivity|]].
  - exists (Links c'), (PageCount c'). split; [exact Hc' | exact Hdom'].
  - exact (not_visited_shrinks _ _ selected HselU Hsel Hsel' Hmono).
Qed.

(** Where [U] is closed under the links of its pages, the frontier stays
    within [U]. *)
Lemma FetchSites_body_within i (first : bool) c c' first' :
  links_within env cw U →
  reachable_from cw U c →
  seed_pending startUrl U first c →
  FetchSites_body (env i) startUrl first c = inl (c', first') →
  dom (Links c') ⊆ U.
Proof.
  intros Hlinks Hreach Hseed Hbody.
  destruct (FetchSites_body_marks i first c c' first' Hreach Hseed Hbody)
    as (_ & _ & selected & HselU & _ & _ & _ & Hnew).
  destruct Hreach as (m & n & -> & Hdom).
  intros j Hj. apply elem_of_dom in Hj.
  destruct (Hnew j Hj) as [Hold|[->|(page & err & Hpage & Hlink)]].
  - apply Hdom, elem_of_dom, Hold.
  - exact HselU.
  - exact (Hlinks i selected page err HselU Hpage j Hlink).
Qed.

(** The crawler the loop begins with. *)
Lemma FetchSites_start_pending :
  dom (Links (fst (FetchSites_start startUrl cw))) ⊆ U →
  reachable_from cw U (fst (FetchSites_start startUrl cw))
  ∧ seed_pending startUrl U (snd (FetchSites_start startUrl cw))
                 (fst (FetchSites_start startUrl cw)).
Proof.
  clear Hhook.
  unfold FetchSites_start. destruct startUrl as [su|].
  - cbv zeta. set (cw1 := AddAllLinks [url_String su] cw).
    assert (cw1 = set_PageCount (set_Links cw (Links cw1)) (PageCount cw)) as Hcw1.
    { unfold cw1. rewrite (AddAllLinks_frame cw) at 1. destruct cw; reflexivity. }
    assert (is_Some (Links cw1 !! url_String su)) as Hkey.
    { unfold cw1. rewrite AddAllLinks_lookup. unfold discovered.
      destruct (Links cw !! url_String su); [eauto|].
      rewrite bool_decide_eq_true_2 by apply list_elem_of_here. eauto. }
    destruct (IsCrawled cw1 (url_String su)) eqn:Hcrawled; cbn [negb fst snd]; intros Hdom.
    + split; [|discriminate]. exists (Links cw1), (PageCount cw). split; assumption.
    + split; [exists (Links cw1), (PageCount cw); split; assumption|].
      intros _. exists su. split; [reflexivity|].
      split; [apply Hdom, elem_of_dom, Hkey|]. intros Htrue.
      apply IsCrawled_true in Htrue. congruence.
  - cbn [fst snd]. intros Hdom. split; [|discriminate].
    exists (Links cw), (PageCount cw). split; [destruct cw; reflexivity | exact Hdom].
Qed.

(** A set that holds the frontier and the seed and is closed under the
    links of its pages holds every discoverable URL. *)
Lemma links_within_discoverable :
  dom (Links cw) ⊆ U →
  (∀ su, startUrl = Some su → url_String su ∈ U) →
  links_within env cw U →
  discoverable_within env startUrl cw U.
Proof.
  intros Hdom Hseed Hlinks.
  assert (dom (Links (fst (FetchSites_start startUrl cw))) ⊆ U) as Hstart.
  { unfold FetchSites_start. destruct startUrl as [su|]; [|exact Hdom].
    cbv zeta. set (cw1 := AddAllLinks [url_String su] cw).
    assert (dom (Links cw1) ⊆ U) as Hdom1.
    { intros k Hk. apply elem_of_dom in Hk as [v Hv].
      unfold cw1 in Hv. rewrite AddAllLinks_lookup in Hv. unfold discovered in Hv.
      destruct (Links cw !! k) eqn:Hm; [apply Hdom, (elem_of_dom_2 _ _ _ Hm)|].
      case_bool_decide as Hin; [|discriminate].
      apply list_elem_of_singleton in Hin as ->. apply (Hseed su eq_refl). }
    destruct (negb (IsCrawled cw1 (url_String su))); exact Hdom1. }
  assert (∀ i c first, crawl_at env startUrl cw i c first →
            reachable_from cw U c ∧ seed_pending startUrl U first c) as Hinv.
  { intros i c first Hrun. induction Hrun as [|i c first c' first' Hrun [Hreach Hpending] Hbody].
    - apply FetchSites_start_pending, Hstart.
    - pose proof (FetchSites_body_within i first c c' first' Hlinks Hreach Hpending Hbody)
        as Hdom'.
      destruct (FetchSites_body_progress i first c c' first' Hreach Hpending Hbody Hdom')
        as (Hreach' & -> & _).
      split; [exact Hreach' | discriminate]. }
  intros i c first Hrun. destruct (Hinv i c first Hrun) as [(m & n & -> & Hm) _]. exact Hm.
Qed.

(** The loop stops within as many further iterations as keys of [U] are
    not visited, plus the one that finds none. *)
Lemma FetchSites_loop_terminates fuel i (first : bool) c :
  discoverable_within env startUrl cw U →
  crawl_at env startUrl cw i c first →
  reachable_from cw U c →
  seed_pending startUrl U first c →
  size (not_visited U (Links c)) < fuel →
  ∃ exit c',
    FetchSites_loop fuel env i startUrl first c = Some (exit, c')
    ∧ (exit = Return None → ∀ k, Links c' !! k ≠ Some false)
    ∧ (runs_clean env cw → exit = Return None).
Proof.
  intros Hwithin. revert i first c.
  induction fuel as [|fuel IH]; intros i first c Hrun Hreach Hseed Hsize.
  - lia.
  - cbn [FetchSites_loop].
    destruct (FetchSites_body (env i) startUrl first c) as [[c' first']|[exit c']] eqn:Hbody.
    + pose proof (crawl_at_next env startUrl cw i c first c' first' Hrun Hbody) as Hrun'.
      destruct (FetchSites_body_progress i first c c' first' Hreach Hseed Hbody
                  (Hwithin _ _ _ Hrun'))
        as (Hreach' & -> & Hless).
      apply IH; [exact Hrun' | exact Hreach' | discriminate | lia].
    + exists exit, c'. split; [reflexivity|]. split.
      * intros ->. apply FetchSites_body_done in Hbody as [-> Hnone]. exact Hnone.
      * intros Hclean. exact (FetchSites_body_clean env cw U i _ _ _ _ _ Hclean Hreach Hbody).
Qed.

Lemma FetchSites_loop_more fuel fuel' i (first : bool) c r :
  fuel ≤ fuel' →
  FetchSites_loop fuel env i startUrl first c = Some r →
  FetchSites_loop fuel' env i startUrl first c = Some r.
Proof.
  revert fuel' i first c. induction fuel as [|fuel IH]; intros fuel' i first c Hle.
  - discriminate.
  - destruct fuel' as [|fuel']; [lia|]. cbn [FetchSites_loop].
    destruct (FetchSites_body (env i) startUrl first c) as [[c' first']|r'];
      [|trivial]. apply IH. lia.
Qed.

Lemma FetchSites_from_start fuel :
  FetchSites fuel env startUrl cw
  = FetchSites_loop fuel env 0 startUrl (snd (FetchSites_start startUrl cw))
                    (fst (FetchSites_start startUrl cw)).
Proof.
  unfold FetchSites, FetchSites_start. destruct startUrl as [su|]; [|reflexivity].
  cbv zeta. destruct (negb _); reflexivity.
Qed.

End Termination.
Section QuietSite.

Lemma quiet_site_page (c : Crawler) (req : http_Request) :
  Hrefs (RespInfo (PageFromResponse (L := Sample.lib) c 0 req
                     (Some (mkResponse (Ok "") ∅ 200 "HTTP/1.1")) 0)) = [].
Proof. vm_compute. reflexivity. Qed.

(** The link graph of the quiet site is empty. *)
Lemma quiet_site_links (cw : Crawler) (U : gset string) :
  AfterCrawlFn cw = None →
  links_within (L := Sample.lib) (fun _ => quiet_site) cw U.
Proof.
  intros Hafter i u page err _ Hpage link Hlink.
  unfold expansion_links in Hlink. rewrite Hafter in Hlink.
  unfold GetPage in Hpage.
  destruct (http_NewRequest (Lib := Sample.lib) "GET" u) as [req|e]; [|discriminate].
  destruct (bool_decide _); [|discriminate].
  cbn [Client_Do quiet_site time_Unix request_duration] in Hpage.
  injection Hpage as <- _.
  rewrite quiet_site_page in Hlink. apply elem_of_nil in Hlink. destruct Hlink.
Qed.

Lemma AddAllLinks_PageCount (links : list string) (c : Crawler) (n : Z) :
  AddAllLinks links (set_PageCount c n) = set_PageCount (AddAllLinks links c) n.
Proof.
  revert c. induction links as [|u links IH]; intros c; [reflexivity|].
  rewrite !AddAllLinks_cons. rewrite <- IH. reflexivity.
Qed.

Lemma FetchSites_expand_PageCount `{L : Lib} (startUrl : option url_URL)
    (links : list string) (c : Crawler) (n : Z) :
  FetchSites_expand startUrl links (set_PageCount c n)
  = set_PageCount (FetchSites_expand startUrl links c) n.
Proof.
  unfold FetchSites_expand. change (ScopeToDomain (set_PageCount c n)) with (ScopeToDomain c).
  destruct startUrl as [su|]; [destruct (ScopeToDomain c)|].
  - rewrite !AddLinksMatchingDomain_filter. apply AddAllLinks_PageCount.
  - apply AddAllLinks_PageCount.
  - apply AddAllLinks_PageCount.
Qed.

(** The page counter has no part in what an iteration does: with another
    count the iteration goes round again all the same, and leaves the same
    crawler up to the count. *)
Lemma FetchSites_body_PageCount `{L : Lib} (w : World) (startUrl : option url_URL)
    (first : bool) (c c' : Crawler) (first' : bool) (n : Z) :
  FetchSites_body w startUrl first c = inl (c', first') →
  ∃ n', FetchSites_body w startUrl first (set_PageCount c n)
        = inl (set_PageCount c' n', first').
Proof.
  unfold FetchSites_body.
  change (GetNextLink (range w) (set_PageCount c n)) with (GetNextLink (range w) c).
  destruct (match startUrl with Some su => _ | None => _ end) as [[selected found] first0].
  destruct found; cbn [negb]; [|discriminate].
  change (BeforeCrawlFn (set_PageCount c n)) with (BeforeCrawlFn c).
  destruct (match BeforeCrawlFn c with Some fn => _ | None => _ end) as [url [err|]];
    [discriminate|].
  change (Links_store url true (set_PageCount c n))
    with (set_PageCount (Links_store url true c) n).
  set (c1 := Links_store url true c).
  destruct (url_Parse url) as [nextUrl|e];
    [|intros [= <- <-]; exists n; reflexivity].
  change (IsValidScheme (set_PageCount c1 n) nextUrl) with (IsValidScheme c1 nextUrl).
  destruct (negb (IsValidScheme c1 nextUrl)); [intros [= <- <-]; exists n; reflexivity|].
  change (GetPage (set_PageCount c1 n) w url "GET") with (GetPage c1 w url "GET").
  destruct (GetPage c1 w url "GET") as [[[page|] err]| |]; try discriminate.
  change (SavePage w (set_PageCount c1 n) (Some page)) with (SavePage w c1 (Some page)).
  destruct (SavePage w c1 (Some page)); try discriminate.
  change (AfterCrawlFn (set_PageCount c1 n)) with (AfterCrawlFn c1).
  intros [= <- <-].
  exists ((PageCount (set_PageCount c1 n) + 1) mod 2 ^ 64)%Z.
  change (set_PageCount (set_PageCount c1 n) ?x) with (set_PageCount c1 x).
  rewrite (FetchSites_expand_PageCount startUrl _ c1).
  rewrite (FetchSites_expand_PageCount startUrl _ c1). reflexivity.
Qed.

Lemma FetchSites_seeded `{L : Lib} fuel (env : nat → World) (su : url_URL) (cw : Crawler) :
  FetchSites fuel env (Some su) cw
  = FetchSites_loop fuel env 0 (Some su)
      (negb (IsCrawled (AddAllLinks [url_String su] cw) (url_String su)))
      (AddAllLinks [url_String su] cw).
Proof. unfold FetchSites. cbv zeta. destruct (negb _); reflexivity. Qed.

Lemma stuck_crawler_loops (n : Z) :
  ∃ n', FetchSites_body (L := Sample.lib) quiet_site
          (Some (mkURL "http" "" "ex.com" "/" "" "top")) false (stuck_crawler n)
        = inl (stuck_crawler n', false).
Proof.
  apply (FetchSites_body_PageCount (L := Sample.lib) quiet_site _ false
           (stuck_crawler 0) (stuck_crawler 1) false n).
  vm_compute. reflexivity.
Qed.

Lemma stuck_crawler_forever fuel i (n : Z) :
  FetchSites_loop (L := Sample.lib) fuel (fun _ => quiet_site) i
    (Some (mkURL "http" "" "ex.com" "/" "" "top")) false (stuck_crawler n) = None.
Proof.
  revert i n. induction fuel as [|fuel IH]; intros i n; [reflexivity|].
  cbn [FetchSites_loop]. destruct (stuck_crawler_loops n) as [n' ->]. apply IH.
Qed.

(** The run of the stuck crawl: after the first iteration the crawler is
    the same up to the count of pages. *)
Lemma stuck_crawler_run i c (first : bool) :
  crawl_at (L := Sample.lib) (fun _ => quiet_site)
           (Some (mkURL "http" "" "ex.com" "/" "" "top"))
           (set_BeforeCrawlFn NewCrawler (Some strip_fragment)) i c first →
  (c = AddAllLinks ["http://ex.com/#top"]
         (set_BeforeCrawlFn NewCrawler (Some strip_fragment))
   ∧ first = true)
  ∨ ∃ n, c = stuck_crawler n ∧ first = false.
Proof.
  intros Hrun. induction Hrun as [|i c first c' first' Hrun IH Hbody].
  - left. split; vm_compute; reflexivity.
  - right. destruct IH as [[-> ->]|(n & -> & ->)].
    + exists 1%Z. vm_compute in Hbody. injection Hbody as <- <-. split; reflexivity.
    + destruct (stuck_crawler_loops n) as [n' Hloop].
      rewrite Hloop in Hbody. injection Hbody as <- <-. exists n'. split; reflexivity.
Qed.

End QuietSite.




(** ** More on Go strings *)

Section SplitFacts.

Implicit Types (s t w : string) (c : ascii).

Lemma Split_app s t c :
  GoStrings.Split (s ++ String c t) c = GoStrings.Split s c ++ GoStrings.Split t c.
Proof.
  induction s as [|a s IH]; simpl.
  - rewrite decide_True by reflexivity. reflexivity.
  - destruct (decide (a = c)) as [->|Hne].
    + rewrite IH. reflexivity.
    + rewrite IH. pose proof (Split_nonempty s c) as Hs.
      destruct (GoStrings.Split s c) as [|w ws]; [congruence|]. reflexivity.
Qed.

Lemma Split_free s c : GoStrings.hasByte s c = false → GoStrings.Split s c = [s].
Proof.
  induction s as [|a s IH]; simpl; [reflexivity|].
  destruct (decide (a = c)); [discriminate|]. intros H. rewrite (IH H). reflexivity.
Qed.

Lemma Split_pieces s c w : w ∈ GoStrings.Split s c → GoStrings.hasByte w c = false.
Proof.
  revert w. induction s as [|a s IH]; simpl; intros w Hw.
  - apply list_elem_of_singleton in Hw as ->. reflexivity.
  - destruct (decide (a = c)) as [->|Hne].
    + apply elem_of_cons in Hw as [->|Hw]; [reflexivity | apply IH, Hw].
    + pose proof (Split_nonempty s c) as Hs.
      destruct (GoStrings.Split s c) as [|w0 ws]; [congruence|].
      apply elem_of_cons in Hw as [->|Hw].
      * simpl. rewrite decide_False by exact Hne. apply IH, list_elem_of_here.
      * apply IH, list_elem_of_further, Hw.
Qed.

Lemma Split_nth_free s c i :
  GoStrings.hasByte (nth i (GoStrings.Split s c) "") c = false.
Proof.
  destruct (decide (i < length (GoStrings.Split s c))) as [Hi|Hi].
  - apply (Split_pieces s), list_elem_of_In, nth_In, Hi.
  - rewrite nth_overflow by lia. reflexivity.
Qed.

Lemma hasByte_app s t c :
  GoStrings.hasByte (s ++ t) c = GoStrings.hasByte s c || GoStrings.hasByte t c.
Proof.
  induction s as [|a s IH]; simpl; [reflexivity|].
  destruct (decide (a = c)); [reflexivity | exact IH].
Qed.

Lemma nth_app_last {A} (d : A) (l1 l2 : list A) k :
  k < length l2 →
  nth (length (l1 ++ l2) - S k) (l1 ++ l2) d = nth (length l2 - S k) l2 d.
Proof.
  intros Hk. rewrite length_app, app_nth2 by lia. f_equal. lia.
Qed.

(** [GetDomain] reads the last two pieces of the split host. *)
Lemma GetDomain_two_pieces host :
  2 ≤ length (GoStrings.Split host ".") →
  GetDomain host
  = (nth (length (GoStrings.Split host ".") - 2) (GoStrings.Split host ".") ""
     ++ "." ++ nth (length (GoStrings.Split host ".") - 1) (GoStrings.Split host ".") "")%string.
Proof. intros H. unfold GetDomain. cbv zeta. rewrite decide_True by exact H. reflexivity. Qed.

Lemma Split_dotted s t :
  GoStrings.Split (s ++ "." ++ t) "." = GoStrings.Split s "." ++ GoStrings.Split t ".".
Proof. apply (Split_app s t "."). Qed.

End SplitFacts.

(** X1.  [GetDomain] looks at the last two labels only: a host with two or
    more labels keeps its domain when labels are put in front of it, so a
    URL and any of its subdomains are in the same domain.  A host without a
    dot is its own domain, and the domain of a domain is that domain. *)
Theorem GetDomain_of_subdomain (sub a b host : string) :
  GetDomain (sub ++ "." ++ a ++ "." ++ b) = GetDomain (a ++ "." ++ b)
  ∧ (∀ u v, Host u = (sub ++ "." ++ a ++ "." ++ b)%string → Host v = (a ++ "." ++ b)%string →
            IsSameDomain u v = true)
  ∧ (GoStrings.hasByte host "." = false → GetDomain host = host)
  ∧ GetDomain (GetDomain host) = GetDomain host.
Proof.
  assert (GetDomain (sub ++ "." ++ a ++ "." ++ b) = GetDomain (a ++ "." ++ b)) as Hsub.
  { assert (2 ≤ length (GoStrings.Split (a ++ "." ++ b) ".")) as Hlen.
    { rewrite Split_dotted, length_app.
      pose proof (Split_nonempty a ".") as Ha. pose proof (Split_nonempty b ".") as Hb.
      destruct (GoStrings.Split a "."); [congruence|].
      destruct (GoStrings.Split b "."); [congruence|]. simpl. lia. }
    rewrite (GetDomain_two_pieces (a ++ "." ++ b)) by exact Hlen.
    rewrite GetDomain_two_pieces; rewrite (Split_dotted sub).
    - set (l1 := GoStrings.Split sub "."). set (l2 := GoStrings.Split (a ++ "." ++ b) ".") in *.
      rewrite (nth_app_last "" l1 l2 1), (nth_app_last "" l1 l2 0) by lia. reflexivity.
    - rewrite length_app. lia. }
  split; [exact Hsub|]. split; [|split].
  - intros u v Hu Hv. unfold IsSameDomain. rewrite Hu, Hv, Hsub.
    apply bool_decide_eq_true_2. reflexivity.
  - intros Hfree. unfold GetDomain. cbv zeta. rewrite (Split_free _ _ Hfree). reflexivity.
  - destruct (decide (2 ≤ length (GoStrings.Split host "."))) as [H2|H2].
    + rewrite (GetDomain_two_pieces host H2).
      set (x := nth _ _ _). set (y := nth _ _ _).
      assert (GoStrings.Split (x ++ "." ++ y) "." = [x; y]) as Hxy.
      { rewrite Split_dotted.
        rewrite (Split_free x), (Split_free y) by apply Split_nth_free. reflexivity. }
      unfold GetDomain at 1. cbv zeta. rewrite Hxy. reflexivity.
    + assert (GetDomain host = host) as Hown.
      { rewrite GetDomain_registrable_domain. unfold registrable_domain. cbv zeta.
        rewrite decide_True by lia. reflexivity. }
      rewrite Hown. exact Hown.
Qed.

Lemma GetDomain_of_subdomain_witness :
  IsSameDomain (mkURL "http" "" "www.shop.example.com" "/" "" "")
               (mkURL "https" "" "example.com" "/x" "" "") = true
  ∧ GetDomain "localhost" = "localhost".
Proof.
  destruct (GetDomain_of_subdomain "www.shop" "example" "com" "localhost")
    as (_ & Hsame & Hfree & _).
  split.
  - apply Hsame; reflexivity.
  - apply Hfree. reflexivity.
Defined.

(** ** Content types and inline styles *)

Section Styles.

Implicit Types (s t w style decl key value : string) (c : ascii).

Lemma Split_pieces_other s c c' w :
  w ∈ GoStrings.Split s c → GoStrings.hasByte s c' = false → GoStrings.hasByte w c' = false.
Proof.
  revert w. induction s as [|a s IH]; simpl; intros w Hw Hs.
  - apply list_elem_of_singleton in Hw as ->. reflexivity.
  - destruct (decide (a = c')) as [|Hne']; [discriminate|].
    destruct (decide (a = c)) as [->|Hne].
    + apply elem_of_cons in Hw as [->|Hw]; [reflexivity | apply IH; assumption].
    + pose proof (Split_nonempty s c) as Hnil.
      destruct (GoStrings.Split s c) as [|w0 ws]; [congruence|].
      apply elem_of_cons in Hw as [->|Hw].
      * simpl. rewrite decide_False by exact Hne'. apply IH; [apply list_elem_of_here | exact Hs].
      * apply IH; [apply list_elem_of_further, Hw | exact Hs].
Qed.

(** The step of the loop of [GetStylesCss] on one declaration. *)
Lemma GetStylesCss_app style decl :
  GoStrings.hasByte decl ";" = false →
  GetStylesCss (style ++ ";" ++ decl)
  = match GoStrings.Split decl ":" with
    | kv0 :: kv1 :: _ =>
        <[GoStrings.TrimSpace kv0 := GoStrings.TrimSpace kv1]> (GetStylesCss style)
    | _ => GetStylesCss style
    end.
Proof.
  intros Hdecl. unfold GetStylesCss. cbv zeta.
  change (style ++ ";" ++ decl)%string with (style ++ String ";" decl)%string.
  rewrite (Split_app style decl ";"), fold_left_app, (Split_free decl ";" Hdecl).
  reflexivity.
Qed.

Lemma GetStylesCss_declaration style key value :
  GoStrings.hasByte key ";" = false → GoStrings.hasByte value ";" = false →
  GoStrings.hasByte key ":" = false → GoStrings.hasByte value ":" = false →
  GetStylesCss (style ++ ";" ++ key ++ ":" ++ value)
  = <[GoStrings.TrimSpace key := GoStrings.TrimSpace value]> (GetStylesCss style).
Proof.
  intros Hk Hv Hk' Hv'. rewrite GetStylesCss_app.
  - change (key ++ ":" ++ value)%string with (key ++ String ":" value)%string.
    rewrite (Split_app key value ":"), (Split_free key ":" Hk'), (Split_free value ":" Hv').
    reflexivity.
  - change (key ++ ":" ++ value)%string with (key ++ String ":" value)%string.
    rewrite hasByte_app. simpl. rewrite Hk, Hv. reflexivity.
Qed.

Lemma GetStylesCss_without_colon style :
  GoStrings.hasByte style ":" = false → GetStylesCss style = ∅.
Proof.
  intros Hstyle. unfold GetStylesCss. cbv zeta.
  assert (∀ k, k ∈ GoStrings.Split style ";" → GoStrings.Split k ":" = [k]) as Hpieces.
  { intros k Hk. apply Split_free. exact (Split_pieces_other style ";" ":" k Hk Hstyle). }
  assert (∀ attrs : gmap string string,
            fold_left (fun attrs k =>
                         match GoStrings.Split k ":" with
                         | kv0 :: kv1 :: _ =>
                             <[GoStrings.TrimSpace kv0 := GoStrings.TrimSpace kv1]> attrs
                         | _ => attrs
                         end) (GoStrings.Split style ";") attrs = attrs) as Hfold.
  { induction (GoStrings.Split style ";") as [|k ks IH]; intros attrs; [reflexivity|].
    cbn [fold_left]. rewrite (Hpieces k) by apply list_elem_of_here.
    apply IH. intros k' Hk'. apply Hpieces, list_elem_of_further, Hk'. }
  apply Hfold.
Qed.

Lemma IsVisibleCss_lookup style :
  IsVisibleCss style
  = negb (bool_decide (GetStylesCss style !! "display" = Some "none")
          || bool_decide (GetStylesCss style !! "visibility" = Some "hidden")).
Proof.
  unfold IsVisibleCss. cbv zeta.
  destruct (GetStylesCss style !! "display") as [d|];
    destruct (GetStylesCss style !! "visibility") as [v|]; cbn [andb].
  - destruct (decide (d = "none")) as [->|Hd].
    + rewrite !bool_decide_eq_true_2 by reflexivity. reflexivity.
    + rewrite (bool_decide_eq_false_2 (d = "none")) by exact Hd.
      rewrite (bool_decide_eq_false_2 (Some d = Some "none")) by congruence.
      cbn [orb]. destruct (decide (v = "hidden")) as [->|Hv].
      * rewrite !bool_decide_eq_true_2 by reflexivity. reflexivity.
      * rewrite (bool_decide_eq_false_2 (v = "hidden")) by exact Hv.
        rewrite (bool_decide_eq_false_2 (Some v = Some "hidden")) by congruence. reflexivity.
  - destruct (decide (d = "none")) as [->|Hd].
    + rewrite !bool_decide_eq_true_2 by reflexivity. reflexivity.
    + rewrite (bool_decide_eq_false_2 (d = "none")) by exact Hd.
      rewrite (bool_decide_eq_false_2 (Some d = Some "none")) by congruence. reflexivity.
  - rewrite (bool_decide_eq_false_2 (None = Some "none")) by discriminate. cbn [orb].
    destruct (decide (v = "hidden")) as [->|Hv].
    + rewrite !bool_decide_eq_true_2 by reflexivity. reflexivity.
    + rewrite (bool_decide_eq_false_2 (v = "hidden")) by exact Hv.
      rewrite (bool_decide_eq_false_2 (Some v = Some "hidden")) by congruence. reflexivity.
  - reflexivity.
Qed.

End Styles.

(** X2.  [GetContentMime] never returns the empty string and never a string
    with a semicolon: it is the part of [Content-Type] before the first
    semicolon, and [text/html] when the header is absent, empty or starts
    with a semicolon. *)
Theorem GetContentMime_never_empty (header : Header) :
  GetContentMime header ≠ ""
  ∧ GoStrings.hasByte (GetContentMime header) ";" = false
  ∧ (header !! "Content-Type" = None → GetContentMime header = "text/html")
  ∧ (∀ params, Header_Get header "Content-Type" = (";" ++ params)%string →
       GetContentMime header = "text/html")
  ∧ (∀ mime params,
       mime ≠ "" → GoStrings.hasByte mime ";" = false →
       Header_Get header "Content-Type" = mime
       ∨ Header_Get header "Content-Type" = (mime ++ ";" ++ params)%string →
       GetContentMime header = mime).
Proof.
  unfold GetContentMime. cbv zeta.
  set (value := Header_Get header "Content-Type").
  split; [|split; [|split; [|split]]].
  - case_bool_decide as Hfirst; [discriminate | exact Hfirst].
  - case_bool_decide as Hfirst; [reflexivity | apply Split_nth_free].
  - intros Habsent. unfold value, Header_Get. rewrite Habsent. reflexivity.
  - intros params Hvalue. rewrite Hvalue. reflexivity.
  - intros mime params Hmime Hfree [Hvalue|Hvalue]; rewrite Hvalue.
    + rewrite (Split_free mime ";" Hfree). cbn [nth].
      rewrite bool_decide_eq_false_2 by exact Hmime. reflexivity.
    + change (mime ++ ";" ++ params)%string with (mime ++ String ";" params)%string.
      rewrite (Split_app mime params ";"), (Split_free mime ";" Hfree). cbn [nth app].
      rewrite bool_decide_eq_false_2 by exact Hmime. reflexivity.
Qed.

Lemma GetContentMime_never_empty_witness :
  GetContentMime {[ "Content-Type" := ["text/plain; charset=utf-8"] ]} = "text/plain"
  ∧ GetContentMime {[ "Server" := ["nginx"] ]} = "text/html".
Proof.
  split.
  - destruct (GetContentMime_never_empty {[ "Content-Type" := ["text/plain; charset=utf-8"] ]})
      as (_ & _ & _ & _ & Hmime).
    apply (Hmime "text/plain" " charset=utf-8"); [discriminate | reflexivity|].
    right. reflexivity.
  - destruct (GetContentMime_never_empty {[ "Server" := ["nginx"] ]}) as (_ & _ & Habsent & _).
    apply Habsent. reflexivity.
Defined.

(** ** White space *)

Section WhiteSpace.

Implicit Types (s t r p : string) (b : ascii).

Lemma append_assoc s t p : ((s ++ t) ++ p = s ++ (t ++ p))%string.
Proof.
  induction s as [|b s IH]; [reflexivity|].
  change (String b ((s ++ t) ++ p) = String b (s ++ (t ++ p)))%string. rewrite IH. reflexivity.
Qed.

Lemma append_empty_r s : (s ++ "")%string = s.
Proof.
  induction s as [|b s IH]; [reflexivity|].
  change (String b (s ++ "") = String b s)%string. rewrite IH. reflexivity.
Qed.

Lemma reverse_onto_app s acc :
  GoStrings.reverse_onto s acc = (GoStrings.reverse s ++ acc)%string.
Proof.
  unfold GoStrings.reverse. revert acc. induction s as [|b s IH]; intros acc; [reflexivity|].
  cbn [GoStrings.reverse_onto]. rewrite (IH (String b acc)), (IH (String b "")).
  rewrite append_assoc. reflexivity.
Qed.

Lemma reverse_cons b s :
  GoStrings.reverse (String b s) = (GoStrings.reverse s ++ String b "")%string.
Proof. unfold GoStrings.reverse at 1. cbn [GoStrings.reverse_onto]. apply reverse_onto_app. Qed.

Lemma reverse_app s t :
  GoStrings.reverse (s ++ t) = (GoStrings.reverse t ++ GoStrings.reverse s)%string.
Proof.
  induction s as [|b s IH].
  - change ("" ++ t)%string with t. rewrite append_empty_r. reflexivity.
  - change (String b s ++ t)%string with (String b (s ++ t))%string.
    rewrite !reverse_cons, IH, append_assoc. reflexivity.
Qed.

Lemma reverse_involutive s : GoStrings.reverse (GoStrings.reverse s) = s.
Proof.
  induction s as [|b s IH]; [reflexivity|].
  rewrite reverse_cons, reverse_app, IH. reflexivity.
Qed.

Lemma reverse_empty s : GoStrings.reverse s = "" → s = "".
Proof. intros H. rewrite <- (reverse_involutive s), H. reflexivity. Qed.

Lemma blank_app s t : blank s → blank t → blank (s ++ t).
Proof.
  intros Hs Ht. induction Hs as [|r s Hr Hs IH]; [exact Ht|].
  rewrite append_assoc. apply blank_rune; assumption.
Qed.

Lemma blank_one r : r ∈ white_space → blank r.
Proof.
  intros Hr. rewrite <- (append_empty_r r). apply blank_rune; [exact Hr | apply blank_empty].
Qed.

(** The runes of the table are those [TrimSpace] cuts off, from the front
    and from the end. *)
Lemma TrimLeft_rune r s : r ∈ white_space → GoStrings.TrimLeft (r ++ s) = GoStrings.TrimLeft s.
Proof.
  intros Hr. vm_compute in Hr.
  repeat (apply elem_of_cons in Hr as [->|Hr]; [reflexivity|]).
  apply elem_of_nil in Hr. destruct Hr.
Qed.

Lemma TrimRight_from_end_rune r t :
  r ∈ white_space →
  GoStrings.TrimRight_from_end (GoStrings.reverse r ++ t) = GoStrings.TrimRight_from_end t.
Proof.
  intros Hr. vm_compute in Hr.
  repeat (apply elem_of_cons in Hr as [->|Hr]; [reflexivity|]).
  apply elem_of_nil in Hr. destruct Hr.
Qed.

Lemma TrimLeft_blank p s : blank p → GoStrings.TrimLeft (p ++ s) = GoStrings.TrimLeft s.
Proof.
  intros Hp. induction Hp as [|r p Hr Hp IH]; [reflexivity|].
  rewrite append_assoc, (TrimLeft_rune r _ Hr). exact IH.
Qed.

Lemma TrimRight_from_end_blank p t :
  blank p →
  GoStrings.TrimRight_from_end (GoStrings.reverse p ++ t) = GoStrings.TrimRight_from_end t.
Proof.
  intros Hp. revert t. induction Hp as [|r p Hr Hp IH]; intros t; [reflexivity|].
  rewrite reverse_app, append_assoc, IH. apply TrimRight_from_end_rune, Hr.
Qed.

Lemma TrimRight_blank s p : blank p → GoStrings.TrimRight (s ++ p) = GoStrings.TrimRight s.
Proof.
  intros Hp. unfold GoStrings.TrimRight.
  rewrite reverse_app, (TrimRight_from_end_blank p _ Hp). reflexivity.
Qed.

(** Bytes that pass the tests of [TrimSpace] are runes of the table. *)
Lemma byte_value b n : (nat_of_ascii b =? n) = true → b = ascii_of_nat n.
Proof. intros H. apply Nat.eqb_eq in H. rewrite <- H, ascii_nat_embedding. reflexivity. Qed.

Ltac in_table :=
  solve [vm_compute; repeat first [apply list_elem_of_here | apply list_elem_of_further]].

Ltac split_tests :=
  repeat match goal with
         | H : (_ && _) = true |- _ => apply andb_true_iff in H as [? ?]
         | H : (_ || _) = true |- _ => apply orb_true_iff in H as [?|?]
         end;
  repeat match goal with
         | H : (nat_of_ascii _ =? _) = true |- _ => apply byte_value in H; subst
         end.

Lemma isSpace_rune b : GoStrings.isSpace b = true → String b "" ∈ white_space.
Proof.
  unfold GoStrings.isSpace. cbv zeta. intros H. split_tests; [in_table|].
  match goal with
  | Hlo : (9 <=? _) = true, Hhi : (_ <=? 13) = true |- _ => apply Nat.leb_le in Hlo, Hhi
  end.
  rewrite <- (ascii_nat_embedding b).
  assert (nat_of_ascii b ∈ seq 9 5) as Hn by (apply elem_of_seq; lia).
  simpl in Hn. repeat (apply elem_of_cons in Hn as [->|Hn]; [in_table|]).
  apply elem_of_nil in Hn. destruct Hn.
Qed.

Lemma isSpace2_rune b0 b1 :
  GoStrings.isSpace2 b0 b1 = true → String b0 (String b1 "") ∈ white_space.
Proof. unfold GoStrings.isSpace2. cbv zeta. intros H. split_tests; in_table. Qed.

Lemma isSpace3_rune b0 b1 b2 :
  GoStrings.isSpace3 b0 b1 b2 = true → String b0 (String b1 (String b2 "")) ∈ white_space.
Proof.
  unfold GoStrings.isSpace3. cbv zeta. intros H. split_tests; try in_table.
  match goal with
  | Hlo : (128 <=? _) = true, Hhi : (_ <=? 138) = true |- _ =>
      apply Nat.leb_le in Hlo, Hhi
  end.
  rewrite <- (ascii_nat_embedding b2).
  unfold white_space. apply elem_of_app. right. apply elem_of_app. left.
  apply (list_elem_of_fmap_2 (fun n => utf8 [226; 128; n])). apply elem_of_seq. lia.
Qed.

(** What [TrimLeft] cuts off is white space and nothing else, and it cuts
    all of it. *)
Lemma TrimLeft_cut s :
  ∃ p, blank p ∧ s = (p ++ GoStrings.TrimLeft s)%string
       ∧ GoStrings.TrimLeft (GoStrings.TrimLeft s) = GoStrings.TrimLeft s.
Proof.
  assert (∀ n s, String.length s < n →
            ∃ p, blank p ∧ s = (p ++ GoStrings.TrimLeft s)%string
                 ∧ GoStrings.TrimLeft (GoStrings.TrimLeft s) = GoStrings.TrimLeft s) as H.
  { clear s. induction n as [|n IH]; intros s Hlen; [lia|].
    assert (∀ r t, r ∈ white_space → String.length t < n →
              GoStrings.TrimLeft t = GoStrings.TrimLeft (r ++ t) →
              ∃ p, blank p ∧ (r ++ t)%string = (p ++ GoStrings.TrimLeft (r ++ t))%string
                   ∧ GoStrings.TrimLeft (GoStrings.TrimLeft (r ++ t))
                     = GoStrings.TrimLeft (r ++ t)) as Hstep.
    { intros r t Hr Ht <-. destruct (IH t Ht) as (p & Hp & Heq & Hidem).
      exists (r ++ p)%string. split; [apply blank_rune; assumption|]. split; [|exact Hidem].
      rewrite append_assoc, <- Heq. reflexivity. }
    assert (∀ t, GoStrings.TrimLeft t = t →
              ∃ p, blank p ∧ t = (p ++ GoStrings.TrimLeft t)%string
                   ∧ GoStrings.TrimLeft (GoStrings.TrimLeft t) = GoStrings.TrimLeft t) as Hstop.
    { intros t Ht. exists "". rewrite !Ht. split; [apply blank_empty|]. split; reflexivity. }
    destruct s as [|b0 s1]; [apply Hstop; reflexivity|].
    destruct (GoStrings.isSpace b0) eqn:H0.
    { apply (Hstep (String b0 "") s1 (isSpace_rune b0 H0)); [simpl in Hlen; lia|].
      change (String b0 "" ++ s1)%string with (String b0 s1).
      simpl. rewrite H0. reflexivity. }
    destruct s1 as [|b1 s2]; [apply Hstop; simpl; rewrite H0; reflexivity|].
    destruct (GoStrings.isSpace2 b0 b1) eqn:H1.
    { apply (Hstep (String b0 (String b1 "")) s2 (isSpace2_rune b0 b1 H1));
        [simpl in Hlen; lia|].
      change (String b0 (String b1 "") ++ s2)%string with (String b0 (String b1 s2)).
      simpl. rewrite H0, H1. reflexivity. }
    destruct s2 as [|b2 s3]; [apply Hstop; simpl; rewrite H0, H1; reflexivity|].
    destruct (GoStrings.isSpace3 b0 b1 b2) eqn:H2.
    { apply (Hstep (String b0 (String b1 (String b2 ""))) s3 (isSpace3_rune b0 b1 b2 H2));
        [simpl in Hlen; lia|].
      change (String b0 (String b1 (String b2 "")) ++ s3)%string
        with (String b0 (String b1 (String b2 s3))).
      simpl. rewrite H0, H1, H2. reflexivity. }
    apply Hstop. simpl. rewrite H0, H1, H2. reflexivity. }
  apply (H (S (String.length s))). lia.
Qed.

(** The same from the end. *)
Lemma TrimRight_from_end_cut t :
  ∃ p, blank p ∧ t = (GoStrings.reverse p ++ GoStrings.TrimRight_from_end t)%string.
Proof.
  assert (∀ n t, String.length t < n →
            ∃ p, blank p
                 ∧ t = (GoStrings.reverse p ++ GoStrings.TrimRight_from_end t)%string) as H.
  { clear t. induction n as [|n IH]; intros t Hlen; [lia|].
    assert (∀ r t', r ∈ white_space → String.length t' < n →
              GoStrings.TrimRight_from_end t'
              = GoStrings.TrimRight_from_end (GoStrings.reverse r ++ t') →
              ∃ p, blank p
                   ∧ (GoStrings.reverse r ++ t')%string
                     = (GoStrings.reverse p
                        ++ GoStrings.TrimRight_from_end (GoStrings.reverse r ++ t'))%string)
      as Hstep.
    { intros r t' Hr Ht <-. destruct (IH t' Ht) as (p & Hp & Heq).
      exists (p ++ r)%string. split; [apply blank_app; [exact Hp | apply blank_one, Hr]|].
      rewrite reverse_app, append_assoc, <- Heq. reflexivity. }
    assert (∀ t', GoStrings.TrimRight_from_end t' = t' →
              ∃ p, blank p
                   ∧ t' = (GoStrings.reverse p ++ GoStrings.TrimRight_from_end t')%string)
      as Hstop.
    { intros t' Ht. exists "". rewrite Ht. split; [apply blank_empty | reflexivity]. }
    destruct t as [|b2 r1]; [apply Hstop; reflexivity|].
    destruct (GoStrings.isSpace b2) eqn:H0.
    { apply (Hstep (String b2 "") r1 (isSpace_rune b2 H0)); [simpl in Hlen; lia|].
      change (GoStrings.reverse (String b2 "") ++ r1)%string with (String b2 r1).
      simpl. rewrite H0. reflexivity. }
    destruct r1 as [|b1 r2]; [apply Hstop; simpl; rewrite H0; reflexivity|].
    destruct (GoStrings.isSpace2 b1 b2) eqn:H1.
    { apply (Hstep (String b1 (String b2 "")) r2 (isSpace2_rune b1 b2 H1));
        [simpl in Hlen; lia|].
      change (GoStrings.reverse (String b1 (String b2 "")) ++ r2)%string
        with (String b2 (String b1 r2)).
      simpl. rewrite H0, H1. reflexivity. }
    destruct r2 as [|b0 r3]; [apply Hstop; simpl; rewrite H0, H1; reflexivity|].
    destruct (GoStrings.isSpace3 b0 b1 b2) eqn:H2.
    { apply (Hstep (String b0 (String b1 (String b2 ""))) r3 (isSpace3_rune b0 b1 b2 H2));
        [simpl in Hlen; lia|].
      change (GoStrings.reverse (String b0 (String b1 (String b2 ""))) ++ r3)%string
        with (String b2 (String b1 (String b0 r3))).
      simpl. rewrite H0, H1, H2. reflexivity. }
    apply Hstop. simpl. rewrite H0, H1, H2. reflexivity. }
  apply (H (S (String.length t))). lia.
Qed.

Lemma TrimSpace_blank s : blank s → GoStrings.TrimSpace s = "".
Proof.
  intros Hs. unfold GoStrings.TrimSpace.
  rewrite <- (append_empty_r s), (TrimLeft_blank s "" Hs). reflexivity.
Qed.

(** [TrimSpace] gives the empty string for the strings of white space and
    for no other. *)
Lemma TrimSpace_empty s : GoStrings.TrimSpace s = "" ↔ blank s.
Proof.
  split; [|apply TrimSpace_blank].
  unfold GoStrings.TrimSpace, GoStrings.TrimRight. intros H. apply reverse_empty in H.
  destruct (TrimLeft_cut s) as (p & Hp & Hs & Hidem).
  destruct (TrimRight_from_end_cut (GoStrings.reverse (GoStrings.TrimLeft s)))
    as (q & Hq & Ht).
  rewrite H, append_empty_r in Ht. apply (f_equal GoStrings.reverse) in Ht.
  rewrite !reverse_involutive in Ht.
  assert (GoStrings.TrimLeft s = "") as Hempty.
  { rewrite <- Hidem, Ht, <- (append_empty_r q), (TrimLeft_blank q "" Hq). reflexivity. }
  rewrite Hs, Hempty, append_empty_r. exact Hp.
Qed.

(** White space around a word that begins and ends with a byte of the ASCII
    range that is no white space is cut off. *)
Lemma TrimSpace_around p q word :
  blank p → blank q →
  GoStrings.TrimLeft word = word → GoStrings.TrimRight word = word →
  GoStrings.TrimLeft (word ++ q) = (word ++ q)%string →
  GoStrings.TrimSpace (p ++ word ++ q) = word.
Proof.
  intros Hp Hq Hleft Hright Hleft'. unfold GoStrings.TrimSpace.
  rewrite (TrimLeft_blank p _ Hp), Hleft', (TrimRight_blank word q Hq). exact Hright.
Qed.

End WhiteSpace.

Lemma blank_hasByte p c :
  blank p → c = ";"%char ∨ c = ":"%char → GoStrings.hasByte p c = false.
Proof.
  intros Hp Hc. induction Hp as [|r p Hr Hp IH]; [reflexivity|].
  rewrite hasByte_app, IH, orb_false_r. clear IH Hp.
  vm_compute in Hr.
  repeat (apply elem_of_cons in Hr as [->|Hr]; [destruct Hc as [-> | ->]; reflexivity|]).
  apply elem_of_nil in Hr. destruct Hr.
Qed.

Lemma GetStylesCss_first key value :
  GoStrings.hasByte key ";" = false → GoStrings.hasByte value ";" = false →
  GoStrings.hasByte key ":" = false → GoStrings.hasByte value ":" = false →
  GetStylesCss (key ++ ":" ++ value)
  = {[ GoStrings.TrimSpace key := GoStrings.TrimSpace value ]}.
Proof.
  intros Hk Hv Hk' Hv'. unfold GetStylesCss. cbv zeta.
  change (key ++ ":" ++ value)%string with (key ++ String ":" value)%string.
  rewrite (Split_free _ ";").
  - cbn [fold_left].
    rewrite (Split_app key value ":"), (Split_free key ":" Hk'), (Split_free value ":" Hv').
    reflexivity.
  - rewrite hasByte_app. simpl. rewrite Hk, Hv. reflexivity.
Qed.

(** X3.  In an inline style every piece between semicolons that holds a
    colon sets one property: the key and the value are what is left of
    the text before the first colon and of the text up to the second when
    the white space around them is cut off (the white space of Unicode, not
    of ASCII only).  A declaration replaces an earlier one of the same
    property and leaves every other property as it is; a piece without a
    colon declares nothing.  So the last declaration of [display] or
    [visibility] is the one that counts: [display:none] and
    [visibility:hidden] hide an element whatever was declared before, a
    declaration of another property changes nothing about it, and a style
    without a colon is visible. *)
Theorem GetStylesCss_last_declaration_wins (style key value rest : string) :
  GoStrings.hasByte key ";" = false → GoStrings.hasByte value ";" = false →
  GoStrings.hasByte key ":" = false → GoStrings.hasByte value ":" = false →
  GoStrings.hasByte rest ";" = false →
  GetStylesCss (key ++ ":" ++ value)
  = {[ GoStrings.TrimSpace key := GoStrings.TrimSpace value ]}
  ∧ GetStylesCss (style ++ ";" ++ key ++ ":" ++ value)
    = <[GoStrings.TrimSpace key := GoStrings.TrimSpace value]> (GetStylesCss style)
  ∧ GetStylesCss (style ++ ";" ++ key ++ ":" ++ value ++ ":" ++ rest)
    = <[GoStrings.TrimSpace key := GoStrings.TrimSpace value]> (GetStylesCss style)
  ∧ GetStylesCss (style ++ ";" ++ key) = GetStylesCss style
  ∧ (∀ p q p' q', blank p → blank q → blank p' → blank q' →
       IsVisibleCss (style ++ ";" ++ (p ++ "display" ++ q) ++ ":" ++ (p' ++ "none" ++ q'))
       = false
       ∧ IsVisibleCss (style ++ ";" ++ (p ++ "visibility" ++ q) ++ ":"
                       ++ (p' ++ "hidden" ++ q'))
         = false)
  ∧ (GoStrings.TrimSpace key ≠ "display" → GoStrings.TrimSpace key ≠ "visibility" →
     IsVisibleCss (style ++ ";" ++ key ++ ":" ++ value) = IsVisibleCss style)
  ∧ (GoStrings.hasByte style ":" = false → IsVisibleCss style = true).
Proof.
  intros Hk Hv Hk' Hv' Hrest.
  split; [apply GetStylesCss_first; assumption|].
  split; [apply GetStylesCss_declaration; assumption|].
  split; [|split; [|split; [|split]]].
  - rewrite GetStylesCss_app.
    + change (key ++ ":" ++ value ++ ":" ++ rest)%string
        with (key ++ String ":" (value ++ String ":" rest))%string.
      rewrite (Split_app key _ ":"), (Split_app value rest ":").
      rewrite (Split_free key ":" Hk'), (Split_free value ":" Hv').
      reflexivity.
    + change (key ++ ":" ++ value ++ ":" ++ rest)%string
        with (key ++ String ":" (value ++ String ":" rest))%string.
      rewrite !hasByte_app. simpl. rewrite hasByte_app. simpl.
      rewrite Hk, Hv, Hrest. reflexivity.
  - rewrite (GetStylesCss_app style key Hk), (Split_free key ":" Hk'). reflexivity.
  - intros p q p' q' Hp Hq Hp' Hq'.
    assert (∀ c word, c = ";"%char ∨ c = ":"%char → GoStrings.hasByte word c = false →
              GoStrings.hasByte (p ++ word ++ q) c = false
              ∧ GoStrings.hasByte (p' ++ word ++ q') c = false) as Hfree.
    { intros c word Hc Hword. rewrite !hasByte_app, Hword.
      rewrite (blank_hasByte p c Hp Hc), (blank_hasByte q c Hq Hc).
      rewrite (blank_hasByte p' c Hp' Hc), (blank_hasByte q' c Hq' Hc). split; reflexivity. }
    split; rewrite IsVisibleCss_lookup, GetStylesCss_declaration;
      try (apply Hfree; [tauto | reflexivity]).
    + rewrite (TrimSpace_around p q "display" Hp Hq), (TrimSpace_around p' q' "none" Hp' Hq')
        by reflexivity.
      rewrite lookup_insert_eq, bool_decide_eq_true_2 by reflexivity. reflexivity.
    + rewrite (TrimSpace_around p q "visibility" Hp Hq),
        (TrimSpace_around p' q' "hidden" Hp' Hq') by reflexivity.
      rewrite lookup_insert_eq, (bool_decide_eq_true_2 (Some "hidden" = Some "hidden"))
        by reflexivity.
      rewrite orb_true_r. reflexivity.
  - intros Hdisplay Hvisibility.
    rewrite !IsVisibleCss_lookup, GetStylesCss_declaration by assumption.
    rewrite !lookup_insert_ne by assumption. reflexivity.
  - intros Hstyle. rewrite IsVisibleCss_lookup, (GetStylesCss_without_colon style Hstyle).
    reflexivity.
Qed.

Lemma GetStylesCss_last_declaration_wins_witness :
  GetStylesCss "display:none; display : block" !! "display" = Some "block"
  ∧ IsVisibleCss "display:none;color:red" = false
  ∧ IsVisibleCss ("color:red;display:none" ++ utf8 [194; 160]) = false
  ∧ IsVisibleCss "hidden" = true.
Proof.
  destruct (GetStylesCss_last_declaration_wins "display:none" " display " " block" ""
              eq_refl eq_refl eq_refl eq_refl eq_refl) as (_ & Hlast & _).
  destruct (GetStylesCss_last_declaration_wins "display:none" "color" "red" ""
              eq_refl eq_refl eq_refl eq_refl eq_refl) as (_ & _ & _ & _ & _ & Hother & _).
  destruct (GetStylesCss_last_declaration_wins "color:red" "" "" ""
              eq_refl eq_refl eq_refl eq_refl eq_refl) as (_ & _ & _ & _ & Hnone & _).
  destruct (GetStylesCss_last_declaration_wins "hidden" "" "" ""
              eq_refl eq_refl eq_refl eq_refl eq_refl) as (_ & _ & _ & _ & _ & _ & Hplain).
  split; [|split; [|split]].
  - change ("display:none; display : block") with ("display:none" ++ ";" ++ " display " ++ ":" ++ " block")%string.
    rewrite Hlast. apply lookup_insert_eq.
  - change ("display:none;color:red") with ("display:none" ++ ";" ++ "color" ++ ":" ++ "red")%string.
    rewrite Hother; [reflexivity | discriminate | discriminate].
  - apply (Hnone "" "" "" (utf8 [194; 160])); try apply blank_empty.
    apply blank_one. vm_compute. repeat first [apply list_elem_of_here | apply list_elem_of_further].
  - apply Hplain. reflexivity.
Defined.

(** ** More on the frontier *)

Section FrontierOps.
Context `{L : Lib}.

Implicit Types (cw : Crawler) (links : list string) (u k : string).

Lemma AddCrawledLinks_cons u links cw :
  AddCrawledLinks (u :: links) cw = AddCrawledLinks links (Links_store u true cw).
Proof. reflexivity. Qed.

Lemma AddCrawledLinks_lookup links cw k :
  Links (AddCrawledLinks links cw) !! k
  = if bool_decide (k ∈ links) then Some true else Links cw !! k.
Proof.
  revert cw. induction links as [|u links IH]; intros cw; [reflexivity|].
  rewrite AddCrawledLinks_cons, IH. cbn [Links Links_store set_Links].
  rewrite lookup_insert.
  destruct (decide (u = k)) as [->|Hne].
  - rewrite (bool_decide_eq_true_2 (k ∈ k :: links)) by apply list_elem_of_here.
    destruct (bool_decide (k ∈ links)); reflexivity.
  - apply (f_equal (fun b : bool => if b then Some true else Links cw !! k)).
    apply bool_decide_ext. rewrite elem_of_cons. intuition congruence.
Qed.

Lemma AddCrawledLinks_frame links cw :
  AddCrawledLinks links cw = set_Links cw (Links (AddCrawledLinks links cw)).
Proof.
  revert cw. induction links as [|u links IH]; intros cw.
  - destruct cw; reflexivity.
  - rewrite AddCrawledLinks_cons, IH at 1. reflexivity.
Qed.

Lemma set_Links_eq cw (m m' : gmap string bool) : m = m' → set_Links cw m = set_Links cw m'.
Proof. intros ->. reflexivity. Qed.

(** Both operations write to [Links] only, also one after the other. *)
Lemma AddAllLinks_frame_from cw c links :
  c = set_Links cw (Links c) →
  AddAllLinks links c = set_Links cw (Links (AddAllLinks links c)).
Proof.
  intros Hc. etransitivity; [apply (AddAllLinks_frame c links)|].
  generalize (Links (AddAllLinks links c)). intros m. rewrite Hc. reflexivity.
Qed.

Lemma AddCrawledLinks_frame_from cw c links :
  c = set_Links cw (Links c) →
  AddCrawledLinks links c = set_Links cw (Links (AddCrawledLinks links c)).
Proof.
  intros Hc. etransitivity; [apply (AddCrawledLinks_frame links c)|].
  generalize (Links (AddCrawledLinks links c)). intros m. rewrite Hc. reflexivity.
Qed.

End FrontierOps.

(** X4.  [AddCrawledLinks] marks every URL of the list visited, a new one
    and one the frontier held as unvisited alike, and leaves the other
    entries as they are.  It commutes with [AddAllLinks]: marking and then
    discovering, or discovering and then marking, leave the same crawler,
    so a later discovery never takes a mark away. *)
Theorem AddCrawledLinks_marks_and_commutes (cw : Crawler) (crawled links : list string) :
  (∀ u, u ∈ crawled → IsCrawled (AddCrawledLinks crawled cw) u = true)
  ∧ (∀ u, u ∉ crawled → Links (AddCrawledLinks crawled cw) !! u = Links cw !! u)
  ∧ AddCrawledLinks crawled (AddAllLinks links cw)
    = AddAllLinks links (AddCrawledLinks crawled cw)
  ∧ (∀ u, u ∈ crawled →
       IsCrawled (AddAllLinks links (AddCrawledLinks crawled cw)) u = true).
Proof.
  assert (∀ u, u ∈ crawled → IsCrawled (AddCrawledLinks crawled cw) u = true) as Hmark.
  { intros u Hu. apply IsCrawled_true. rewrite AddCrawledLinks_lookup.
    rewrite bool_decide_eq_true_2 by exact Hu. reflexivity. }
  assert (AddCrawledLinks crawled (AddAllLinks links cw)
          = AddAllLinks links (AddCrawledLinks crawled cw)) as Hcomm.
  { rewrite (AddCrawledLinks_frame_from cw (AddAllLinks links cw) crawled)
      by apply AddAllLinks_frame.
    rewrite (AddAllLinks_frame_from cw (AddCrawledLinks crawled cw) links)
      by apply AddCrawledLinks_frame.
    apply set_Links_eq, map_eq. intros k.
    rewrite AddCrawledLinks_lookup, !AddAllLinks_lookup. unfold discovered.
    rewrite AddCrawledLinks_lookup.
    destruct (bool_decide (k ∈ crawled)); [|reflexivity].
    reflexivity. }
  split; [exact Hmark|]. split; [|split; [exact Hcomm|]].
  - intros u Hu. rewrite AddCrawledLinks_lookup.
    rewrite bool_decide_eq_false_2 by exact Hu. reflexivity.
  - intros u Hu. apply IsCrawled_true. rewrite AddAllLinks_lookup. unfold discovered.
    pose proof (Hmark u Hu) as Hmarked. apply IsCrawled_true in Hmarked.
    rewrite Hmarked. reflexivity.
Qed.

Lemma AddCrawledLinks_marks_and_commutes_witness :
  let cw := AddAllLinks ["http://ex.com/a"] NewCrawler in
  IsCrawled cw "http://ex.com/a" = false
  ∧ IsCrawled (AddCrawledLinks ["http://ex.com/a"] cw) "http://ex.com/a" = true
  ∧ Links (AddCrawledLinks ["http://ex.com/a"] cw) !! "http://ex.com/b" = None
  ∧ IsCrawled (AddAllLinks ["http://ex.com/a"] (AddCrawledLinks ["http://ex.com/a"] cw))
      "http://ex.com/a" = true.
Proof.
  intros cw.
  destruct (AddCrawledLinks_marks_and_commutes cw ["http://ex.com/a"] ["http://ex.com/a"])
    as (Hmark & Hother & _ & Hlater).
  split; [reflexivity|]. split; [|split].
  - apply Hmark, list_elem_of_here.
  - rewrite Hother; [reflexivity|]. intros Hin.
    apply list_elem_of_singleton in Hin. discriminate Hin.
  - apply Hlater, list_elem_of_here.
Defined.

(** X5.  [GetNextLink] returns [ok = true] exactly when the frontier holds an
    unvisited entry, and the URL it returns is then one of them; when there
    is none it returns the empty string and [false].  This holds for every
    order in which the [range] over the map runs. *)
Theorem GetNextLink_returns_unvisited (order : RangeOrder) (c : Crawler) :
  (snd (GetNextLink order c) = true ↔ ∃ k, Links c !! k = Some false)
  ∧ (snd (GetNextLink order c) = true →
       Links c !! fst (GetNextLink order c) = Some false)
  ∧ (snd (GetNextLink order c) = false → GetNextLink order c = ("", false)).
Proof.
  destruct (GetNextLink order c) as [u ok] eqn:Hnext. cbn [fst snd].
  split; [|split].
  - split.
    + intros ->. exists u. exact (GetNextLink_found order c u Hnext).
    + intros [k Hk]. destruct ok; [reflexivity|].
      exfalso. exact (GetNextLink_none order c u Hnext k Hk).
  - intros ->. exact (GetNextLink_found order c u Hnext).
  - intros ->. rewrite <- Hnext. apply GetNextLink_exhausted.
    exact (GetNextLink_none order c u Hnext).
Qed.

Lemma GetNextLink_returns_unvisited_witness :
  let c := AddCrawledLinks ["http://ex.com/a"]
             (AddAllLinks ["http://ex.com/a"; "http://ex.com/b"] NewCrawler) in
  GetNextLink Sample.in_order c = ("http://ex.com/b", true)
  ∧ GetNextLink Sample.in_order (AddCrawledLinks ["http://ex.com/b"] c) = ("", false).
Proof.
  intros c.
  destruct (GetNextLink_returns_unvisited Sample.in_order c) as (Hsome & Hfound & _).
  destruct (GetNextLink_returns_unvisited Sample.in_order
              (AddCrawledLinks ["http://ex.com/b"] c)) as (_ & _ & Hnone).
  split.
  - reflexivity.
  - apply Hnone. reflexivity.
Defined.

Section Pruning.
Context `{L : Lib}.

Implicit Types (cw : Crawler) (k : string).

Lemma prune_fold_frame (baseUrl : url_URL) (entries : list (string * bool)) cw :
  fold_left (prune_step baseUrl) entries cw
  = set_Links cw (Links (fold_left (prune_step baseUrl) entries cw)).
Proof.
  revert cw. induction entries as [|kv entries IH]; intros cw.
  - destruct cw; reflexivity.
  - cbn [fold_left]. etransitivity; [apply IH|].
    generalize (Links (fold_left (prune_step baseUrl) entries (prune_step baseUrl cw kv))).
    intros m. unfold prune_step. destruct (in_scope baseUrl kv.1); reflexivity.
Qed.

Lemma RemoveLinksNotSameHost_frame (order : RangeOrder) (baseUrl : url_URL) cw :
  RemoveLinksNotSameHost order baseUrl cw
  = set_Links cw (Links (RemoveLinksNotSameHost order baseUrl cw)).
Proof. rewrite RemoveLinksNotSameHost_fold. apply prune_fold_frame. Qed.

Lemma set_Links_same cw : set_Links cw (Links cw) = cw.
Proof. destruct cw; reflexivity. Qed.

End Pruning.

(** X6.  What [RemoveLinksNotSameHost] leaves does not depend on the order
    in which Go runs the [range] over the map; pruning twice is pruning
    once; a frontier whose keys are all in scope is left as it is.  After
    pruning every key is in the scope, and scoped expansion
    ([AddLinksMatchingDomain] with the same URL) keeps it so. *)
Theorem RemoveLinksNotSameHost_order_independent
    (L : Lib) (order order' : RangeOrder) (baseUrl : url_URL) (cw : Crawler)
    (links : list string) :
  let pruned := RemoveLinksNotSameHost order baseUrl cw in
  RemoveLinksNotSameHost order' baseUrl cw = pruned
  ∧ RemoveLinksNotSameHost order' baseUrl pruned = pruned
  ∧ (∀ k, is_Some (Links pruned !! k) → in_scope baseUrl k = true)
  ∧ (∀ k, is_Some (Links (AddLinksMatchingDomain links baseUrl pruned) !! k) →
          in_scope baseUrl k = true)
  ∧ ((∀ k, is_Some (Links cw !! k) → in_scope baseUrl k = true) → pruned = cw).
Proof.
  intros pruned.
  assert (∀ k, is_Some (Links pruned !! k) → in_scope baseUrl k = true) as Hscope.
  { intros k [v Hv]. unfold pruned in Hv. rewrite RemoveLinksNotSameHost_lookup in Hv.
    destruct (in_scope baseUrl k); [reflexivity | discriminate]. }
  split; [|split; [|split; [exact Hscope|split]]].
  - unfold pruned. rewrite (RemoveLinksNotSameHost_frame order'),
      (RemoveLinksNotSameHost_frame order baseUrl cw).
    apply set_Links_eq, map_eq. intros k. rewrite !RemoveLinksNotSameHost_lookup. reflexivity.
  - rewrite (RemoveLinksNotSameHost_frame order' baseUrl pruned).
    rewrite <- (set_Links_same pruned) at 3. apply set_Links_eq, map_eq. intros k.
    rewrite RemoveLinksNotSameHost_lookup.
    destruct (in_scope baseUrl k) eqn:Hk; [reflexivity|].
    destruct (Links pruned !! k) eqn:Hv; [|reflexivity].
    rewrite Hscope in Hk by eauto. discriminate.
  - intros k [v Hv]. rewrite AddLinksMatchingDomain_filter, AddAllLinks_lookup in Hv.
    unfold discovered in Hv. destruct (Links pruned !! k) eqn:Hk; [apply Hscope; eauto|].
    case_bool_decide as Hin; [|discriminate].
    apply list_elem_of_In, filter_In in Hin as [_ Hin]. exact Hin.
  - intros Hall. unfold pruned. rewrite RemoveLinksNotSameHost_frame.
    rewrite <- (set_Links_same cw) at 3. apply set_Links_eq, map_eq. intros k.
    rewrite RemoveLinksNotSameHost_lookup.
    destruct (in_scope baseUrl k) eqn:Hk; [reflexivity|].
    destruct (Links cw !! k) eqn:Hv; [|reflexivity].
    rewrite Hall in Hk by eauto. discriminate.
Qed.

Lemma RemoveLinksNotSameHost_order_independent_witness :
  let scope := mkURL "http" "" "example.com" "/" "" "" in
  let cw := AddAllLinks ["http://example.com/b"; "http://www.example.com/c"] NewCrawler in
  RemoveLinksNotSameHost (L := Sample.lib) Sample.in_order scope cw = cw
  ∧ in_scope (L := Sample.lib) scope "http://www.example.com/c" = true.
Proof.
  intros scope cw.
  destruct (RemoveLinksNotSameHost_order_independent Sample.lib Sample.in_order
              Sample.in_order scope cw []) as (_ & _ & Hscope & _ & Hsame).
  assert (RemoveLinksNotSameHost (L := Sample.lib) Sample.in_order scope cw = cw) as Heq.
  { apply Hsame. intros k [v Hv].
    assert (k = "http://example.com/b" ∨ k = "http://www.example.com/c") as [-> | ->].
    { destruct (decide (k = "http://example.com/b")) as [|Hb]; [tauto|].
      destruct (decide (k = "http://www.example.com/c")) as [|Hc]; [tauto|].
      exfalso. unfold cw in Hv. rewrite AddAllLinks_lookup in Hv. unfold discovered in Hv.
      change (Links NewCrawler) with (∅ : gmap string bool) in Hv.
      rewrite lookup_empty in Hv. rewrite bool_decide_eq_false_2 in Hv; [discriminate|].
      intros Hin. apply elem_of_cons in Hin as [Hin|Hin]; [contradiction|].
      apply list_elem_of_singleton in Hin. contradiction. }
    - reflexivity.
    - reflexivity. }
  split; [exact Heq|]. apply Hscope. rewrite Heq. exists false. reflexivity.
Defined.

(** ** More on the extractor and the page assembly *)

Section Hyperlinks.
Context `{L : Lib}.

Implicit Types (s : Node) (sel : list Node) (hrefs : list string).
Implicit Types (baseUrl : url_URL) (removeInvisibles : bool).

Lemma GetHrefs_each_elem baseUrl removeInvisibles hrefs s x :
  x ∈ GetHrefs_each baseUrl removeInvisibles hrefs s
  ↔ x ∈ hrefs ∨ recorded_href baseUrl removeInvisibles s = Some x.
Proof.
  unfold GetHrefs_each, recorded_href.
  destruct (Attr s "href") as [href|]; [|intuition discriminate].
  destruct (match Attr s "style" with Some _ => _ | None => _ end);
    [intuition discriminate|].
  destruct (contains hrefs (ToAbsUrl baseUrl href)) eqn:Hc; cbn [negb].
  - apply contains_elem_of in Hc. split; [tauto|]. intros [Hx|[= <-]]; assumption.
  - rewrite elem_of_app, list_elem_of_singleton. split.
    + intros [Hx| ->]; [left; exact Hx | right; reflexivity].
    + intros [Hx|[= <-]]; [left; exact Hx | right; reflexivity].
Qed.

Lemma GetHrefs_each_NoDup baseUrl removeInvisibles hrefs s :
  NoDup hrefs → NoDup (GetHrefs_each baseUrl removeInvisibles hrefs s).
Proof.
  intros Hnd. unfold GetHrefs_each.
  destruct (Attr s "href") as [href|]; [|exact Hnd].
  destruct (match Attr s "style" with Some _ => _ | None => _ end); [exact Hnd|].
  destruct (contains hrefs (ToAbsUrl baseUrl href)) eqn:Hc; cbn [negb]; [exact Hnd|].
  apply NoDup_app. split; [exact Hnd|]. split; [|apply NoDup_singleton].
  intros x Hx Hx'. apply list_elem_of_singleton in Hx' as ->.
  apply contains_elem_of in Hx. congruence.
Qed.

Lemma Each_GetHrefs_spec baseUrl removeInvisibles sel hrefs :
  NoDup hrefs →
  NoDup (Each sel (GetHrefs_each baseUrl removeInvisibles) hrefs)
  ∧ ∀ x, x ∈ Each sel (GetHrefs_each baseUrl removeInvisibles) hrefs
         ↔ x ∈ hrefs ∨ ∃ s, s ∈ sel ∧ recorded_href baseUrl removeInvisibles s = Some x.
Proof.
  revert hrefs. induction sel as [|s sel IH]; intros hrefs Hnd.
  - split; [exact Hnd|]. intros x. split; [tauto|].
    intros [Hx|(s & Hs & _)]; [exact Hx|]. apply elem_of_nil in Hs. destruct Hs.
  - rewrite Each_cons.
    destruct (IH _ (GetHrefs_each_NoDup baseUrl removeInvisibles hrefs s Hnd)) as [Hnd' Hin].
    split; [exact Hnd'|]. intros x. rewrite Hin, GetHrefs_each_elem. split.
    + intros [[Hx|Hx]|(s' & Hs' & Hx)].
      * left. exact Hx.
      * right. exists s. split; [apply list_elem_of_here | exact Hx].
      * right. exists s'. split; [apply list_elem_of_further, Hs' | exact Hx].
    + intros [Hx|(s' & Hs' & Hx)]; [tauto|].
      apply elem_of_cons in Hs' as [->|Hs']; [tauto|]. right. eauto.
Qed.

Lemma GetHrefs_NoDup doc baseUrl removeInvisibles :
  NoDup (GetHrefs doc baseUrl removeInvisibles).
Proof. apply Each_GetHrefs_spec, NoDup_nil_2. Qed.

End Hyperlinks.

(** X7.  The hyperlinks [GetHrefs] returns hold no URL twice.  A URL is in
    them exactly when some anchor of the document has an [href] that
    resolves to it and the closure does not return early on that anchor;
    so a document whose anchors have no [href] gives no hyperlink. *)
Theorem GetHrefs_deduplicates
    (L : Lib) (doc : Node) (baseUrl : url_URL) (removeInvisibles : bool) :
  NoDup (GetHrefs doc baseUrl removeInvisibles)
  ∧ (∀ x, x ∈ GetHrefs doc baseUrl removeInvisibles
          ↔ ∃ s href,
              s ∈ Find doc "a" ∧ Attr s "href" = Some href
              ∧ match Attr s "style" with
                | Some style => if removeInvisibles then IsVisibleCss style else false
                | None => false
                end = false
              ∧ x = ToAbsUrl baseUrl href)
  ∧ ((∀ s, s ∈ Find doc "a" → Attr s "href" = None) →
     GetHrefs doc baseUrl removeInvisibles = []).
Proof.
  destruct (Each_GetHrefs_spec baseUrl removeInvisibles (Find doc "a") [] (NoDup_nil_2 (A := string)))
    as [Hnd Hin].
  assert (∀ x, x ∈ GetHrefs doc baseUrl removeInvisibles
               ↔ ∃ s href,
                   s ∈ Find doc "a" ∧ Attr s "href" = Some href
                   ∧ match Attr s "style" with
                     | Some style => if removeInvisibles then IsVisibleCss style else false
                     | None => false
                     end = false
                   ∧ x = ToAbsUrl baseUrl href) as Hspec.
  { intros x. unfold GetHrefs. rewrite Hin. split.
    - intros [Hx|(s & Hs & Hx)]; [apply elem_of_nil in Hx; destruct Hx|].
      unfold recorded_href in Hx. destruct (Attr s "href") as [href|] eqn:Hh; [|discriminate].
      destruct (match Attr s "style" with Some _ => _ | None => _ end) eqn:Hskip;
        [discriminate|].
      injection Hx as <-. exists s, href. tauto.
    - intros (s & href & Hs & Hh & Hskip & ->). right. exists s. split; [exact Hs|].
      unfold recorded_href. rewrite Hh, Hskip. reflexivity. }
  split; [exact Hnd|]. split; [exact Hspec|].
  intros Hnone. apply elem_of_nil_inv. intros x Hx.
  apply Hspec in Hx as (s & href & Hs & Hh & _). rewrite (Hnone s Hs) in Hh. discriminate.
Qed.

Lemma GetHrefs_deduplicates_witness :
  GetHrefs (L := Sample.lib)
    (html_body [Element "a" [("name", "top")] []; Element "a" [("id", "x")] []])
    (mkURL "http" "" "ex.com" "/" "" "") true = [].
Proof.
  apply (GetHrefs_deduplicates Sample.lib).
  intros s Hs.
  apply elem_of_cons in Hs as [->|Hs]; [reflexivity|].
  apply list_elem_of_singleton in Hs as ->. reflexivity.
Defined.

(** X8.  [GetRessources] returns the resources by tag and not in document
    order: first those of the [link] elements, then the [img], the
    [script] and the [style] ones, each group in document order; every
    resource has one of these four tags. *)
Theorem GetRessources_grouped_by_tag (L : Lib) (doc : Node) (baseUrl : url_URL) :
  let rs := GetRessources doc baseUrl in
  rs = with_tag "link" rs ++ with_tag "img" rs ++ with_tag "script" rs ++ with_tag "style" rs
  ∧ (∀ r, r ∈ rs → Ressource_Tag r ∈ ["link"; "img"; "script"; "style"])
  ∧ (∀ r, r ∈ rs → Ressource_Tag r = "img" → Ressource_Type r = "" ∧ Ressource_Rel r = "")
  ∧ (∀ r, r ∈ rs → Ressource_Tag r ≠ "link" → Ressource_Rel r = "").
Proof.
  intros rs. unfold rs. rewrite GetRessources_eq.
  set (A := link_ressource baseUrl <$> Find doc "link").
  set (B := img_ressource baseUrl <$> Find doc "img").
  set (C := src_ressource "script" baseUrl <$> _).
  set (D := src_ressource "style" baseUrl <$> _).
  assert (∀ r, r ∈ A → Ressource_Tag r = "link") as HA by (apply fmap_tag; reflexivity).
  assert (∀ r, r ∈ B → Ressource_Tag r = "img") as HB by (apply fmap_tag; reflexivity).
  assert (∀ r, r ∈ C → Ressource_Tag r = "script") as HC by (apply fmap_tag; reflexivity).
  assert (∀ r, r ∈ D → Ressource_Tag r = "style") as HD by (apply fmap_tag; reflexivity).
  split; [|split; [|split]].
  - rewrite !with_tag_app.
    rewrite (with_tag_all _ A HA), (with_tag_none "link" "img" B),
      (with_tag_none "link" "script" C), (with_tag_none "link" "style" D)
      by (discriminate || assumption).
    rewrite (with_tag_none "img" "link" A), (with_tag_all _ B HB),
      (with_tag_none "img" "script" C), (with_tag_none "img" "style" D)
      by (discriminate || assumption).
    rewrite (with_tag_none "script" "link" A), (with_tag_none "script" "img" B),
      (with_tag_all _ C HC), (with_tag_none "script" "style" D)
      by (discriminate || assumption).
    rewrite (with_tag_none "style" "link" A), (with_tag_none "style" "img" B),
      (with_tag_none "style" "script" C), (with_tag_all _ D HD)
      by (discriminate || assumption).
    rewrite !app_nil_r. reflexivity.
  - intros r Hr. rewrite !elem_of_app in Hr. rewrite !elem_of_cons.
    destruct Hr as [Hr|[Hr|[Hr|Hr]]];
      [rewrite (HA r Hr)|rewrite (HB r Hr)|rewrite (HC r Hr)|rewrite (HD r Hr)]; tauto.
  - intros r Hr Htag. rewrite !elem_of_app in Hr.
    destruct Hr as [Hr|[Hr|[Hr|Hr]]].
    + rewrite (HA r Hr) in Htag. discriminate.
    + apply list_elem_of_fmap in Hr as (s & -> & _). split; reflexivity.
    + rewrite (HC r Hr) in Htag. discriminate.
    + rewrite (HD r Hr) in Htag. discriminate.
  - intros r Hr Htag. rewrite !elem_of_app in Hr.
    destruct Hr as [Hr|[Hr|[Hr|Hr]]].
    + rewrite (HA r Hr) in Htag. contradiction.
    + apply list_elem_of_fmap in Hr as (s & -> & _). reflexivity.
    + apply list_elem_of_fmap in Hr as (s & -> & _). reflexivity.
    + apply list_elem_of_fmap in Hr as (s & -> & _). reflexivity.
Qed.

Lemma GetRessources_grouped_by_tag_witness :
  Ressource_Tag <$>
    GetRessources (L := Sample.lib)
      (html_body [Element "script" [("src", "/a.js")] [];
                  Element "img" [("src", "/b.png")] [];
                  Element "link" [("href", "/c.css"); ("rel", "stylesheet")] []])
      (mkURL "http" "" "ex.com" "/" "" "")
  = ["link"; "img"; "script"].
Proof.
  destruct (GetRessources_grouped_by_tag Sample.lib
              (html_body [Element "script" [("src", "/a.js")] [];
                          Element "img" [("src", "/b.png")] [];
                          Element "link" [("href", "/c.css"); ("rel", "stylesheet")] []])
              (mkURL "http" "" "ex.com" "/" "" "")) as (-> & _).
  reflexivity.
Defined.

(** X9.  [GetFormUrls] returns one descriptor for every [form] element, in
    document order.  Its [Url] is the resolved [action], or empty when the
    form has none; its [Method] is the attribute as written; and it has
    one input for every [input] element below the form, with the [name],
    [type] and [value] attributes as written and empty where absent. *)
Theorem GetFormUrls_one_per_form (L : Lib) (doc : Node) (baseUrl : url_URL) :
  length (GetFormUrls doc baseUrl) = length (Find doc "form")
  ∧ ∀ i s, Find doc "form" !! i = Some s →
      ∃ f, GetFormUrls doc baseUrl !! i = Some f
           ∧ Form_Method f = default "" (Attr s "method")
           ∧ (Attr s "action" = None → Form_Url f = "")
           ∧ (∀ action, Attr s "action" = Some action →
                Form_Url f = ToAbsUrl baseUrl action)
           ∧ Form_Inputs f
             = (fun input => mkFormInput (default "" (Attr input "name"))
                                         (default "" (Attr input "type"))
                                         (default "" (Attr input "value")))
                 <$> Find s "input".
Proof.
  rewrite GetFormUrls_eq. split; [apply length_fmap|].
  intros i s Hs. exists (form_descriptor baseUrl s). split.
  - rewrite list_lookup_fmap, Hs. reflexivity.
  - unfold form_descriptor. cbn [Form_Method Form_Url Form_Inputs].
    split; [reflexivity|]. split; [intros ->; reflexivity|].
    split; [intros action ->; reflexivity|].
    change GetFormUrls_input
      with (fun acc input => acc ++ [mkFormInput (default "" (Attr input "name"))
                                                 (default "" (Attr input "type"))
                                                 (default "" (Attr input "value"))]).
    rewrite Each_map. reflexivity.
Qed.

Lemma GetFormUrls_one_per_form_witness :
  GetFormUrls (L := Sample.lib)
    (html_body [Element "form" [("method", "post")]
                  [Element "p" [] [Element "input" [("name", "q")] []]]])
    (mkURL "http" "" "ex.com" "/" "" "")
  = [mkForm "" "post" [mkFormInput "q" "" ""]].
Proof.
  destruct (GetFormUrls_one_per_form Sample.lib
              (html_body [Element "form" [("method", "post")]
                            [Element "p" [] [Element "input" [("name", "q")] []]]])
              (mkURL "http" "" "ex.com" "/" "" "")) as [Hlen Hform].
  destruct (Hform 0 _ eq_refl) as (f & Hf & Hmethod & Hnone & _ & Hinputs).
  destruct (GetFormUrls _ _) as [|f' [|? ?]]; try discriminate Hlen.
  injection Hf as ->. destruct f as [url method inputs]. cbn in *.
  rewrite Hmethod, (Hnone eq_refl), Hinputs. reflexivity.
Defined.

Section PageInvariants.
Context `{L : Lib}.

Lemma PageFromData_Hrefs_NoDup (data : string) (url : url_URL) (includeHiddenLinks : bool) :
  NoDup (Hrefs (RespInfo (PageFromData data url includeHiddenLinks))).
Proof.
  unfold PageFromData. cbn [RespInfo].
  destruct (goquery_NewDocumentFromReader data); cbn [Hrefs].
  - apply GetHrefs_NoDup.
  - apply NoDup_nil_2.
Qed.

Lemma PageFromResponse_res_NoDup (c : Crawler) (req : http_Request) (res : http_Response) :
  NoDup (Hrefs (RespInfo (PageFromResponse_res c req res empty_Page))).
Proof.
  unfold PageFromResponse_res.
  set (page0 := match Res_Body res with Ok body => _ | Err _ => _ end).
  assert (NoDup (Hrefs (RespInfo page0))) as Hnd.
  { unfold page0. destruct (Res_Body res); [apply PageFromData_Hrefs_NoDup | apply NoDup_nil_2]. }
  set (page1 := set_Response page0 _).
  change (Hrefs (RespInfo page1)) with (Hrefs (RespInfo page0)).
  destruct (LocationFromPage page1 (Req_URL req)) as [[] loc]; [|exact Hnd].
  destruct (ContainsString (Hrefs (RespInfo page0)) loc) eqn:Hc; cbn [negb]; [exact Hnd|].
  cbn [set_Hrefs set_RespInfo RespInfo Hrefs].
  apply NoDup_app. split; [exact Hnd|]. split; [|apply NoDup_singleton].
  intros x Hx Hx'. apply list_elem_of_singleton in Hx' as ->.
  apply ContainsString_elem_of in Hx. congruence.
Qed.

End PageInvariants.

(** ** Durations in milliseconds *)

Section Float64.

Local Open Scope Z_scope.

Lemma digits2_pos_size p : digits2_pos p = Pos.size p.
Proof. induction p as [p IH|p IH|]; simpl; congruence. Qed.

Lemma digits2_pos_log2 p : Zpos (digits2_pos p) = Z.log2 (Zpos p) + 1.
Proof.
  rewrite digits2_pos_size. destruct p as [p|p|]; simpl; try reflexivity;
    rewrite Pos2Z.inj_succ; reflexivity.
Qed.

Lemma log2_shifted (P : positive) k : 0 ≤ k → Z.log2 (Zpos P * 2 ^ k) = Z.log2 (Zpos P) + k.
Proof. intros Hk. rewrite Z.log2_mul_pow2 by lia. lia. Qed.

Lemma iter_xO m d : Zpos (Pos.iter xO m d) = Zpos m * 2 ^ Zpos d.
Proof.
  rewrite (Pos.iter_swap_gen _ _ Zpos xO (Z.mul 2)) by reflexivity.
  change (Pos.iter (Z.mul 2) (Zpos m) d) with (Z.shiftl (Zpos m) (Zpos d)).
  apply Z.shiftl_mul_pow2. lia.
Qed.

Lemma iter_pos_iter {A} (f : A → A) p x : SpecFloat.iter_pos f p x = Pos.iter f x p.
Proof.
  revert x. induction p as [p IH|p IH|]; intros x; simpl; [|rewrite !IH; reflexivity|reflexivity].
  rewrite !IH. rewrite <- !Pos.iter_swap. reflexivity.
Qed.

Lemma shr_1_exact (M : positive) n :
  Pos.iter shr_1 {| shr_m := Zpos M * 2 ^ Zpos n; shr_r := false; shr_s := false |} n
  = {| shr_m := Zpos M; shr_r := false; shr_s := false |}.
Proof.
  revert M. induction n as [|n IH] using Pos.peano_ind; intros M.
  - replace (Zpos M * 2 ^ 1) with (Zpos (M~0)) by lia. reflexivity.
  - rewrite Pos.iter_succ.
    replace (Zpos M * 2 ^ Zpos (Pos.succ n)) with (Zpos (M~0) * 2 ^ Zpos n).
    + rewrite IH. reflexivity.
    + rewrite Pos2Z.inj_succ, Z.pow_succ_r by lia. lia.
Qed.

(** A mantissa that is a 53-bit number shifted left is rounded to that
    number: nothing is lost. *)
Lemma binary_round_aux_exact s (mx M : positive) e k :
  0 ≤ k → Zpos mx = Zpos M * 2 ^ k → Z.log2 (Zpos M) = 52 →
  -1074 ≤ e + k ≤ 971 →
  binary_round_aux 53 1024 s (Zpos mx) e loc_Exact = S754_finite s M (e + k).
Proof.
  intros Hk Hmx HM He.
  assert (Zpos (digits2_pos mx) = 53 + k) as Hd.
  { rewrite digits2_pos_log2, Hmx, log2_shifted, HM by exact Hk. lia. }
  assert (Zpos (digits2_pos M) = 53) as HdM.
  { rewrite digits2_pos_log2, HM. reflexivity. }
  unfold binary_round_aux.
  assert (shr_fexp 53 1024 (Zpos mx) e loc_Exact
          = ({| shr_m := Zpos M; shr_r := false; shr_s := false |}, e + k)) as ->.
  { unfold shr_fexp, fexp, emin. cbn [Zdigits2 shr_record_of_loc]. rewrite Hd.
    replace (Z.max (53 + k + e - 53) (3 - 1024 - 53) - e) with k by lia.
    unfold shr. destruct k as [|p|p]; [|rewrite iter_pos_iter, Hmx, shr_1_exact; reflexivity|lia].
    rewrite Hmx, Z.pow_0_r, Z.mul_1_r, Z.add_0_r. reflexivity. }
  cbn [shr_m loc_of_shr_record round_nearest_even].
  assert (shr_fexp 53 1024 (Zpos M) (e + k) loc_Exact
          = ({| shr_m := Zpos M; shr_r := false; shr_s := false |}, e + k)) as ->.
  { unfold shr_fexp, fexp, emin. cbn [Zdigits2 shr_record_of_loc]. rewrite HdM.
    replace (Z.max (53 + (e + k) - 53) (3 - 1024 - 53) - (e + k)) with 0 by lia.
    reflexivity. }
  cbn [shr_m]. destruct (Z.leb_spec (e + k) (1024 - 53)); [reflexivity | lia].
Qed.

Lemma exact_float64_bits P : Z.log2 (Zpos P) < 53 →
  ∃ M, Zpos M = Zpos P * 2 ^ (53 - (Z.log2 (Zpos P) + 1)) ∧ Z.log2 (Zpos M) = 52.
Proof.
  intros HP. pose proof (Z.log2_nonneg (Zpos P)) as H0.
  assert (0 < Zpos P * 2 ^ (53 - (Z.log2 (Zpos P) + 1))) as Hpos by (apply Z.mul_pos_pos; lia).
  destruct (Zpos P * 2 ^ (53 - (Z.log2 (Zpos P) + 1))) as [|M|M] eqn:HM; try lia.
  exists M. split; [reflexivity|]. rewrite <- HM, log2_shifted; lia.
Qed.

(** [float64(n)] is exact for an integer of at most 53 bits. *)
Lemma float64_of_int_exact s P :
  Z.log2 (Zpos P) < 53 →
  exact_float64 s P (GoTime.float64_of_int (if s then Zneg P else Zpos P)).
Proof.
  intros HP. pose proof (Z.log2_nonneg (Zpos P)) as H0.
  destruct (exact_float64_bits P HP) as (M & HM & HlogM).
  exists M. split; [|exact HM].
  assert (binary_round 53 1024 s P 0 = S754_finite s M (Z.log2 (Zpos P) + 1 - 53)) as Hround.
  { unfold binary_round.
    assert (∃ mz, shl_align P 0 (fexp 53 1024 (Zpos (digits2_pos P) + 0))
                  = (mz, Z.log2 (Zpos P) + 1 - 53)
                  ∧ Zpos mz = Zpos M) as (mz & -> & Hmz).
    { unfold shl_align, fexp, emin. rewrite digits2_pos_log2.
      replace (Z.max (Z.log2 (Zpos P) + 1 + 0 - 53) (3 - 1024 - 53))
        with (Z.log2 (Zpos P) + 1 - 53) by lia.
      destruct (Z.log2 (Zpos P) + 1 - 53 - 0) as [|d|d] eqn:Hd; try lia.
      - exists P. split; [f_equal; lia|]. rewrite HM. replace (53 - _) with 0 by lia. lia.
      - exists (Pos.iter xO P d). split; [reflexivity|].
        rewrite iter_xO, HM. f_equal. f_equal. lia. }
    replace (Z.log2 (Zpos P) + 1 - 53) with (Z.log2 (Zpos P) + 1 - 53 + 0) at 2 by lia.
    apply binary_round_aux_exact; [lia | rewrite Hmz; lia | exact HlogM | lia]. }
  unfold GoTime.float64_of_int. destruct s; exact Hround.
Qed.

(** The product of two integers is exact when it has at most 53 bits. *)
Lemma float64_mul_exact s1 s2 P1 P2 f1 f2 :
  exact_float64 s1 P1 f1 → exact_float64 s2 P2 f2 →
  Z.log2 (Zpos (P1 * P2)) < 53 →
  exact_float64 (xorb s1 s2) (P1 * P2) (GoTime.float64_mul f1 f2).
Proof.
  intros (M1 & -> & HM1) (M2 & -> & HM2) HP.
  pose proof (Z.log2_nonneg (Zpos P1)) as H1. pose proof (Z.log2_nonneg (Zpos P2)) as H2.
  destruct (exact_float64_bits (P1 * P2) HP) as (M & HM & HlogM).
  assert (Z.log2 (Zpos P1) + Z.log2 (Zpos P2) ≤ Z.log2 (Zpos (P1 * P2))) as Hlog.
  { rewrite Pos2Z.inj_mul. apply Z.log2_mul_below; lia. }
  exists M. split; [|exact HM].
  unfold GoTime.float64_mul, SFmul.
  set (k := Z.log2 (Zpos (P1 * P2)) + 1 - (Z.log2 (Zpos P1) + 1) - (Z.log2 (Zpos P2) + 1) + 53).
  replace (Z.log2 (Zpos (P1 * P2)) + 1 - 53)
    with (Z.log2 (Zpos P1) + 1 - 53 + (Z.log2 (Zpos P2) + 1 - 53) + k) by (unfold k; lia).
  apply binary_round_aux_exact; [unfold k; lia | | exact HlogM | unfold k; lia].
  rewrite Pos2Z.inj_mul, HM1, HM2, HM. unfold k. clear HM1 HM2 HM HlogM k.
  set (a := Z.log2 (Zpos (P1 * P2))) in *.
  set (a1 := Z.log2 (Zpos P1)) in *. set (a2 := Z.log2 (Zpos P2)) in *.
  clearbody a a1 a2.
  assert (2 ^ (53 - (a + 1)) * 2 ^ (a + 1 - (a1 + 1) - (a2 + 1) + 53)
          = 2 ^ (53 - (a1 + 1)) * 2 ^ (53 - (a2 + 1))) as Hpow.
  { rewrite <- !Z.pow_add_r by lia. f_equal. lia. }
  rewrite Pos2Z.inj_mul.
  transitivity (Zpos P1 * Zpos P2
                * (2 ^ (53 - (a + 1)) * 2 ^ (a + 1 - (a1 + 1) - (a2 + 1) + 53)));
    [rewrite Hpow; ring | ring].
Qed.

(** [int(f)] gives the integer back. *)
Lemma int_of_float64_exact s P f :
  exact_float64 s P f → Z.log2 (Zpos P) < 53 →
  GoTime.int_of_float64 f = if s then Zneg P else Zpos P.
Proof.
  intros (M & -> & HM) HP. pose proof (Z.log2_nonneg (Zpos P)) as H0.
  unfold GoTime.int_of_float64. cbv zeta.
  assert ((if 0 <=? Z.log2 (Zpos P) + 1 - 53
           then Z.shiftl (Zpos M) (Z.log2 (Zpos P) + 1 - 53)
           else Z.shiftr (Zpos M) (- (Z.log2 (Zpos P) + 1 - 53))) = Zpos P) as ->.
  { destruct (Z.leb_spec 0 (Z.log2 (Zpos P) + 1 - 53)) as [Hle|Hlt].
    - assert (Z.log2 (Zpos P) = 52) as Hlog by lia.
      rewrite HM, Hlog. change (52 + 1 - 53) with 0. rewrite Z.shiftl_0_r. lia.
    - rewrite Z.shiftr_div_pow2, HM by lia.
      replace (- (Z.log2 (Zpos P) + 1 - 53)) with (53 - (Z.log2 (Zpos P) + 1)) by lia.
      apply Z.div_mul. apply Z.pow_nonzero; lia. }
  assert (Zpos P < 2 ^ 63) as Hlt.
  { apply Z.log2_lt_pow2; lia. }
  destruct (Z.ltb_spec (Zpos P) (2 ^ 63)); [|lia]. destruct s; reflexivity.
Qed.

(** [int(d.Seconds() * 1000)] for a duration of whole seconds. *)
Lemma whole_seconds_exact sec :
  Z.abs sec ≤ 9223372036 →
  GoTime.int_of_float64
    (GoTime.float64_mul (GoTime.Duration_Seconds (sec * GoTime.Second))
                        (GoTime.float64_of_int 1000))
  = 1000 * sec.
Proof.
  intros Hsec. unfold GoTime.Duration_Seconds. cbv zeta.
  rewrite Z.quot_mul, Z.rem_mul by discriminate.
  change (GoTime.float64_div (GoTime.float64_of_int 0) (GoTime.float64_of_int 1000000000))
    with (S754_zero false).
  destruct sec as [|P|P].
  - reflexivity.
  - assert (Z.log2 (Zpos P) < 53 ∧ Z.log2 (Zpos (P * 1000)) < 53) as [HP HP'].
    { split; apply Z.log2_lt_pow2; lia. }
    destruct (float64_of_int_exact false P HP) as (M & HM & HM').
    cbn [xorb] in HM. rewrite HM. cbn [GoTime.float64_add SFadd].
    rewrite (int_of_float64_exact (xorb false false) (P * 1000)); [cbn [xorb]; lia| |exact HP'].
    apply float64_mul_exact; [exists M; split; [reflexivity | exact HM'] | | exact HP'].
    apply (float64_of_int_exact false 1000). reflexivity.
  - assert (Z.log2 (Zpos P) < 53 ∧ Z.log2 (Zpos (P * 1000)) < 53) as [HP HP'].
    { split; apply Z.log2_lt_pow2; lia. }
    destruct (float64_of_int_exact true P HP) as (M & HM & HM').
    rewrite HM. cbn [GoTime.float64_add SFadd].
    rewrite (int_of_float64_exact (xorb true false) (P * 1000)); [cbn [xorb]; lia| |exact HP'].
    apply float64_mul_exact; [exists M; split; [reflexivity | exact HM'] | | exact HP'].
    apply (float64_of_int_exact false 1000). reflexivity.
Qed.

End Float64.



(** ** More on the page fetcher *)

Section Fetching.
Context `{L : Lib}.

Lemma GetPage_request (c : Crawler) (w : World) (crawlUrl method : string)
    (req : http_Request) :
  http_NewRequest method crawlUrl = Ok req →
  map_Forall (fun _ v => v ≠ []) (Crawler_Header c) →
  GetPage c w crawlUrl method
  = let '(res, err) := Client_Do w (request_sent c req) in
    let page := PageFromResponse c (time_Unix w) (request_sent c req) res (request_duration w) in
    match err with
    | Some err =>
        if is_transport_failure err
        then Return (Some (set_Error page (error_Error err)), Some err)
        else Return (Some page, None)
    | None => Return (Some page, None)
    end.
Proof.
  intros Hreq Hheader. unfold GetPage. rewrite Hreq.
  rewrite bool_decide_eq_true_2 by exact Hheader. reflexivity.
Qed.

Lemma PageFromResponse_res_location (c : Crawler) (req : http_Request)
    (res : http_Response) :
  (300 ≤ Res_StatusCode res < 308)%Z →
  ToAbsUrl (Req_URL req) (Header_Get (Res_Header res) "Location")
  ∈ Hrefs (RespInfo (PageFromResponse_res c req res empty_Page)).
Proof.
  intros Hs. unfold PageFromResponse_res.
  set (page0 := match Res_Body res with Ok body => _ | Err _ => _ end).
  set (page1 := set_Response page0 _).
  rewrite (LocationFromPage_redirect page1) by exact Hs.
  change (Response_Header (Response page1)) with (Res_Header res).
  set (location := ToAbsUrl _ _).
  destruct (ContainsString (Hrefs (RespInfo page1)) location) eqn:Hc; cbn [negb].
  - apply ContainsString_elem_of, Hc.
  - cbn [set_Hrefs set_RespInfo RespInfo Hrefs]. apply elem_of_app. right.
    apply list_elem_of_here.
Qed.

End Fetching.

(** X11.  A redirect that [CheckRedirect] blocked is not an error of
    [GetPage]: when the transport returns the response together with a
    [url.Error] that wraps [ErrorCheckRedirect], [GetPage] returns the page
    with a nil error and an empty [Error], and for a status from 300 to
    307 the page holds the resolved [Location] among its hyperlinks.  The
    sentinel on its own, not wrapped in a [url.Error], is a failure like
    any other. *)
Theorem GetPage_blocked_redirect_is_no_error
    (L : Lib) (c : Crawler) (w : World) (crawlUrl method : string)
    (req : http_Request) (res : http_Response) (op url : string) :
  http_NewRequest method crawlUrl = Ok req →
  map_Forall (fun _ v => v ≠ []) (Crawler_Header c) →
  (Client_Do w (request_sent c req) = (Some res, Some (url_Error op url ErrorCheckRedirect)) →
   ∃ page,
     GetPage c w crawlUrl method = Return (Some page, None)
     ∧ Error page = ""
     ∧ StatusCode (Response page) = Res_StatusCode res
     ∧ ((300 ≤ Res_StatusCode res < 308)%Z →
          ToAbsUrl (Req_URL req) (Header_Get (Res_Header res) "Location")
          ∈ Hrefs (RespInfo page)))
  ∧ (Client_Do w (request_sent c req) = (Some res, Some ErrorCheckRedirect) →
     ∃ page,
       GetPage c w crawlUrl method = Return (Some page, Some ErrorCheckRedirect)
       ∧ Error page = "dont redirect").
Proof.
  intros Hreq Hheader. rewrite (GetPage_request c w crawlUrl method req Hreq Hheader).
  split; intros ->; cbn [is_transport_failure]; eexists; (split; [reflexivity|]).
  - split; [apply PageFromResponse_Error|]. split.
    + unfold PageFromResponse, PageFromResponse_res.
      destruct (LocationFromPage _ _) as [[] loc]; [destruct (negb _)|]; reflexivity.
    + intros Hs. rewrite PageFromResponse_Hrefs.
      apply (PageFromResponse_res_location c (request_sent c req) res Hs).
  - reflexivity.
Qed.

Lemma GetPage_blocked_redirect_is_no_error_witness :
  let res := mkResponse (Err (errorString "http: read on closed response body"))
                        {[ "Location" := ["/new"] ]} 302 "HTTP/1.1" in
  let w := mkWorld Sample.in_order
             (fun _ => (Some res, Some (url_Error "Get" "/new" ErrorCheckRedirect)))
             0 0 true in
  ∃ page,
    GetPage (L := Sample.lib) NewCrawler w "http://ex.com/old" "GET" = Return (Some page, None)
    ∧ Hrefs (RespInfo page) = ["http://ex.com/new"].
Proof.
  intros res w.
  destruct (GetPage_blocked_redirect_is_no_error Sample.lib NewCrawler w
              "http://ex.com/old" "GET"
              (mkRequest "GET" (mkURL "http" "" "ex.com" "/old" "" "") ∅ "HTTP/1.1" 0)
              res "Get" "/new" eq_refl) as [Hblocked _].
  - apply map_Forall_singleton. discriminate.
  - destruct (Hblocked eq_refl) as (page & Hpage & _ & _ & _).
    exists page. split; [exact Hpage|].
    vm_compute in Hpage. injection Hpage as <-. reflexivity.
Defined.

(** X12.  [GetPage] ends in a panic (index out of range at [v[0]]) exactly
    when the request can be built and some configured header has an empty
    list of values; it never ends the process.  A crawler made by
    [NewCrawler] does not panic in [GetPage]. *)
Theorem GetPage_panics_on_header_without_value
    (L : Lib) (c : Crawler) (w : World) (crawlUrl method : string) :
  (GetPage c w crawlUrl method = Panic
   ↔ (∃ req, http_NewRequest method crawlUrl = Ok req)
     ∧ ∃ key, Crawler_Header c !! key = Some [])
  ∧ GetPage c w crawlUrl method ≠ LogFatal
  ∧ GetPage NewCrawler w crawlUrl method ≠ Panic.
Proof.
  assert (∀ c', GetPage c' w crawlUrl method = Panic
               ↔ (∃ req, http_NewRequest method crawlUrl = Ok req)
                 ∧ ∃ key, Crawler_Header c' !! key = Some []) as Hpanic.
  { intros c'. unfold GetPage.
    destruct (http_NewRequest method crawlUrl) as [req|e].
    - case_bool_decide as Hheader.
      + split.
        * destruct (Client_Do w _) as [res [err|]];
            [destruct (is_transport_failure err)|]; discriminate.
        * intros (_ & key & Hkey). exfalso. exact (Hheader key [] Hkey eq_refl).
      + split; [|reflexivity]. intros _. split; [eauto|].
        apply map_not_Forall in Hheader; [|apply _].
        destruct Hheader as (key & v & Hkey & Hv).
        exists key. destruct v; [exact Hkey|]. exfalso. apply Hv. discriminate.
    - split; [discriminate|]. intros ([req Hreq] & _). discriminate. }
  split; [apply Hpanic|]. split.
  - unfold GetPage. destruct (http_NewRequest method crawlUrl) as [req|e]; [|discriminate].
    destruct (bool_decide _); [|discriminate].
    destruct (Client_Do w _) as [res [err|]];
      [destruct (is_transport_failure err)|]; discriminate.
  - intros Hp. apply Hpanic in Hp as (_ & key & Hkey).
    change (Crawler_Header NewCrawler)
      with ({[ "User-Agent" := [headerUserAgentChrome] ]} : gmap string (list string)) in Hkey.
    apply lookup_singleton_Some in Hkey as [_ Hkey]. discriminate.
Qed.

Lemma GetPage_panics_on_header_without_value_witness :
  let c := mkCrawler {[ "Accept" := [] ]} false 1000 ∅ None None ["http"] 0 "" false in
  GetPage (L := Sample.lib) c quiet_site "http://ex.com/" "GET" = Panic.
Proof.
  intros c.
  apply (proj1 (GetPage_panics_on_header_without_value Sample.lib c quiet_site
                  "http://ex.com/" "GET")).
  split; [eexists; reflexivity|]. exists "Accept". reflexivity.
Defined.

(** ** More on the crawl loop *)

Section LoopInvariants.
Context `{L : Lib}.

Implicit Types (cw c : Crawler) (w : World) (m : gmap string bool).

Lemma frontier_grows_refl m : frontier_grows m m.
Proof. intros k v Hk. eauto. Qed.

Lemma frontier_grows_trans m1 m2 m3 :
  frontier_grows m1 m2 → frontier_grows m2 m3 → frontier_grows m1 m3.
Proof.
  intros H12 H23 k v Hk. destruct (H12 k v Hk) as (v2 & Hk2 & Hv2).
  destruct (H23 k v2 Hk2) as (v3 & Hk3 & Hv3). exists v3. split; [exact Hk3 | tauto].
Qed.

Lemma frontier_grows_store m u : frontier_grows m (<[u := true]> m).
Proof.
  intros k v Hk. rewrite lookup_insert. destruct (decide (u = k)); eauto.
Qed.

Lemma frontier_grows_AddAllLinks c links : frontier_grows (Links c) (Links (AddAllLinks links c)).
Proof.
  intros k v Hk. rewrite AddAllLinks_lookup. unfold discovered. rewrite Hk. eauto.
Qed.

Lemma same_settings_refl cw : same_settings cw cw.
Proof. unfold same_settings. destruct cw; reflexivity. Qed.

Lemma same_settings_intro cw c m n :
  c = set_PageCount (set_Links cw m) n → same_settings cw c.
Proof. intros ->. reflexivity. Qed.

Lemma same_settings_trans cw c c' :
  same_settings cw c → same_settings c c' → same_settings cw c'.
Proof.
  unfold same_settings. intros Hc Hc'.
  rewrite Hc' at 1. rewrite Hc at 1. reflexivity.
Qed.

Lemma same_settings_AddAllLinks c links : same_settings c (AddAllLinks links c).
Proof.
  apply (same_settings_intro c _ (Links (AddAllLinks links c)) (PageCount c)).
  rewrite (AddAllLinks_frame c links) at 1. destruct c; reflexivity.
Qed.

(** Where an iteration leaves the loop, the crawler is the one it started
    with or that one with the selected URL stored as visited; a non-nil
    error is the one the pre-fetch hook returned. *)
Lemma FetchSites_body_stops w (startUrl : option url_URL) (first : bool) c c'
    (exit : Exit (option error)) :
  FetchSites_body w startUrl first c = inr (exit, c') →
  (c' = c ∨ ∃ url, c' = Links_store url true c)
  ∧ ∀ e, exit = Return (Some e) →
         ∃ fn u u', BeforeCrawlFn c = Some fn ∧ fn u = (u', Some e).
Proof.
  unfold FetchSites_body.
  destruct (match startUrl with Some su => _ | None => _ end) as [[selected found] first0].
  destruct found; cbn [negb];
    [|intros [= <- <-]; split; [left; reflexivity | discriminate]].
  destruct (BeforeCrawlFn c) as [fn|] eqn:Hfn.
  - destruct (fn selected) as [url [err|]] eqn:Hres.
    + intros [= <- <-]. split; [left; reflexivity|]. intros e [= <-]. eauto.
    + destruct (url_Parse url) as [nextUrl|e0]; [|discriminate].
      destruct (negb (IsValidScheme _ nextUrl)); [discriminate|].
      destruct (GetPage _ w url "GET") as [[[page|] err]| |];
        [destruct (SavePage _ _ _); try discriminate| | |];
        intros [= <- <-]; (split; [right; eauto | discriminate]).
  - destruct (url_Parse selected) as [nextUrl|e0]; [|discriminate].
    destruct (negb (IsValidScheme _ nextUrl)); [discriminate|].
    destruct (GetPage _ w selected "GET") as [[[page|] err]| |];
      [destruct (SavePage _ _ _); try discriminate| | |];
      intros [= <- <-]; (split; [right; eauto | discriminate]).
Qed.

Lemma FetchSites_body_keeps w (startUrl : option url_URL) (first : bool) c c' first' :
  FetchSites_body w startUrl first c = inl (c', first') →
  same_settings c c' ∧ frontier_grows (Links c) (Links c').
Proof.
  intros Hbody. apply FetchSites_body_continues in Hbody
    as (selected & url & _ & _ & [->|(page & err & added & _ & _ & ->)]).
  - split; [|apply frontier_grows_store].
    apply (same_settings_intro c _ (<[url := true]> (Links c)) (PageCount c)).
    destruct c; reflexivity.
  - split.
    + eapply same_settings_trans; [|apply same_settings_AddAllLinks].
      eapply same_settings_intro. reflexivity.
    + eapply frontier_grows_trans; [|apply frontier_grows_AddAllLinks].
      apply frontier_grows_store.
Qed.

Lemma FetchSites_loop_keeps fuel (env : nat → World) i (startUrl : option url_URL)
    (first : bool) c c' (exit : Exit (option error)) :
  FetchSites_loop fuel env i startUrl first c = Some (exit, c') →
  same_settings c c' ∧ frontier_grows (Links c) (Links c')
  ∧ ∀ e, exit = Return (Some e) →
         ∃ fn u u', BeforeCrawlFn c = Some fn ∧ fn u = (u', Some e).
Proof.
  revert i first c. induction fuel as [|fuel IH]; intros i first c; [discriminate|].
  cbn [FetchSites_loop].
  destruct (FetchSites_body (env i) startUrl first c) as [[c1 first1]|[exit1 c1]] eqn:Hbody.
  - intros Hloop. destruct (FetchSites_body_keeps _ _ _ _ _ _ Hbody) as [Hset Hgrow].
    destruct (IH _ _ _ Hloop) as (Hset' & Hgrow' & Herr).
    split; [exact (same_settings_trans _ _ _ Hset Hset')|].
    split; [exact (frontier_grows_trans _ _ _ Hgrow Hgrow')|].
    intros e He. destruct (Herr e He) as (fn & u & u' & Hfn & Hres).
    exists fn, u, u'. split; [|exact Hres]. rewrite Hset in Hfn. exact Hfn.
  - intros [= <- <-]. destruct (FetchSites_body_stops _ _ _ _ _ _ Hbody) as [Hc' Herr].
    split; [|split; [|exact Herr]].
    + destruct Hc' as [->|[url ->]]; [apply same_settings_refl|].
      apply (same_settings_intro c _ (<[url := true]> (Links c)) (PageCount c)).
      destruct c; reflexivity.
    + destruct Hc' as [->|[url ->]]; [apply frontier_grows_refl | apply frontier_grows_store].
Qed.

End LoopInvariants.

(** X13.  Whatever the crawl meets, and however it ends, it only adds to the
    frontier: every key the frontier had is still there, a visited key is
    still visited, the seed is among the keys, and nothing but [Links] and
    [PageCount] of the crawler has changed.  A non-nil error of
    [FetchSites] is an error the pre-fetch hook returned. *)
Theorem FetchSites_only_adds_to_frontier
    (L : Lib) (fuel : nat) (env : nat → World) (startUrl : option url_URL)
    (cw cw' : Crawler) (exit : Exit (option error)) :
  FetchSites fuel env startUrl cw = Some (exit, cw') →
  frontier_grows (Links cw) (Links cw')
  ∧ same_settings cw cw'
  ∧ (∀ su, startUrl = Some su → is_Some (Links cw' !! url_String su))
  ∧ (∀ e, exit = Return (Some e) →
          ∃ fn u u', BeforeCrawlFn cw = Some fn ∧ fn u = (u', Some e)).
Proof.
  unfold FetchSites.
  set (start := match startUrl with Some su => _ | None => _ end).
  assert (same_settings cw (fst start) ∧ frontier_grows (Links cw) (Links (fst start))
          ∧ ∀ su, startUrl = Some su → is_Some (Links (fst start) !! url_String su))
    as (Hset & Hgrow & Hseed).
  { unfold start. destruct startUrl as [su|].
    - cbv zeta. destruct (negb _); cbn [fst].
      + split; [apply same_settings_AddAllLinks|]. split; [apply frontier_grows_AddAllLinks|].
        intros su' [= <-]. rewrite AddAllLinks_lookup. unfold discovered.
        destruct (Links cw !! url_String su); [eauto|].
        rewrite bool_decide_eq_true_2 by apply list_elem_of_here. eauto.
      + split; [apply same_settings_AddAllLinks|]. split; [apply frontier_grows_AddAllLinks|].
        intros su' [= <-]. rewrite AddAllLinks_lookup. unfold discovered.
        destruct (Links cw !! url_String su); [eauto|].
        rewrite bool_decide_eq_true_2 by apply list_elem_of_here. eauto.
    - split; [apply same_settings_refl|]. split; [apply frontier_grows_refl | discriminate]. }
  destruct start as [cw1 first]. cbn [fst] in *. intros Hloop.
  destruct (FetchSites_loop_keeps _ _ _ _ _ _ _ _ Hloop) as (Hset' & Hgrow' & Herr).
  split; [exact (frontier_grows_trans _ _ _ Hgrow Hgrow')|].
  split; [exact (same_settings_trans _ _ _ Hset Hset')|]. split.
  - intros su Hsu. destruct (Hseed su Hsu) as [v Hv].
    destruct (Hgrow' _ _ Hv) as (v' & Hv' & _). eauto.
  - intros e He. destruct (Herr e He) as (fn & u & u' & Hfn & Hres).
    exists fn, u, u'. split; [|exact Hres]. rewrite Hset in Hfn. exact Hfn.
Qed.

Lemma FetchSites_only_adds_to_frontier_witness :
  ∃ cw',
    FetchSites (L := Sample.lib) 2 (fun _ => quiet_site)
      (Some (mkURL "http" "" "ex.com" "/" "" ""))
      (AddCrawledLinks ["http://ex.com/seen"] NewCrawler)
    = Some (Return None, cw')
    ∧ Links cw' !! "http://ex.com/seen" = Some true
    ∧ is_Some (Links cw' !! "http://ex.com/").
Proof.
  eexists. split; [vm_compute; reflexivity|].
  match goal with
  | |- Links ?c !! _ = _ ∧ _ =>
      destruct (FetchSites_only_adds_to_frontier Sample.lib 2 (fun _ => quiet_site)
                  (Some (mkURL "http" "" "ex.com" "/" "" ""))
                  (AddCrawledLinks ["http://ex.com/seen"] NewCrawler) c (Return None))
        as (Hgrow & _ & Hseed & _); [vm_compute; reflexivity|]
  end.
  split.
  - destruct (Hgrow "http://ex.com/seen" true eq_refl) as (v' & Hv' & Hv).
    rewrite Hv', (Hv eq_refl). reflexivity.
  - apply (Hseed _ eq_refl).
Defined.

Section LoopEdges.
Context `{L : Lib}.

Implicit Types (cw c : Crawler) (w : World).

Lemma AddAllLinks_present cw u v :
  Links cw !! u = Some v → AddAllLinks [u] cw = cw.
Proof.
  intros Hu. change (AddAllLinks [u] cw) with (Links_store u (IsCrawled cw u) cw).
  rewrite IsCrawled_lookup, Hu. unfold Links_store. cbn [default].
  rewrite (insert_id _ _ _ Hu). apply set_Links_same.
Qed.

Lemma AddAllLinks_absent cw u :
  Links cw !! u = None → AddAllLinks [u] cw = set_Links cw (<[u := false]> (Links cw)).
Proof.
  intros Hu. change (AddAllLinks [u] cw) with (Links_store u (IsCrawled cw u) cw).
  rewrite IsCrawled_lookup, Hu. reflexivity.
Qed.

(** An iteration on a frontier without an unvisited entry, once the seed is
    done with, returns nil. *)
Lemma FetchSites_body_exhausted w (startUrl : option url_URL) c :
  (∀ k, Links c !! k ≠ Some false) →
  FetchSites_body w startUrl false c = inr (Return None, c).
Proof.
  intros Hnone. unfold FetchSites_body. cbn [negb].
  rewrite (GetNextLink_exhausted (range w) c Hnone).
  destruct startUrl; reflexivity.
Qed.

End LoopEdges.

(** X14.  On a frontier without an unvisited entry, with no seed or a seed
    that is already visited, [FetchSites] returns nil in its first
    iteration: nothing is fetched, no page is counted and the crawler is
    left as it was, whatever the transport would answer. *)
Theorem FetchSites_nothing_to_crawl
    (L : Lib) (fuel : nat) (env : nat → World) (startUrl : option url_URL) (cw : Crawler) :
  (∀ k, Links cw !! k ≠ Some false) →
  (∀ su, startUrl = Some su → Links cw !! url_String su = Some true) →
  FetchSites (S fuel) env startUrl cw = Some (Return None, cw).
Proof.
  intros Hnone Hseed. unfold FetchSites. destruct startUrl as [su|].
  - cbv zeta. rewrite (AddAllLinks_present cw _ true (Hseed su eq_refl)).
    rewrite (proj2 (IsCrawled_true cw (url_String su)) (Hseed su eq_refl)). cbn [negb].
    cbn [FetchSites_loop]. rewrite (FetchSites_body_exhausted _ _ _ Hnone). reflexivity.
  - cbn [FetchSites_loop]. rewrite (FetchSites_body_exhausted _ _ _ Hnone). reflexivity.
Qed.

Lemma FetchSites_nothing_to_crawl_witness :
  let cw := AddCrawledLinks ["http://ex.com/"; "http://ex.com/a"] NewCrawler in
  FetchSites (L := Sample.lib) 1 (fun _ => quiet_site)
    (Some (mkURL "http" "" "ex.com" "/" "" "")) cw
  = Some (Return None, cw).
Proof.
  intros cw. apply (FetchSites_nothing_to_crawl Sample.lib 0).
  - intros k Hk. unfold cw in Hk. rewrite AddCrawledLinks_lookup in Hk.
    destruct (bool_decide _); [discriminate|].
    change (Links NewCrawler) with (∅ : gmap string bool) in Hk.
    rewrite lookup_empty in Hk. discriminate.
  - intros su [= <-]. reflexivity.
Defined.

(** X15.  A seed that cannot be fetched is not fetched: when no pre-fetch
    hook is set, the frontier has no unvisited entry, and the seed's URL
    does not parse or has a scheme outside [ValidSchemes], [FetchSites]
    marks the seed visited and returns nil in the second iteration, with
    [PageCount] as it was and without a request, whatever the transport
    would answer. *)
Theorem FetchSites_skips_seed_of_invalid_scheme
    (L : Lib) (fuel : nat) (env : nat → World) (su : url_URL) (cw : Crawler) :
  BeforeCrawlFn cw = None →
  (∀ k, Links cw !! k ≠ Some false) →
  Links cw !! url_String su ≠ Some true →
  match url_Parse (url_String su) with
  | Ok nextUrl => IsValidScheme cw nextUrl = false
  | Err _ => True
  end →
  FetchSites (S (S fuel)) env (Some su) cw
  = Some (Return None, AddCrawledLinks [url_String su] cw).
Proof.
  intros Hhook Hnone Hseed Hscheme.
  set (seed := url_String su) in *.
  assert (Links cw !! seed = None) as Hnew.
  { destruct (Links cw !! seed) as [[]|] eqn:Hs; [contradiction| |reflexivity].
    exfalso. exact (Hnone seed Hs). }
  unfold FetchSites. cbv zeta. fold seed.
  rewrite (AddAllLinks_absent cw seed Hnew).
  set (cw1 := set_Links cw (<[seed := false]> (Links cw))).
  assert (IsCrawled cw1 seed = false) as ->.
  { rewrite IsCrawled_lookup. unfold cw1. cbn [Links set_Links].
    rewrite lookup_insert_eq. reflexivity. }
  cbn [negb FetchSites_loop].
  assert (FetchSites_body (env 0) (Some su) true cw1
          = inl (AddCrawledLinks [seed] cw, false)) as ->.
  { unfold FetchSites_body. cbn [negb]. fold seed.
    change (BeforeCrawlFn cw1) with (BeforeCrawlFn cw). rewrite Hhook.
    assert (Links_store seed true cw1 = AddCrawledLinks [seed] cw) as ->.
    { unfold cw1. change (AddCrawledLinks [seed] cw) with (Links_store seed true cw).
      unfold Links_store. cbn [Links set_Links]. rewrite set_Links_twice, insert_insert_eq.
      reflexivity. }
    destruct (url_Parse seed) as [nextUrl|e]; [|reflexivity].
    change (IsValidScheme (AddCrawledLinks [seed] cw) nextUrl)
      with (IsValidScheme cw nextUrl).
    rewrite Hscheme. reflexivity. }
  rewrite FetchSites_body_exhausted; [reflexivity|].
  intros k Hk. rewrite AddCrawledLinks_lookup in Hk.
  destruct (bool_decide _); [discriminate|]. exact (Hnone k Hk).
Qed.

Lemma FetchSites_skips_seed_of_invalid_scheme_witness :
  FetchSites (L := Sample.lib) 2 (fun _ => quiet_site)
    (Some (mkURL "ftp" "" "ex.com" "/file" "" "")) NewCrawler
  = Some (Return None, AddCrawledLinks ["ftp://ex.com/file"] NewCrawler).
Proof.
  apply (FetchSites_skips_seed_of_invalid_scheme Sample.lib 0).
  - reflexivity.
  - intros k Hk. change (Links NewCrawler) with (∅ : gmap string bool) in Hk.
    rewrite lookup_empty in Hk. discriminate.
  - discriminate.
  - reflexivity.
Defined.

(** ** More on resume *)

Section Replay.
Context `{L : Lib}.

Implicit Types (cw c : Crawler) (p : Page) (pages : list Page) (fs : FS) (k : string).

Lemma LoadPages_record_settings p c :
  recomputed_url (LoadPages_record p c) = recomputed_url c
  ∧ recomputed_links (LoadPages_record p c) = recomputed_links c.
Proof. rewrite (LoadPages_record_frame p c). split; reflexivity. Qed.

(** The frontier after the records of a resume, whatever their order. *)
Lemma LoadPages_records_lookup pages c k :
  Links (fold_left (fun cw p => LoadPages_record p cw) pages c) !! k
  = if bool_decide (k ∈ recomputed_url c <$> pages) then Some true
    else discovered (flat_map (recomputed_links c) pages) (Links c) k.
Proof.
  revert c. induction pages as [|p pages IH]; intros c.
  - cbn [fold_left]. unfold discovered. simpl. destruct (Links c !! k); reflexivity.
  - cbn [fold_left]. rewrite IH.
    destruct (LoadPages_record_settings p c) as [-> ->].
    rewrite fmap_cons. cbn [flat_map].
    destruct (decide (k ∈ recomputed_url c <$> pages)) as [Hin|Hin].
    + rewrite !bool_decide_eq_true_2; [reflexivity | apply list_elem_of_further, Hin | exact Hin].
    + rewrite (bool_decide_eq_false_2 _ Hin).
      unfold discovered at 1. rewrite LoadPages_record_lookup.
      destruct (decide (k = recomputed_url c p)) as [->|Hne].
      * rewrite (bool_decide_eq_true_2
                   (recomputed_url c p ∈ recomputed_url c p :: (recomputed_url c <$> pages)))
          by apply list_elem_of_here.
        reflexivity.
      * rewrite (bool_decide_eq_false_2
                   (k ∈ recomputed_url c p :: (recomputed_url c <$> pages)))
          by (rewrite elem_of_cons; intros [?|?]; contradiction).
        unfold discovered. destruct (Links c !! k); [reflexivity|].
        destruct (decide (k ∈ recomputed_links c p)) as [Hl|Hl].
        -- rewrite !bool_decide_eq_true_2;
             [reflexivity | apply elem_of_app; left; exact Hl | exact Hl].
        -- rewrite (bool_decide_eq_false_2 _ Hl).
           apply (f_equal (fun b : bool => if b then Some false else None)).
           apply bool_decide_ext. rewrite elem_of_app. tauto.
Qed.

Lemma GetPageInfoFiles_eq fs folder names :
  ReadDir fs folder = Ok names →
  GetPageInfoFiles fs folder
  = Ok (path_Join folder <$> List.filter (fun name => GoStrings.HasSuffix name ".httpi") names).
Proof.
  intros Hdir. unfold GetPageInfoFiles. rewrite Hdir. clear Hdir. f_equal.
  assert (∀ paths,
            fold_left (fun paths name =>
                         if negb (GoStrings.HasSuffix name ".httpi") then paths
                         else paths ++ [path_Join folder name]) names paths
            = paths ++ (path_Join folder
                          <$> List.filter (fun name => GoStrings.HasSuffix name ".httpi") names))
    as Hfold.
  { induction names as [|name names IH]; intros paths; cbn [fold_left List.filter].
    - rewrite app_nil_r. reflexivity.
    - rewrite IH. destruct (GoStrings.HasSuffix name ".httpi"); cbn [negb].
      + rewrite fmap_cons, <- app_assoc. reflexivity.
      + reflexivity. }
  apply (Hfold []).
Qed.

End Replay.

(** X16.  After a resume in which every file loads, a key of the frontier is
    visited exactly when it is the recomputed URL of a record or was
    visited before; a key is new and unvisited exactly when it is none of
    these URLs and a recomputed link of a record; nothing else changes.
    So every record's URL is visited, also when a later record lists it as
    a link, and the frontier does not depend on the order of the files. *)
Theorem LoadPages_frontier_after_resume
    (L : Lib) (fs : FS) (folderpath : string) (cw : Crawler)
    (files : list string) (pages : list Page) :
  folderpath ≠ "" →
  GetPageInfoFiles fs folderpath = Ok files →
  loaded fs files pages →
  let cw' := snd (LoadPages fs folderpath cw) in
  (∀ k, Links cw' !! k
        = if bool_decide (k ∈ recomputed_url cw <$> pages) then Some true
          else discovered (flat_map (recomputed_links cw) pages) (Links cw) k)
  ∧ (∀ p, p ∈ pages → IsCrawled cw' (recomputed_url cw p) = true)
  ∧ (∀ pages', pages' ≡ₚ pages →
       Links (fold_left (fun cw p => LoadPages_record p cw) pages' cw) = Links cw').
Proof.
  intros Hfolder Hfiles Hloaded cw'.
  assert (cw' = fold_left (fun cw p => LoadPages_record p cw) pages cw) as ->.
  { unfold cw', LoadPages. rewrite bool_decide_eq_false_2 by exact Hfolder. rewrite Hfiles.
    rewrite (LoadPages_loop_all fs files pages 0 cw Hloaded). reflexivity. }
  split; [|split].
  - intros k. apply LoadPages_records_lookup.
  - intros p Hp. apply IsCrawled_true. rewrite LoadPages_records_lookup.
    rewrite bool_decide_eq_true_2; [reflexivity|].
    apply list_elem_of_fmap. eauto.
  - intros pages' Hperm. apply map_eq. intros k. rewrite !LoadPages_records_lookup.
    assert (bool_decide (k ∈ recomputed_url cw <$> pages')
            = bool_decide (k ∈ recomputed_url cw <$> pages)) as ->.
    { apply bool_decide_ext. rewrite Hperm. reflexivity. }
    destruct (bool_decide _); [reflexivity|]. apply discovered_ext.
    rewrite !list_elem_of_In, !in_flat_map. setoid_rewrite <- list_elem_of_In.
    split; intros (p & Hp & Hk); exists p; (split; [|exact Hk]).
    + rewrite <- Hperm. exact Hp.
    + rewrite Hperm. exact Hp.
Qed.

Lemma LoadPages_frontier_after_resume_witness :
  let fs := mkFS (fun _ => Ok ["1.httpi"; "1.respbin"]) (fun _ => Ok "{}") in
  IsCrawled (snd (LoadPages (L := Sample.lib) fs "store" NewCrawler)) "" = true.
Proof.
  intros fs.
  destruct (LoadPages_frontier_after_resume Sample.lib fs "store" NewCrawler
              ["store/1.httpi"] [empty_Page]) as (_ & Hvisited & _).
  - discriminate.
  - reflexivity.
  - constructor; [reflexivity | constructor].
  - apply (Hvisited empty_Page), list_elem_of_here.
Defined.

(** X17.  [LoadPages] with an empty folder path returns 0 and no error and
    leaves the crawler as it is; a folder that cannot be listed ends the
    process in [log.Fatal].  Of a folder it reads the files whose name ends
    in [.httpi], in the order of the listing, and no other: a folder
    without such a file gives 0, no error and the crawler as it was. *)
Theorem LoadPages_reads_httpi_files_only
    (L : Lib) (fs : FS) (folderpath : string) (cw : Crawler) :
  LoadPages fs "" cw = (Return (0%Z, None), cw)
  ∧ (folderpath ≠ "" → ∀ e, ReadDir fs folderpath = Err e →
       LoadPages fs folderpath cw = (LogFatal, cw))
  ∧ (∀ names, ReadDir fs folderpath = Ok names →
       GetPageInfoFiles fs folderpath
       = Ok (path_Join folderpath
               <$> List.filter (fun name => GoStrings.HasSuffix name ".httpi") names))
  ∧ (∀ names, ReadDir fs folderpath = Ok names →
       (∀ name, name ∈ names → GoStrings.HasSuffix name ".httpi" = false) →
       LoadPages fs folderpath cw = (Return (0%Z, None), cw)).
Proof.
  split; [reflexivity|]. split; [|split].
  - intros Hfolder e Hdir. unfold LoadPages, GetPageInfoFiles.
    rewrite bool_decide_eq_false_2 by exact Hfolder. rewrite Hdir. reflexivity.
  - intros names. apply GetPageInfoFiles_eq.
  - intros names Hdir Hnone. unfold LoadPages.
    case_bool_decide as Hfolder; [reflexivity|].
    rewrite (GetPageInfoFiles_eq fs folderpath names Hdir).
    assert (List.filter (fun name => GoStrings.HasSuffix name ".httpi") names = []) as ->.
    { clear Hdir. induction names as [|name names IH]; [reflexivity|]. cbn [List.filter].
      rewrite (Hnone name) by apply list_elem_of_here.
      apply IH. intros name' Hname'. apply Hnone, list_elem_of_further, Hname'. }
    reflexivity.
Qed.

Lemma LoadPages_reads_httpi_files_only_witness :
  let fs := mkFS (fun folder => if bool_decide (folder = "store")
                                then Ok ["1.respbin"; "notes.txt"]
                                else Err (errorString "no such file or directory"))
                 (fun _ => Err (errorString "unreadable")) in
  LoadPages (L := Sample.lib) fs "store" NewCrawler = (Return (0%Z, None), NewCrawler)
  ∧ LoadPages (L := Sample.lib) fs "gone" NewCrawler = (LogFatal, NewCrawler).
Proof.
  intros fs.
  destruct (LoadPages_reads_httpi_files_only Sample.lib fs "store" NewCrawler)
    as (_ & _ & _ & Hnone).
  destruct (LoadPages_reads_httpi_files_only Sample.lib fs "gone" NewCrawler)
    as (_ & Hfatal & _).
  split.
  - apply (Hnone ["1.respbin"; "notes.txt"]); [reflexivity|].
    intros name Hname. apply elem_of_cons in Hname as [->|Hname]; [reflexivity|].
    apply list_elem_of_singleton in Hname as ->. reflexivity.
  - apply (Hfatal ltac:(discriminate) (errorString "no such file or directory")).
    reflexivity.
Defined.

(** ** Word lists *)

Section Trimming.

Implicit Types (s k line cutset : string) (c : ascii).

Lemma TrimLeftSet_hasByte s cutset c :
  GoStrings.hasByte s c = false → GoStrings.hasByte (GoStrings.TrimLeftSet s cutset) c = false.
Proof.
  induction s as [|a s IH]; simpl; [reflexivity|].
  destruct (decide (a = c)) as [|Hne]; [discriminate|]. intros Hs.
  destruct (GoStrings.hasByte cutset a); [exact (IH Hs)|].
  simpl. rewrite decide_False by exact Hne. exact Hs.
Qed.

Lemma TrimRightSet_hasByte s cutset c :
  GoStrings.hasByte s c = false → GoStrings.hasByte (GoStrings.TrimRightSet s cutset) c = false.
Proof.
  induction s as [|a s IH]; simpl; [reflexivity|].
  destruct (decide (a = c)) as [|Hne]; [discriminate|]. intros Hs. specialize (IH Hs).
  destruct (GoStrings.TrimRightSet s cutset) as [|b t].
  - destruct (GoStrings.hasByte cutset a); [reflexivity|].
    simpl. rewrite decide_False by exact Hne. reflexivity.
  - change (GoStrings.hasByte (String a (String b t)) c = false).
    simpl. rewrite decide_False by exact Hne. exact IH.
Qed.

Lemma TrimRightSet_idempotent s cutset :
  GoStrings.TrimRightSet (GoStrings.TrimRightSet s cutset) cutset
  = GoStrings.TrimRightSet s cutset.
Proof.
  induction s as [|a s IH]; [reflexivity|]. cbn [GoStrings.TrimRightSet].
  destruct (GoStrings.TrimRightSet s cutset) as [|b t] eqn:Ht.
  - destruct (GoStrings.hasByte cutset a) eqn:Ha; [reflexivity|].
    cbn [GoStrings.TrimRightSet]. rewrite Ha. reflexivity.
  - change (GoStrings.TrimRightSet (String a (String b t)) cutset = String a (String b t)).
    change (GoStrings.TrimRightSet (String a (String b t)) cutset)
      with (match GoStrings.TrimRightSet (String b t) cutset with
            | EmptyString => if GoStrings.hasByte cutset a then EmptyString
                             else String a EmptyString
            | t0 => String a t0
            end).
    rewrite IH. reflexivity.
Qed.

Lemma TrimLeftSet_head s cutset : head_outside cutset (GoStrings.TrimLeftSet s cutset).
Proof.
  induction s as [|a s IH]; simpl; [exact I|].
  destruct (GoStrings.hasByte cutset a) eqn:Ha; [exact IH | exact Ha].
Qed.

Lemma TrimLeftSet_fixed s cutset : head_outside cutset s → GoStrings.TrimLeftSet s cutset = s.
Proof. destruct s as [|a s]; simpl; [reflexivity|]. intros ->. reflexivity. Qed.

Lemma TrimRightSet_head s cutset :
  head_outside cutset s → head_outside cutset (GoStrings.TrimRightSet s cutset).
Proof.
  destruct s as [|a s]; simpl; [trivial|]. intros Ha.
  destruct (GoStrings.TrimRightSet s cutset); [rewrite Ha|]; exact Ha.
Qed.

Lemma Trim_head s cutset : head_outside cutset (GoStrings.Trim s cutset).
Proof. apply TrimRightSet_head, TrimLeftSet_head. Qed.

Lemma Trim_idempotent s cutset :
  GoStrings.Trim (GoStrings.Trim s cutset) cutset = GoStrings.Trim s cutset.
Proof.
  unfold GoStrings.Trim at 1.
  rewrite (TrimLeftSet_fixed _ _ (Trim_head s cutset)).
  apply TrimRightSet_idempotent.
Qed.

Lemma Trim_hasByte s cutset c :
  GoStrings.hasByte s c = false → GoStrings.hasByte (GoStrings.Trim s cutset) c = false.
Proof. intros H. apply TrimRightSet_hasByte, TrimLeftSet_hasByte, H. Qed.

(** The lines [SplitByLines] keeps, in their order. *)
Lemma SplitByLines_eq text :
  SplitByLines text
  = List.filter (fun line => negb (bool_decide (GoStrings.TrimSpace line = "")))
      ((fun k => GoStrings.Trim k line_ends) <$> GoStrings.Split text "010").
Proof.
  unfold SplitByLines. cbv zeta. fold line_ends.
  assert (∀ (ks acc : list string),
            fold_left (fun cleanLines k =>
                         if bool_decide (GoStrings.TrimSpace (GoStrings.Trim k line_ends) = "")
                         then cleanLines
                         else cleanLines ++ [GoStrings.Trim k line_ends]) ks acc
            = acc ++ List.filter (fun line => negb (bool_decide (GoStrings.TrimSpace line = "")))
                       ((fun k => GoStrings.Trim k line_ends) <$> ks)) as Hfold.
  { induction ks as [|k ks IH]; intros acc; cbn [fold_left].
    - simpl. rewrite app_nil_r. reflexivity.
    - rewrite IH, fmap_cons. cbn [List.filter].
      destruct (bool_decide (GoStrings.TrimSpace (GoStrings.Trim k line_ends) = ""));
        cbn [negb]; [reflexivity|].
      rewrite <- app_assoc. reflexivity. }
  apply (Hfold _ []).
Qed.

End Trimming.

(** X18.  A line is in the result of [SplitByLines] exactly when it is a
    piece of the text between line feeds, with line feeds and carriage
    returns cut off at both ends, and is not blank: not a string of white
    space only, where white space is that of Unicode ([white_space]), as
    [strings.TrimSpace] has it.  So no line of the result is empty or
    white space only, none holds a line feed, none begins with a carriage
    return, and cutting again changes nothing.  [ReadWordlist] returns
    these lines of the file, or the error of the read. *)
Theorem SplitByLines_keeps_clean_lines (fs : FS) (filePath text line : string) :
  (line ∈ SplitByLines text
   ↔ ∃ k, k ∈ GoStrings.Split text "010"
          ∧ line = GoStrings.Trim k line_ends
          ∧ ¬ blank line)
  ∧ (line ∈ SplitByLines text →
       line ≠ ""
       ∧ GoStrings.TrimSpace line ≠ ""
       ∧ GoStrings.hasByte line "010" = false
       ∧ (∀ rest, line ≠ String "013" rest)
       ∧ GoStrings.Trim line line_ends = line)
  ∧ (blank line → line ∉ SplitByLines text)
  ∧ length (SplitByLines text) ≤ length (GoStrings.Split text "010")
  ∧ (∀ e, ReadFile fs filePath = Err e → ReadWordlist fs filePath = Err e)
  ∧ (ReadFile fs filePath = Ok text → ReadWordlist fs filePath = Ok (SplitByLines text)).
Proof.
  assert (line ∈ SplitByLines text
          ↔ ∃ k, k ∈ GoStrings.Split text "010"
                 ∧ line = GoStrings.Trim k line_ends
                 ∧ ¬ blank line) as Hspec.
  { rewrite SplitByLines_eq, list_elem_of_In, filter_In, <- list_elem_of_In, list_elem_of_fmap.
    rewrite negb_true_iff, bool_decide_eq_false, TrimSpace_empty. split.
    - intros [(k & -> & Hk) Hblank]. eauto.
    - intros (k & Hk & -> & Hblank). eauto. }
  split; [exact Hspec|]. split; [|split; [|split; [|split]]].
  - intros Hline. apply Hspec in Hline as (k & Hk & -> & Hblank).
    split; [intros Hempty; apply Hblank; rewrite Hempty; apply blank_empty|].
    split; [rewrite TrimSpace_empty; exact Hblank|]. split; [|split].
    + apply Trim_hasByte. exact (Split_pieces text "010" k Hk).
    + intros rest Hrest. pose proof (Trim_head k line_ends) as Hhead.
      rewrite Hrest in Hhead. discriminate Hhead.
    + apply Trim_idempotent.
  - intros Hblank Hline. apply Hspec in Hline as (k & _ & _ & Hnot). exact (Hnot Hblank).
  - rewrite SplitByLines_eq.
    etransitivity; [apply filter_length_le|]. rewrite length_fmap. reflexivity.
  - intros e He. unfold ReadWordlist. rewrite He. reflexivity.
  - intros Hread. unfold ReadWordlist. rewrite Hread. reflexivity.
Qed.

Lemma SplitByLines_keeps_clean_lines_witness :
  let text := ("www" ++ String "013" (String "010"
                 (" " ++ utf8 [194; 160; 226; 128; 131] ++ String "010" "mail")))%string in
  SplitByLines text = ["www"; "mail"]
  ∧ ReadWordlist (mkFS (fun _ => Ok []) (fun _ => Ok text)) "words.txt" = Ok ["www"; "mail"]
  ∧ "www" ≠ ""
  ∧ (" " ++ utf8 [194; 160; 226; 128; 131])%string ∉ SplitByLines text.
Proof.
  intros text.
  destruct (SplitByLines_keeps_clean_lines (mkFS (fun _ => Ok []) (fun _ => Ok text))
              "words.txt" text "www") as (_ & Hclean & _ & _ & _ & Hread).
  destruct (SplitByLines_keeps_clean_lines (mkFS (fun _ => Ok []) (fun _ => Ok text))
              "words.txt" text (" " ++ utf8 [194; 160; 226; 128; 131]))
    as (_ & _ & Hblank & _).
  split; [reflexivity|]. split; [apply Hread; reflexivity|].
  split; [apply Hclean; apply list_elem_of_here|].
  apply Hblank, TrimSpace_empty. reflexivity.
Defined.

(** X19.  With a name server configured, [ScanDNS] returns one entry for
    every distinct subdomain of the list and no other key; the entry holds
    the answers to the question for the host built from the subdomain, and
    a nil slice when the exchange failed: a failure is not reported and
    does not leave the subdomain out.  Without a configuration or without
    a server the scan of a list that is not empty is a panic. *)
Theorem ScanDNS_one_entry_per_subdomain
    (ds : DNSScanner) (net : DNSWorld) (subdomains : list string) (name : string)
    (dnsType : Z) :
  (∀ cfg server servers,
     config ds = Some cfg → Servers cfg = server :: servers →
     ∃ dnsResult,
       ScanDNS ds net subdomains name dnsType = Return dnsResult
       ∧ ∀ subdomain,
           (is_Some (dnsResult !! subdomain) ↔ subdomain ∈ subdomains)
           ∧ (subdomain ∈ subdomains →
                dnsResult !! subdomain
                = Some (match dns_Exchange net (dns_Fqdn net (ScanDNS_host name subdomain))
                                dnsType (net_JoinHostPort net server (Port cfg)) with
                        | Ok answers => answers
                        | Err _ => []
                        end)))
  ∧ (config ds = None ∨ (∃ cfg, config ds = Some cfg ∧ Servers cfg = []) →
     subdomains ≠ [] →
     ScanDNS ds net subdomains name dnsType = Panic)
  ∧ ScanDNS ds net [] name dnsType = Return ∅.
Proof.
  split; [|split; [|reflexivity]].
  - intros cfg server servers Hcfg Hservers.
    set (answer := fun subdomain =>
           match dns_Exchange net (dns_Fqdn net (ScanDNS_host name subdomain))
                   dnsType (net_JoinHostPort net server (Port cfg)) with
           | Ok answers => answers
           | Err _ => []
           end).
    assert (∀ host, ∃ err, ResolveDNS ds net host dnsType
                           = Return (match dns_Exchange net (dns_Fqdn net host) dnsType
                                             (net_JoinHostPort net server (Port cfg)) with
                                     | Ok answers => answers
                                     | Err _ => []
                                     end, err)) as Hresolve.
    { intros host. unfold ResolveDNS. rewrite Hcfg, Hservers.
      destruct (dns_Exchange _ _ _ _); eauto. }
    unfold ScanDNS.
    assert (∀ (acc : gmap string (list string)),
              ∃ dnsResult,
                fold_left (fun dnsResult subdomain =>
                             match dnsResult with
                             | Return dnsResult =>
                                 match ResolveDNS ds net (ScanDNS_host name subdomain) dnsType with
                                 | Return (answers, _) =>
                                     Return (<[subdomain := answers]> dnsResult)
                                 | LogFatal => LogFatal
                                 | Panic => Panic
                                 end
                             | stopped => stopped
                             end) subdomains (Return acc) = Return dnsResult
                ∧ ∀ subdomain,
                    dnsResult !! subdomain
                    = if bool_decide (subdomain ∈ subdomains) then Some (answer subdomain)
                      else acc !! subdomain) as Hfold.
    { induction subdomains as [|s subdomains IH]; intros acc; cbn [fold_left].
      - exists acc. split; [reflexivity|]. intros subdomain.
        rewrite bool_decide_eq_false_2 by apply not_elem_of_nil. reflexivity.
      - destruct (Hresolve (ScanDNS_host name s)) as [err Herr]. rewrite Herr.
        destruct (IH (<[s := answer s]> acc)) as (dnsResult & Hscan & Hlookup).
        exists dnsResult. split; [exact Hscan|]. intros subdomain. rewrite Hlookup.
        destruct (decide (subdomain ∈ subdomains)) as [Hin|Hin].
        + rewrite !bool_decide_eq_true_2;
            [reflexivity | apply list_elem_of_further, Hin | exact Hin].
        + rewrite (bool_decide_eq_false_2 _ Hin), lookup_insert.
          destruct (decide (s = subdomain)) as [->|Hne].
          * rewrite bool_decide_eq_true_2 by apply list_elem_of_here. reflexivity.
          * rewrite bool_decide_eq_false_2; [reflexivity|].
            rewrite elem_of_cons. intros [?|?]; [congruence | contradiction]. }
    destruct (Hfold ∅) as (dnsResult & Hscan & Hlookup).
    exists dnsResult. split; [exact Hscan|]. intros subdomain. rewrite Hlookup.
    case_bool_decide as Hin.
    + split; [split; [intros _; exact Hin | eauto] | reflexivity].
    + rewrite lookup_empty. split; [|contradiction].
      split; [intros [? ?]; discriminate | contradiction].
  - intros Hnone Hsub. destruct subdomains as [|s subdomains]; [contradiction|].
    unfold ScanDNS. cbn [fold_left].
    assert (ResolveDNS ds net (ScanDNS_host name s) dnsType = Panic) as ->.
    { unfold ResolveDNS. destruct Hnone as [-> | (cfg & -> & ->)]; reflexivity. }
    clear Hsub. induction subdomains as [|s' subdomains IH]; [reflexivity | exact IH].
Qed.

Lemma ScanDNS_one_entry_per_subdomain_witness :
  let net := mkDNSWorld (fun name => (name ++ ".")%string)
               (fun host port => (host ++ ":" ++ port)%string)
               (fun question _ _ =>
                  if bool_decide (question = "www.example.com.")
                  then Ok ["www.example.com. 300 IN A 192.0.2.1"]
                  else Err (errorString "i/o timeout")) in
  let ds := mkDNSScanner (Some (mkClientConfig ["192.0.2.53"] "53")) in
  (∃ dnsResult,
     ScanDNS ds net ["www"; "ftp"] " example.com " 1 = Return dnsResult
     ∧ dnsResult !! "www" = Some ["www.example.com. 300 IN A 192.0.2.1"]
     ∧ dnsResult !! "ftp" = Some []
     ∧ dnsResult !! "mail" = None)
  ∧ ScanDNS (mkDNSScanner None) net ["www"] "example.com" 1 = Panic.
Proof.
  intros net ds.
  destruct (ScanDNS_one_entry_per_subdomain ds net ["www"; "ftp"] " example.com " 1)
    as (Hscan & _).
  destruct (ScanDNS_one_entry_per_subdomain (mkDNSScanner None) net ["www"] "example.com" 1)
    as (_ & Hpanic & _).
  split.
  - destruct (Hscan _ "192.0.2.53" [] eq_refl eq_refl) as (dnsResult & Hresult & Hentries).
    exists dnsResult. split; [exact Hresult|]. split; [|split].
    + rewrite (proj2 (Hentries "www")); [reflexivity | apply list_elem_of_here].
    + rewrite (proj2 (Hentries "ftp"));
        [reflexivity | apply list_elem_of_further, list_elem_of_here].
    + destruct (dnsResult !! "mail") eqn:Hmail; [|reflexivity].
      assert ("mail" ∈ ["www"; "ftp"]) as Hin by (apply (Hentries "mail"); eauto).
      apply elem_of_cons in Hin as [Hin|Hin]; [discriminate Hin|].
      apply list_elem_of_singleton in Hin. discriminate Hin.
  - apply Hpanic; [left; reflexivity | discriminate].
Defined.
